(** * Pilot data-movement pipeline and communication manager

    A shallow embedding of
      - [pilot/control/data.py]        (stage-in, stage-out, queue monitor),
      - [pilot/util/auxiliary.py]      (the pilot state, exit codes, texts),
      - [pilot/eventservice/communicationmanager/communicationmanager.py]
    followed by the properties of these programs.

    Python objects that are shared by reference (job records, requests)
    live in a store and the queues hold references into it.  Everything
    the programs read from the outside (child processes, the stop signal
    as seen by the subprocess runner, the upload summary file, the
    communicator plug-in) is an explicit oracle. *)

From Stdlib Require Import ZArith String Ascii Lia Bool Sorting.Sorted.
From stdpp Require Import base option list gmap strings pretty.

(** ** Python values and control effects *)

Module Py.

(** The exceptions that the modelled code raises or lets escape. *)
Inductive exn : Type :=
| KeyError (key : string)
| AttributeError (name : string)
| ValueError (msg : string)
| CommunicationFailure (msg : string).

(** Outcome of running a piece of code: a value, an exception that left
    it, or a loop that was still running when the fuel ran out. *)
Inductive res (A : Type) : Type :=
| Ret (a : A)
| Raise (e : exn)
| OutOfFuel.
Arguments Ret {A} a.
Arguments Raise {A} e.
Arguments OutOfFuel {A}.

(** [needle in hay] on two [str] values: substring test. *)
Fixpoint contains (needle hay : string) : bool :=
  String.prefix needle hay
  || match hay with
     | EmptyString => false
     | String _ hay' => contains needle hay'
     end.

(** [s.split(',')[0]]: the text before the first comma. *)
Fixpoint split_comma_head (s : string) : string :=
  match s with
  | EmptyString => EmptyString
  | String c s' =>
      if Ascii.eqb c ","%char then EmptyString
      else String c (split_comma_head s')
  end.

(** [d[k] = v] on a dict kept in insertion order: an existing key keeps
    its place, a new key goes last. *)
Fixpoint dict_set {V : Type} (d : list (string * V)) (k : string) (v : V)
  : list (string * V) :=
  match d with
  | [] => [(k, v)]
  | (k', v') :: d' =>
      if String.eqb k' k then (k, v) :: d' else (k', v') :: dict_set d' k v
  end.

End Py.

Export Py.

(** ** The job record

    The job is a dynamic mapping in the source; the fields below are the
    keys that the modelled functions read or write.  Keys that the code
    tests with [in] before reading are optional fields, and so are the
    two keys that are read for a log line only, [infosys] and
    [destinationDblock]: reading a key that is not there raises
    [KeyError]. *)

Inductive ErrorCode : Type :=
| STAGEINFAILED
| STAGEOUTFAILED
| COMMUNICATIONFAILURE
| UNKNOWNEXCEPTION.

(** One entry of [job['metaData']['files']['output']], seen through its
    first sub-file [f['subFiles'][0]]. *)
Record SubFile : Type := mkSubFile {
  sf_name : string;
  file_guid : string;
  file_size : Z
}.

(** Value stored in [fileinfodict] per transferred file. *)
Record FileInfo : Type := mkFileInfo {
  fi_guid : string;
  fi_fsize : Z;
  fi_adler32 : string;
  fi_surl : string
}.

(** What [job['infosys'].queuedata.copytools] finds in the object
    under the key [infosys]: the value of [copytools], or no attribute
    of the name [attribute] ([queuedata] in the object, or [copytools]
    in its [queuedata]). *)
Inductive Infosys : Type :=
| has_copytools (copytools : string)
| lacks (attribute : string).

Record Job : Type := mkJob {
  PandaID : Z;
  workdir : string;
  state : string;
  stageout : string;
  inFiles : string;
  scopeIn : string;
  ddmEndPointIn : string;
  outFiles : string;
  scopeOut : string;
  ddmEndPointOut : string;
  logFile : string;
  scopeLog : string;
  logGUID : string;
  metaData : option (list SubFile);
  exitCode : option Z;
  transExitCode : option Z;
  pilotErrorCodes : list ErrorCode;
  pilotErrorDiags : list string;
  fileinfodict : option (gmap string FileInfo);
  infosys : option Infosys;
  destinationDblock : option string
}.

Definition set_state (s : string) (j : Job) : Job :=
  mkJob (PandaID j) (workdir j) s (stageout j) (inFiles j) (scopeIn j)
        (ddmEndPointIn j) (outFiles j) (scopeOut j) (ddmEndPointOut j)
        (logFile j) (scopeLog j) (logGUID j) (metaData j) (exitCode j)
        (transExitCode j) (pilotErrorCodes j) (pilotErrorDiags j)
        (fileinfodict j) (infosys j) (destinationDblock j).

Definition set_stageout (s : string) (j : Job) : Job :=
  mkJob (PandaID j) (workdir j) (state j) s (inFiles j) (scopeIn j)
        (ddmEndPointIn j) (outFiles j) (scopeOut j) (ddmEndPointOut j)
        (logFile j) (scopeLog j) (logGUID j) (metaData j) (exitCode j)
        (transExitCode j) (pilotErrorCodes j) (pilotErrorDiags j)
        (fileinfodict j) (infosys j) (destinationDblock j).

Definition set_errors (e : list ErrorCode * list string) (j : Job) : Job :=
  mkJob (PandaID j) (workdir j) (state j) (stageout j) (inFiles j) (scopeIn j)
        (ddmEndPointIn j) (outFiles j) (scopeOut j) (ddmEndPointOut j)
        (logFile j) (scopeLog j) (logGUID j) (metaData j) (exitCode j)
        (transExitCode j) (fst e) (snd e) (fileinfodict j)
        (infosys j) (destinationDblock j).

Definition set_fileinfodict (d : gmap string FileInfo) (j : Job) : Job :=
  mkJob (PandaID j) (workdir j) (state j) (stageout j) (inFiles j) (scopeIn j)
        (ddmEndPointIn j) (outFiles j) (scopeOut j) (ddmEndPointOut j)
        (logFile j) (scopeLog j) (logGUID j) (metaData j) (exitCode j)
        (transExitCode j) (pilotErrorCodes j) (pilotErrorDiags j) (Some d)
        (infosys j) (destinationDblock j).

(** ** pilot/util/auxiliary.py *)

Module Auxiliary.

(** The one process-wide variable these two functions touch. *)
Record Environ : Type := mkEnviron { PILOT_JOB_STATE : option string }.

(** [get_pilot_state(job=None)] *)
Definition get_pilot_state (environ : Environ) (job : option Job) : string :=
  match job with
  | Some j => state j
  | None => default "unknown"%string (PILOT_JOB_STATE environ)
  end.

(** The string holds a null character; [os.environ] takes no such
    value. *)
Fixpoint has_nul (s : string) : bool :=
  match s with
  | EmptyString => false
  | String c s' => Ascii.eqb c "000"%char || has_nul s'
  end.

(** [set_pilot_state(job=None, state='')]: the variable is written
    first, and the assignment raises [ValueError] for a value with a
    null character, nothing being written then; the job, when there is
    one, is written unless its state is ['failed'].  [None] stands for
    any [job] that Python takes for false. *)
Definition set_pilot_state (environ : Environ) (job : option Job) (st : string)
  : res (Environ * option Job) :=
  if has_nul st then Raise (ValueError "embedded null byte")
  else
    let environ' := mkEnviron (Some st) in
    match job with
    | Some j =>
        if negb (String.eqb (state j) "failed")
        then Ret (environ', Some (set_state st j))
        else Ret (environ', Some j)
    | None => Ret (environ', None)
    end.

End Auxiliary.

(** ** pilot/control/data.py *)

Module Data.

(** *** What the pipeline sees of the outside *)

(** Upload summary written by the transfer tool ([rucio_upload.json]): a
    mapping from ['scope:name'] to the fields the code reads. *)
Record SummaryEntry : Type := mkSummaryEntry {
  pfn : string;
  adler32 : string
}.

(** One child process as its supervisor observes it. *)
Record Proc : Type := mkProc {
  (** [subprocess.Popen] returns (instead of raising). *)
  spawn_ok : bool;
  (** Result of the n-th reading of [args.graceful_stop.is_set()] made
      while this child is supervised. *)
  is_set : nat -> bool;
  (** Result of the n-th [process.poll()]. *)
  poll : nat -> option Z;
  (** Content of [<workdir>/rucio_upload.json] once the child is gone;
      [None] when there is no such file. *)
  summary_file : option (gmap string SummaryEntry)
}.

(** The collaborators that are not part of data.py. *)
Record Outside : Type := mkOutside {
  (** Behaviour of the n-th child process that gets launched. *)
  os : nat -> Proc;
  (** What [send_state(job, args, state)] of pilot.control.job leaves in
      the job record. *)
  send_state : Job -> string -> Job;
  (** Size on disk of the log tarball that [prepare_log] writes. *)
  tar_size : Job -> Z;
  (** Message text that goes with an error code. *)
  error_diag : ErrorCode -> string;
  (** The place of a key in the hash table of a dict that got the keys
      [keys] in this order.  data.py runs under Python 2, where
      [for key in d] goes through the table by place and not by order
      of insertion. *)
  dict_slot : forall keys : list string, string -> nat
}.

(** *** State of the pipeline *)

Record Launch : Type := mkLaunch { argv : list string; cwd : string }.

(** The queues bundle; the elements are references to job records. *)
Record Queues : Type := mkQueues {
  data_in : list nat;
  data_out : list nat;
  finished_data_in : list nat;
  failed_data_in : list nat;
  finished_data_out : list nat;
  failed_data_out : list nat;
  finished_jobs : list nat;
  failed_jobs : list nat
}.

Inductive QueueName : Type :=
| q_data_in | q_data_out | q_finished_data_in | q_failed_data_in
| q_finished_data_out | q_failed_data_out | q_finished_jobs | q_failed_jobs.

Definition queue (n : QueueName) (q : Queues) : list nat :=
  match n with
  | q_data_in => data_in q
  | q_data_out => data_out q
  | q_finished_data_in => finished_data_in q
  | q_failed_data_in => failed_data_in q
  | q_finished_data_out => finished_data_out q
  | q_failed_data_out => failed_data_out q
  | q_finished_jobs => finished_jobs q
  | q_failed_jobs => failed_jobs q
  end.

Definition set_queue (n : QueueName) (l : list nat) (q : Queues) : Queues :=
  match n with
  | q_data_in =>
      mkQueues l (data_out q) (finished_data_in q) (failed_data_in q)
               (finished_data_out q) (failed_data_out q) (finished_jobs q)
               (failed_jobs q)
  | q_data_out =>
      mkQueues (data_in q) l (finished_data_in q) (failed_data_in q)
               (finished_data_out q) (failed_data_out q) (finished_jobs q)
               (failed_jobs q)
  | q_finished_data_in =>
      mkQueues (data_in q) (data_out q) l (failed_data_in q)
               (finished_data_out q) (failed_data_out q) (finished_jobs q)
               (failed_jobs q)
  | q_failed_data_in =>
      mkQueues (data_in q) (data_out q) (finished_data_in q) l
               (finished_data_out q) (failed_data_out q) (finished_jobs q)
               (failed_jobs q)
  | q_finished_data_out =>
      mkQueues (data_in q) (data_out q) (finished_data_in q)
               (failed_data_in q) l (failed_data_out q) (finished_jobs q)
               (failed_jobs q)
  | q_failed_data_out =>
      mkQueues (data_in q) (data_out q) (finished_data_in q)
               (failed_data_in q) (finished_data_out q) l (finished_jobs q)
               (failed_jobs q)
  | q_finished_jobs =>
      mkQueues (data_in q) (data_out q) (finished_data_in q)
               (failed_data_in q) (finished_data_out q) (failed_data_out q)
               l (failed_jobs q)
  | q_failed_jobs =>
      mkQueues (data_in q) (data_out q) (finished_data_in q)
               (failed_data_in q) (finished_data_out q) (failed_data_out q)
               (finished_jobs q) l
  end.

Record World : Type := mkWorld {
  (** The job records, by reference. *)
  jobs : nat -> Job;
  queues : Queues;
  (** Every [subprocess.Popen] call made so far, oldest first. *)
  launched : list Launch;
  (** The error codes and messages that the module-wide object
      [errors = ErrorCodes()] has been given so far. *)
  errors : list ErrorCode * list string
}.

(** *** Stateful computations over the world *)

Definition M (A : Type) : Type := World -> res A * World.

Definition ret {A} (a : A) : M A := fun w => (Ret a, w).

Definition bind {A B} (m : M A) (k : A -> M B) : M B :=
  fun w =>
    match m w with
    | (Ret a, w') => k a w'
    | (Raise e, w') => (Raise e, w')
    | (OutOfFuel, w') => (OutOfFuel, w')
    end.

Definition raise {A} (e : exn) : M A := fun w => (Raise e, w).

Notation "x <~ m ;; k" := (bind m (fun x => k))
  (at level 100, m at next level, right associativity).
Notation "m ;;; k" := (bind m (fun _ => k))
  (at level 100, right associativity).

(** [q.put(job)] *)
Definition put (n : QueueName) (r : nat) : M unit :=
  fun w =>
    (Ret tt,
     mkWorld (jobs w) (set_queue n (queue n (queues w) ++ [r]) (queues w))
             (launched w) (errors w)).

(** [q.get(block=True, timeout=1)]; [None] stands for [Queue.Empty]. *)
Definition get (n : QueueName) : M (option nat) :=
  fun w =>
    match queue n (queues w) with
    | [] => (Ret None, w)
    | r :: rest =>
        (Ret (Some r),
         mkWorld (jobs w) (set_queue n rest (queues w)) (launched w) (errors w))
    end.

(** Reading the record behind a reference. *)
Definition deref (r : nat) : M Job := fun w => (Ret (jobs w r), w).

(** In-place update of the record behind a reference. *)
Definition modify (r : nat) (f : Job -> Job) : M unit :=
  fun w =>
    (Ret tt,
     mkWorld (fun r' => if decide (r' = r) then f (jobs w r') else jobs w r')
             (queues w) (launched w) (errors w)).

(** Recording one more [subprocess.Popen] call. *)
Definition add_launch (l : Launch) (w : World) : World :=
  mkWorld (jobs w) (queues w) (launched w ++ [l]) (errors w).

(** The keys of a dict in the order in which a loop over the dict
    visits them: by their place [slot] in the table, keys with one
    place in the order of insertion. *)
Fixpoint insert_by {V : Type} (slot : string -> nat) (kv : string * V)
         (l : list (string * V)) : list (string * V) :=
  match l with
  | [] => [kv]
  | kv' :: l' =>
      if slot (fst kv) <=? slot (fst kv') then kv :: l
      else kv' :: insert_by slot kv l'
  end.

Definition sort_by {V : Type} (slot : string -> nat) (l : list (string * V))
  : list (string * V) :=
  fold_right (insert_by slot) [] l.

Section Pipeline.

Variable X : Outside.

(** [for key in d: ... d[key] ...] over the dict with the items [d],
    given in the order of insertion. *)
Definition iteration_order {V : Type} (d : list (string * V))
  : list (string * V) :=
  sort_by (dict_slot X (map fst d)) d.

(** Modelled from the spec: [ErrorCodes.add_error_code] of
    pilot/common/errorcodes.py is not part of the sources at hand.  The
    job's diagnostics are an accumulated list of error codes and one of
    messages, and data.py overwrites both with what this method returns
    when it is called with the code alone: the method adds the code and
    its message to the lists that the object [errors] keeps, and returns
    these lists.  What the job gets is their content at that moment. *)
Definition add_error_code (ec : ErrorCode) : M (list ErrorCode * list string) :=
  fun w =>
    let lists := (fst (errors w) ++ [ec], snd (errors w) ++ [error_diag X ec]) in
    (Ret lists, mkWorld (jobs w) (queues w) (launched w) lists).

(** *** Supervision of a child process

    [_call] and [_stage_out] contain the same launch and the same
    supervision loop; it is written once here. *)

(** [subprocess.Popen(executable, ..., cwd=cwd)] inside [try]: the
    launch is recorded; [None] is the [except] branch. *)
Definition Popen (executable : list string) (dir : string) : M (option Proc) :=
  fun w =>
    let p := os X (length (launched w)) in
    (Ret (if spawn_ok p then Some p else None),
     add_launch (mkLaunch executable dir) w).

(** [for i in xrange(10)]: up to [n] readings of the stop signal, the
    first of them being reading number [reads]; [true] when one of
    them found it set ([breaker]). *)
Fixpoint sub_ticks (p : Proc) (reads n : nat) : bool :=
  match n with
  | O => false
  | S n' => if is_set p reads then true else sub_ticks p (S reads) n'
  end.

(** The [while True] loop.  [reads] and [polls] count the readings of
    the stop signal and the polls made so far; the result is the final
    value of the variable [exit_code]. *)
Fixpoint supervise (fuel : nat) (p : Proc) (reads polls : nat)
         (exit_code : option Z) : res (option Z) :=
  match fuel with
  | O => OutOfFuel
  | S fuel' =>
      if sub_ticks p reads 10 then
        (* terminate, sleep 3 s, kill, break *)
        Ret exit_code
      else
        match poll p polls with
        | Some c => Ret (Some c)
        | None => supervise fuel' p (reads + 10) (S polls) None
        end
  end.

Definition wait_child (fuel : nat) (p : Proc) : M (option Z) :=
  fun w => (supervise fuel p 0 0 None, w).

(** [_call(args, executable, cwd, logger)] *)
Definition _call (fuel : nat) (executable : list string) (dir : string)
  : M bool :=
  process <~ Popen executable dir ;;
  match process with
  | None => ret false
  | Some p =>
      exit_code <~ wait_child fuel p ;;
      ret (bool_decide (exit_code = Some 0%Z))
  end.

(** [_stage_in(args, job)] *)
Definition _stage_in (fuel : nat) (job : Job) : M bool :=
  ok <~ _call fuel
          ["/usr/bin/env"; "rucio"; "-v"; "download"; "--no-subdir";
           "--rse"; ddmEndPointIn job;
           scopeIn job +:+ ":" +:+ inFiles job]
          (workdir job) ;;
  if negb ok then ret false else ret true.

(** *** Stage-out *)

(** A transfer descriptor: the values of the [outputs] dict. *)
Record Outfile : Type := mkOutfile {
  scope : string;
  name : string;
  guid : string;
  bytes : Z
}.

(** [prepare_log(job, tarball_name)]: writes the tarball in the work
    directory and describes it.  Of the archive only its size, read
    back with [os.stat], reaches the descriptor.  The job is taken to
    have its identity [jobid], which names the logger, and the file
    operations to go through. *)
Definition prepare_log (job : Job) (tarball_name : string) : Outfile :=
  mkOutfile (scopeLog job) (logFile job) (logGUID job) (tar_size X job).

(** [_stage_out(args, outfile, job)] *)
Definition _stage_out (fuel : nat) (outfile : Outfile) (job : Job)
  : M (option (gmap string SummaryEntry)) :=
  process <~ Popen
               ["/usr/bin/env"; "rucio"; "-v"; "upload";
                "--summary"; "--no-register";
                "--guid"; guid outfile;
                "--rse"; split_comma_head (ddmEndPointOut job);
                "--scope"; scope outfile;
                name outfile]
               (workdir job) ;;
  match process with
  | None => ret None
  | Some p =>
      exit_code <~ wait_child fuel p ;;
      match exit_code with
      | None => ret None
      | Some _ =>
          match summary_file p with
          | None => ret None
          | Some summary => ret (Some summary)
          end
      end
  end.

(** [summary[key]] *)
Definition summary_get (summary : gmap string SummaryEntry) (key : string)
  : M SummaryEntry :=
  match summary !! key with
  | Some e => ret e
  | None => raise (KeyError key)
  end.

(** The dict [outputs] that [_stage_out_all] builds before it starts
    transferring, as the list of its items in the order of insertion.
    The log tarball goes in under the key ['scopeLog:logFile'], the
    outputs under their names. *)
Definition build_outputs (job : Job) (tarball_name : string)
  : list (string * Outfile) :=
  let outputs :=
    if String.eqb (stageout job) "log" then []
    else
      match metaData job with
      | Some files =>
          fold_left
            (fun outputs f =>
               dict_set outputs (sf_name f)
                 (mkOutfile (scopeOut job) (sf_name f) (file_guid f)
                            (file_size f)))
            files []
      | None => []
      end in
  dict_set outputs (scopeLog job +:+ ":" +:+ logFile job)
           (prepare_log job tarball_name).

(** [for outfile in outputs: ...] with the two accumulators
    [fileinfodict] and [failed]. *)
Fixpoint transfer_loop (fuel : nat) (job : Job)
         (outputs : list (string * Outfile))
         (fileinfo : gmap string FileInfo) (failed : bool)
  : M (gmap string FileInfo * bool) :=
  match outputs with
  | [] => ret (fileinfo, failed)
  | (outfile, d) :: rest =>
      if negb (contains outfile (outFiles job)) then
        transfer_loop fuel job rest fileinfo failed
      else
        summary <~ _stage_out fuel d job ;;
        match summary with
        | Some s =>
            e <~ summary_get s (scope d +:+ ":" +:+ name d) ;;
            transfer_loop fuel job rest
              (<[name d := mkFileInfo (guid d) (bytes d) (adler32 e) (pfn e)]>
                 fileinfo)
              failed
        | None => transfer_loop fuel job rest fileinfo true
        end
  end.

(** [_stage_out_all(job, args)]; [queue_name] is [args.queue]. *)
Definition _stage_out_all (fuel : nat) (queue_name : string) (r : nat)
  : M bool :=
  job <~ deref r ;;
  let outputs :=
    build_outputs job
      ("tarball_PandaJob_" +:+ pretty (PandaID job) +:+ "_" +:+ queue_name) in
  acc <~ transfer_loop fuel job (iteration_order outputs) ∅ false ;;
  if (snd acc : bool) then
    lists <~ add_error_code STAGEOUTFAILED ;;
    modify r (set_errors lists) ;;;
    modify r (set_state "failed") ;;;
    ret false
  else
    modify r (set_fileinfodict (fst acc)) ;;;
    modify r (set_state "finished") ;;;
    ret true.

(** *** The three workers, one turn of their loops each *)

(** [job['infosys'].queuedata.copytools], read for a log line. *)
Definition read_copytools (job : Job) : M string :=
  match infosys job with
  | None => raise (KeyError "infosys")
  | Some (lacks attribute) => raise (AttributeError attribute)
  | Some (has_copytools copytools) => ret copytools
  end.

(** [job['destinationDblock']], read for a log line. *)
Definition read_dataset (job : Job) : M string :=
  match destinationDblock job with
  | None => raise (KeyError "destinationDblock")
  | Some dataset => ret dataset
  end.

(** Body of the [while] loop of [copytool_in].  The [try] catches
    [Queue.Empty] and nothing else: any other exception leaves the
    loop and the worker. *)
Definition copytool_in (fuel : nat) : M unit :=
  got <~ get q_data_in ;;
  match got with
  | None => ret tt
  | Some r =>
      modify r (fun j => send_state X j "running") ;;;
      job <~ deref r ;;
      read_copytools job ;;;
      ok <~ _stage_in fuel job ;;
      if (ok : bool) then put q_finished_data_in r
      else
        put q_failed_data_in r ;;;
        lists <~ add_error_code STAGEINFAILED ;;
        modify r (set_errors lists) ;;;
        modify r (set_state "failed")
  end.

(** Body of the [while] loop of [copytool_out]; here too only
    [Queue.Empty] is caught. *)
Definition copytool_out (fuel : nat) (queue_name : string) : M unit :=
  got <~ get q_data_out ;;
  match got with
  | None => ret tt
  | Some r =>
      job <~ deref r ;;
      read_dataset job ;;;
      ok <~ _stage_out_all fuel queue_name r ;;
      if (ok : bool) then put q_finished_data_out r
      else put q_failed_data_out r
  end.

(** [queue_monitoring], the part that watches [failed_data_in]. *)
Definition monitor_failed_data_in (fuel : nat) (queue_name : string)
  : M unit :=
  got <~ get q_failed_data_in ;;
  match got with
  | None => ret tt
  | Some r =>
      modify r (set_stageout "log") ;;;
      ok <~ _stage_out_all fuel queue_name r ;;
      if negb ok then put q_failed_data_out r
      else put q_failed_jobs r
  end.

(** [queue_monitoring], the part that watches [finished_data_out]. *)
Definition monitor_finished_data_out : M unit :=
  got <~ get q_finished_data_out ;;
  match got with
  | None => ret tt
  | Some r =>
      job <~ deref r ;;
      let exit_code :=
        match exitCode job with
        | Some c => c
        | None => 0%Z
        end in
      if match transExitCode job with
         | Some t => Z.eqb t 0
         | None => false
         end && Z.eqb exit_code 0
      then put q_finished_jobs r
      else put q_failed_jobs r
  end.



End Pipeline.

(** *** Vocabulary for the properties of the pipeline *)

(** Under supervision the child is found, by [process.poll()], to have
    exited with code [c]: the poll that closes turn [j] of the loop
    reports [c], the earlier polls reported nothing, and the stop signal
    was not seen set in any reading up to there. *)
Inductive child_exited (p : Proc) (c : Z) : Prop :=
| seen_exited (j : nat) :
    (forall k, k < 10 * S j -> is_set p k = false) ->
    (forall i, i < j -> poll p i = None) ->
    poll p j = Some c ->
    child_exited p c.

(** The supervision of [p] comes to an end: the stop signal is seen set
    at some reading, or some poll reports an exit. *)
Definition ends (p : Proc) : Prop :=
  (exists k, is_set p k = true) \/ (exists j, poll p j <> None).

(** The stage-in transfer run as child [p] succeeds. *)
Definition download_ok (p : Proc) : Prop :=
  spawn_ok p = true /\ child_exited p 0.


(** The [Popen] call that [_stage_out] makes for a descriptor. *)
Definition upload_launch (job : Job) (d : Outfile) : Launch :=
  mkLaunch
    ["/usr/bin/env"; "rucio"; "-v"; "upload"; "--summary"; "--no-register";
     "--guid"; guid d; "--rse"; split_comma_head (ddmEndPointOut job);
     "--scope"; scope d; name d]
    (workdir job).

(** The descriptors of [outputs] that pass the test
    [outfile in job['outFiles']], in order. *)
Definition selected (job : Job) (outputs : list (string * Outfile))
  : list Outfile :=
  map snd (List.filter (fun kd => contains (fst kd) (outFiles job)) outputs).



(** [job['fileinfodict'][file]], [None] when the job has no such mapping or
    the mapping no such key. *)
Definition fileinfo_of (job : Job) (file : string) : option FileInfo :=
  match fileinfodict job with
  | Some d => d !! file
  | None => None
  end.

End Data.

(** ** pilot/eventservice/communicationmanager/communicationmanager.py *)

Module Comm.

(** *** Responses and requests *)

(** The values that [status] takes: [None], a bool, or an int. *)
Inductive Status : Type :=
| StatusNone
| StatusBool (b : bool)
| StatusInt (z : Z).

(** [status == 0]; Python's [False == 0] holds. *)
Definition status_eq_0 (s : Status) : bool :=
  match s with
  | StatusNone => false
  | StatusBool b => negb b
  | StatusInt z => Z.eqb z 0
  end.

(** [status is False] *)
Definition status_is_False (s : Status) : bool :=
  match s with
  | StatusBool false => true
  | _ => false
  end.

Record CommunicationResponse : Type := mkResponse {
  status : Status;
  content : option string;
  exception : option exn
}.

Inductive RequestType : Type :=
| RequestJobs | UpdateJobs | RequestEvents | UpdateEvents.

(** A value of the dict [args] that the caller of [get_jobs] may hand
    in: [None], a response object, or anything else (a text stands for
    it). *)
Inductive ArgValue : Type :=
| arg_none
| arg_response (res : CommunicationResponse)
| arg_other (text : string).

(** The attributes that come with each request type. *)
Inductive Payload : Type :=
| request_jobs (num_jobs : Z) (args : list (string * ArgValue))
| update_jobs_of (jobs : string)
| request_events (num_event_ranges : Z) (jobid jobsetid taskid : Z)
| update_events_of (update_events : string).

Definition payload_type (p : Payload) : RequestType :=
  match p with
  | request_jobs _ _ => RequestJobs
  | update_jobs_of _ => UpdateJobs
  | request_events _ _ _ _ => RequestEvents
  | update_events_of _ => UpdateEvents
  end.

(** A request; [post_hook] names the caller's callback. *)
Record CommunicationRequest : Type := mkRequest {
  payload : Payload;
  post_hook : option nat;
  response : option CommunicationResponse;
  abort : bool
}.

Definition request_type (req : CommunicationRequest) : RequestType :=
  payload_type (payload req).

(** [args[key]] for the extra attributes of [get_jobs]; of several
    entries with one key the last one counts. *)
Definition args_get (args : list (string * ArgValue)) (key : string)
  : option ArgValue :=
  fold_left (fun found kv => if String.eqb (fst kv) key then Some (snd kv) else found)
            args None.

(** A value in the attribute [response] that is no response object, as
    the waiting caller sees it: reading its [exception] raises
    [AttributeError]. *)
Definition foreign_response : CommunicationResponse :=
  mkResponse StatusNone None (Some (AttributeError "exception")).

(** The attribute [response] of a request that is being created.
    [get_jobs] copies every key of [args] into the attributes, and the
    constructor fills in [response = None] only when the key is not
    there: [args] with a value other than [None] under the key
    [response] make a request that has a response from the start. *)
Definition initial_response (p : Payload) : option CommunicationResponse :=
  match p with
  | request_jobs _ args =>
      match args_get args "response" with
      | Some (arg_response res) => Some res
      | Some (arg_other _) => Some foreign_response
      | Some arg_none => None
      | None => None
      end
  | _ => None
  end.

(** [CommunicationRequest(attrs)]: the attributes given, [response]
    among them or else [None], and [abort = False]. *)
Definition new_request (p : Payload) (hook : option nat) : CommunicationRequest :=
  mkRequest p hook (initial_response p) false.

Definition set_response (res : CommunicationResponse)
           (req : CommunicationRequest) : CommunicationRequest :=
  mkRequest (payload req) (post_hook req) (Some res) (abort req).

Definition set_abort (b : bool) (req : CommunicationRequest)
  : CommunicationRequest :=
  mkRequest (payload req) (post_hook req) (response req) b.

(** *** The communicator plug-in *)

Module Plugin.

(** What a call of a plug-in method comes to: the response it returns,
    or [None] when it raises an exception. *)
Definition Reply : Type := option CommunicationResponse.

(** The methods of a communicator that the manager calls.  [St] is
    whatever the plug-in keeps between calls. *)
Record Communicator (St : Type) : Type := mkCommunicator {
  pre_check_get_jobs : St -> Reply * St;
  request_get_jobs : CommunicationRequest -> St -> Reply * St;
  check_get_jobs_status : St -> Reply * St;
  get_jobs : CommunicationRequest -> St -> Reply * St;
  pre_check_get_events : St -> Reply * St;
  request_get_events : CommunicationRequest -> St -> Reply * St;
  check_get_events_status : St -> Reply * St;
  get_events : CommunicationRequest -> St -> Reply * St;
  pre_check_update_jobs : St -> Reply * St;
  update_jobs : CommunicationRequest -> St -> Reply * St;
  pre_check_update_events : St -> Reply * St;
  update_events : CommunicationRequest -> St -> Reply * St
}.
Arguments pre_check_get_jobs {St} _.
Arguments request_get_jobs {St} _.
Arguments check_get_jobs_status {St} _.
Arguments get_jobs {St} _.
Arguments pre_check_get_events {St} _.
Arguments request_get_events {St} _.
Arguments check_get_events_status {St} _.
Arguments get_events {St} _.
Arguments pre_check_update_jobs {St} _.
Arguments update_jobs {St} _.
Arguments pre_check_update_events {St} _.
Arguments update_events {St} _.

End Plugin.

(** *** The manager *)

(** Keys of [self.queues]. *)
Inductive QName : Type :=
| request_get_jobs
| update_jobs
| request_get_events
| update_events
| processing_get_jobs
| processing_update_jobs
| processing_get_events
| processing_update_events.

Global Instance QName_eq_dec : EqDecision QName.
Proof. solve_decision. Defined.

(** [self.queue_limits] *)
Definition queue_limits (q : QName) : option nat :=
  match q with
  | request_get_jobs => None
  | update_jobs => None
  | request_get_events => None
  | update_events => None
  | processing_get_jobs => Some 1
  | processing_update_jobs => Some 1
  | processing_get_events => Some 1
  | processing_update_events => Some 1
  end.

(** Where the [run] loop stands: inside a pass over the processor table
    with the entries still to visit and the flag [has_req], or past its
    [break]; or the thread has been ended by an exception that a plug-in
    method raised ([run] has no [try]). *)
Inductive Control : Type :=
| InPass (todo : list QName) (has_req : bool)
| Finished
| Died.

(** What a public operation comes to for its caller: a return value, an
    exception, or the wait for the response of the request it queued. *)
Inductive Outcome : Type :=
| Returned (v : option string)
| Raised (e : exn)
| Waiting (r : nat).

(** The job descriptor that [get_event_ranges] reads. *)
Record EventJob : Type := mkEventJob {
  ej_PandaID : Z;
  ej_jobsetID : Z;
  ej_taskID : Z
}.

Section Manager.

Context {St : Type}.
Variable communicator : Plugin.Communicator St.

Record Manager : Type := mkManager {
  (** [self.queues]; the elements are references to requests. *)
  queues : QName -> list nat;
  (** [self.stop_event.is_set()] *)
  stop_event : bool;
  (** The request objects created so far, by reference, and how many
      there are. *)
  requests : nat -> CommunicationRequest;
  allocated : nat;
  (** Every call of a [post_hook] made so far, with its argument. *)
  hook_calls : list (nat * CommunicationResponse);
  (** State of the plug-in instance. *)
  plugin : St;
  control : Control
}.

Definition set_queue (q : QName) (l : list nat) (m : Manager) : Manager :=
  mkManager (fun q' => if decide (q' = q) then l else queues m q')
            (stop_event m) (requests m) (allocated m) (hook_calls m)
            (plugin m) (control m).

Definition set_request (r : nat) (f : CommunicationRequest -> CommunicationRequest)
           (m : Manager) : Manager :=
  mkManager (queues m) (stop_event m)
            (fun r' => if decide (r' = r) then f (requests m r')
                       else requests m r')
            (allocated m) (hook_calls m) (plugin m) (control m).

Definition set_plugin (s : St) (m : Manager) : Manager :=
  mkManager (queues m) (stop_event m) (requests m) (allocated m)
            (hook_calls m) s (control m).

Definition set_control (c : Control) (m : Manager) : Manager :=
  mkManager (queues m) (stop_event m) (requests m) (allocated m)
            (hook_calls m) (plugin m) c.

(** [req.post_hook(res)]: the call is recorded.  The hook is the
    caller's own function; it is taken to return. *)
Definition call_hook (h : nat) (res : CommunicationResponse) (m : Manager)
  : Manager :=
  mkManager (queues m) (stop_event m) (requests m) (allocated m)
            (hook_calls m ++ [(h, res)]) (plugin m) (control m).

(** [stop()] *)
Definition stop (m : Manager) : Manager :=
  if negb (stop_event m) then
    mkManager (queues m) true (requests m) (allocated m) (hook_calls m)
              (plugin m) (control m)
  else m.

(** [is_stop()] *)
Definition is_stop (m : Manager) : bool := stop_event m.

(** [req = CommunicationRequest(req_attrs); self.queues[q].put(req)]:
    a new object, referenced from the end of the queue. *)
Definition submit (q : QName) (p : Payload) (hook : option nat) (m : Manager)
  : nat * Manager :=
  let r := allocated m in
  (r,
   mkManager (fun q' => if decide (q' = q) then queues m q' ++ [r]
                        else queues m q')
             (stop_event m)
             (fun r' => if decide (r' = r) then new_request p hook
                        else requests m r')
             (S r) (hook_calls m) (plugin m) (control m)).

(** What the caller does once the request is queued: leave at once
    when it gave a [post_hook], else wait for the response. *)
Definition after_submit (r : nat) (m : Manager) : Outcome :=
  match post_hook (requests m r) with
  | Some _ => Returned None
  | None => Waiting r
  end.

(** The end of a waiting call, [while req.response is None: sleep(1)]
    and what follows it: [None] as long as the caller keeps waiting. *)
Definition collect (r : nat) (m : Manager) : option Outcome :=
  match response (requests m r) with
  | None => None
  | Some res =>
      match exception res with
      | Some e => Some (Raised e)
      | None =>
          if status_is_False (status res) then Some (Returned None)
          else Some (Returned (content res))
      end
  end.

(** [get_jobs(njobs=1, post_hook=None, args=None)]; [args] are the extra
    attributes that the caller wants on the request.  They are copied
    into the attributes before [request_type], [num_jobs] and
    [post_hook] are set. *)
Definition get_jobs (njobs : Z) (hook : option nat)
           (args : list (string * ArgValue)) (m : Manager) : Outcome * Manager :=
  if is_stop m then (Returned None, m)
  else
    let '(r, m') := submit request_get_jobs (request_jobs njobs args) hook m in
    (after_submit r m', m').

(** [update_jobs(jobs, post_hook=None)] *)
Definition update_jobs_op (jobs : string) (hook : option nat) (m : Manager)
  : Outcome * Manager :=
  if is_stop m then (Returned None, m)
  else
    let '(r, m') := submit update_jobs (update_jobs_of jobs) hook m in
    (after_submit r m', m').

(** [get_event_ranges(num_event_ranges=1, post_hook=None, job=None)];
    [None] stands for any [job] that Python takes for false. *)
Definition get_event_ranges (num_event_ranges : Z) (hook : option nat)
           (job : option EventJob) (m : Manager) : Outcome * Manager :=
  if is_stop m then (Returned None, m)
  else
    match job with
    | None =>
        (Raised (CommunicationFailure
                   "get events failed because job info missing (job: None)"),
         m)
    | Some j =>
        let '(r, m') :=
          submit request_get_events
                 (request_events num_event_ranges (ej_PandaID j)
                                 (ej_jobsetID j) (ej_taskID j))
                 hook m in
        (after_submit r m', m')
    end.

(** [update_events(update_events, post_hook=None)] *)
Definition update_events_op (upd : string) (hook : option nat) (m : Manager)
  : Outcome * Manager :=
  if is_stop m then (Returned None, m)
  else
    let '(r, m') := submit update_events (update_events_of upd) hook m in
    (after_submit r m', m').

(** One value of the dict that [get_processor] returns. *)
Record Processor : Type := mkProcessor {
  pre_check : St -> Plugin.Reply * St;
  handler : CommunicationRequest -> St -> Plugin.Reply * St;
  next_queue : option QName;
  process_req_post_hook : bool
}.

(** The keys of the processor dict, in the order of the literal. *)
Definition processor_keys : list QName :=
  [request_get_jobs; request_get_events; update_jobs; update_events;
   processing_get_jobs; processing_get_events].

(** [get_processor()[process_type]].  The two queues that the dict has
    no key for get an entry that is never looked up: [run] only visits
    [processor_keys]. *)
Definition processor (process_type : QName) : Processor :=
  match process_type with
  | request_get_jobs =>
      mkProcessor (Plugin.pre_check_get_jobs communicator)
                  (Plugin.request_get_jobs communicator)
                  (Some processing_get_jobs) false
  | request_get_events =>
      mkProcessor (Plugin.pre_check_get_events communicator)
                  (Plugin.request_get_events communicator)
                  (Some processing_get_events) false
  | update_jobs =>
      mkProcessor (Plugin.pre_check_update_jobs communicator)
                  (Plugin.update_jobs communicator)
                  None true
  | update_events =>
      mkProcessor (Plugin.pre_check_update_events communicator)
                  (Plugin.update_events communicator)
                  None true
  | processing_get_jobs =>
      mkProcessor (Plugin.check_get_jobs_status communicator)
                  (Plugin.get_jobs communicator)
                  None true
  | processing_get_events =>
      mkProcessor (Plugin.check_get_events_status communicator)
                  (Plugin.get_events communicator)
                  None true
  | processing_update_jobs =>
      mkProcessor (Plugin.pre_check_update_jobs communicator)
                  (Plugin.update_jobs communicator)
                  None true
  | processing_update_events =>
      mkProcessor (Plugin.pre_check_update_events communicator)
                  (Plugin.update_events communicator)
                  None true
  end.

(** [can_process_request(processor, process_type)] *)
Definition can_process_request (process_type : QName) (m : Manager) : bool :=
  match queues m process_type with
  | [] => false
  | _ :: _ =>
      match next_queue (processor process_type) with
      | None => true
      | Some nq =>
          match queue_limits nq with
          | None => true
          | Some limit =>
              if Nat.ltb (length (queues m nq)) limit then true else false
          end
      end
  end.

(** The response given to a request that is aborted at shutdown. *)
Definition abort_response : CommunicationResponse :=
  mkResponse StatusNone None
    (Some (CommunicationFailure
             "Communication manager is stopping, abort this request")).

(** [while not self.queues[process_type].empty(): ...] of the stop
    branch, over the current content of the queue. *)
Fixpoint abort_all (rs : list nat) (m : Manager) : Manager :=
  match rs with
  | [] => m
  | r :: rs' =>
      abort_all rs'
        (set_request r (set_response abort_response)
           (set_request r (set_abort true) m))
  end.

Definition drain (process_type : QName) (m : Manager) : Manager :=
  abort_all (queues m process_type) (set_queue process_type [] m).

(** The [elif] branch of the loop body from the point where the
    request [r] has been taken off its queue.  An exception that the
    handler raises ends the thread there: the request is off its queue
    and gets neither a response nor a place in another queue. *)
Definition handle (process_type : QName) (r : nat) (m : Manager) : Manager :=
  let e := processor process_type in
  match handler e (requests m r) (plugin m) with
  | (None, s) => set_control Died (set_plugin s m)
  | (Some res, s) =>
      let m := set_plugin s m in
      if status_is_False (status res) then
        set_request r (set_response res) m
      else
        let m :=
          match next_queue e with
          | Some nq => set_queue nq (queues m nq ++ [r]) m
          | None => set_request r (set_response res) m
          end in
        if process_req_post_hook e then
          match post_hook (requests m r) with
          | Some h => call_hook h res m
          | None => m
          end
        else m
  end.

(** Body of [for process_type in processor]; takes and gives back the
    flag [has_req].  [can_process_request] has just found the queue not
    empty and no other thread takes requests off it, so that the [get()]
    finds a request; the last case below is there for totality. *)
Definition run_entry (process_type : QName) (has_req : bool) (m : Manager)
  : bool * Manager :=
  if is_stop m then (has_req, drain process_type m)
  else if can_process_request process_type m then
    match pre_check (processor process_type) (plugin m) with
    | (None, s) => (has_req, set_control Died (set_plugin s m))
    | (Some pre_check_resp, s) =>
        let m := set_plugin s m in
        if negb (status_eq_0 (status pre_check_resp)) then (has_req, m)
        else
          match queues m process_type with
          | r :: rest =>
              (true, handle process_type r (set_queue process_type rest m))
          | [] => (true, m)
          end
    end
  else (has_req, m).

(** One step of the thread that executes [run]: the next entry of the
    pass, or the end of the pass ([break], or sleep and start over). *)
Definition run_step (m : Manager) : Manager :=
  match control m with
  | Finished => m
  | Died => m
  | InPass (process_type :: todo) has_req =>
      let '(has_req', m') := run_entry process_type has_req m in
      match control m' with
      | Died => m'
      | _ => set_control (InPass todo has_req') m'
      end
  | InPass [] has_req =>
      if negb has_req && is_stop m then set_control Finished m
      else set_control (InPass processor_keys false) m
  end.

(** *** The manager among its clients *)

(** What can happen next: the [run] thread makes a step, or some other
    thread calls [stop] or one of the four public operations. *)
Inductive Event : Type :=
| EvRun
| EvStop
| EvGetJobs (njobs : Z) (hook : option nat) (args : list (string * ArgValue))
| EvUpdateJobs (jobs : string) (hook : option nat)
| EvGetEventRanges (n : Z) (hook : option nat) (job : option EventJob)
| EvUpdateEvents (upd : string) (hook : option nat).

Definition apply_event (ev : Event) (m : Manager) : Manager :=
  match ev with
  | EvRun => run_step m
  | EvStop => stop m
  | EvGetJobs n h a => snd (get_jobs n h a m)
  | EvUpdateJobs j h => snd (update_jobs_op j h m)
  | EvGetEventRanges n h j => snd (get_event_ranges n h j m)
  | EvUpdateEvents u h => snd (update_events_op u h m)
  end.

Definition exec (evs : list Event) (m : Manager) : Manager :=
  fold_left (fun m ev => apply_event ev m) evs m.

(** The manager as [__init__] leaves it, its thread about to enter the
    first pass. *)
Definition init (s : St) : Manager :=
  mkManager (fun _ => []) false
            (fun _ => new_request (request_jobs 1 []) None) 0 [] s
            (InPass processor_keys false).

End Manager.

Arguments Manager St : clear implicits.
Arguments Processor St : clear implicits.

(** *** Vocabulary for the properties of the manager *)

(** Neither in-flight queue holds more than one request. *)
Definition in_flight_bounded {St : Type} (m : Manager St) : Prop :=
  length (queues m processing_get_jobs) <= 1 /\
  length (queues m processing_get_events) <= 1.

(** A request as the shutdown leaves it. *)
Definition aborted (req : CommunicationRequest) : Prop :=
  abort req = true /\ response req = Some abort_response.

End Comm.

(** ** Sample inputs *)

Module Samples.
Import Data.

(** A job with two inputs, one output and a log file. *)
Definition job101 : Job :=
  mkJob 101 "/w/101" "running" "all"
        "a.root,b.root" "s" "EP1"
        "out.root" "s" "EP2"
        "log.tgz" "s" "G"
        None None None [] [] None
        (Some (has_copytools "rucio")) (Some "data.101").


(** A job with a job report for its one output. *)
Definition job202 : Job :=
  mkJob 202 "/w/202" "running" "all"
        "" "s" "EP1"
        "o1.root" "s" "EP2"
        "log.tgz" "s" "G"
        (Some [mkSubFile "o1.root" "GO" 42]) (Some 0%Z) (Some 0%Z) [] [] None
        (Some (has_copytools "rucio")) (Some "data.202").

(** Job 202 as a record without the key [destinationDblock]. *)
Definition job202_no_dataset : Job :=
  mkJob 202 "/w/202" "running" "all"
        "" "s" "EP1"
        "o1.root" "s" "EP2"
        "log.tgz" "s" "G"
        (Some [mkSubFile "o1.root" "GO" 42]) (Some 0%Z) (Some 0%Z) [] [] None
        (Some (has_copytools "rucio")) None.


Definition summary202 : gmap string SummaryEntry :=
  <["s:o1.root" := mkSummaryEntry "srm://x" "deadbeef"]>
    (<["s:log.tgz" := mkSummaryEntry "srm://y" "feedface"]> ∅).

(** A child that is never cancelled and has exited with code [c] by the
    first poll, leaving the summary file [summary]. *)
Definition exits_with (c : Z) (summary : option (gmap string SummaryEntry))
  : Proc :=
  mkProc true (fun _ => false) (fun _ => Some c) summary.

(** A child that has exited with code 0 while the stop signal is set
    from the first reading on. *)
Definition exited_0_after_stop : Proc :=
  mkProc true (fun _ => true) (fun _ => Some 0%Z) None.

(** Collaborators where every child exits with code [c]; the state
    notification leaves the job record alone, and a loop over a dict
    visits the keys in the order of their insertion. *)
Definition outside_exit (c : Z) : Outside :=
  mkOutside (fun _ => exits_with c (Some summary202))
            (fun j _ => j)
            (fun _ => 1024%Z)
            (fun ec =>
               match ec with
               | STAGEINFAILED => "Failed to stage-in file"
               | STAGEOUTFAILED => "Failed to stage-out file"
               | COMMUNICATIONFAILURE => "Communication failure"
               | UNKNOWNEXCEPTION => "Unknown exception"
               end)
            (fun _ _ => 0).

(** Collaborators where every child exits with code 0 and leaves the
    summary file that [summary] describes. *)
Definition outside_summary (summary : option (gmap string SummaryEntry)) : Outside :=
  mkOutside (fun _ => exits_with 0 summary)
            (fun j _ => j)
            (fun _ => 1024%Z)
            (error_diag (outside_exit 0))
            (fun _ _ => 0).

Definition no_queues : Queues := mkQueues [] [] [] [] [] [] [] [].

(** Job 101 waits on [data_in]. *)
Definition world101 : World :=
  mkWorld (fun _ => job101) (set_queue q_data_in [0] no_queues) [] ([], []).


(** Job 202 waits on [data_out]. *)
Definition world202 : World :=
  mkWorld (fun _ => job202) (set_queue q_data_out [0] no_queues) [] ([], []).

(** Job 202 without [destinationDblock] waits on [data_out]. *)
Definition world202_no_dataset : World :=
  mkWorld (fun _ => job202_no_dataset) (set_queue q_data_out [0] no_queues) []
          ([], []).


(** Job 202 has been staged out and waits on [finished_data_out]. *)
Definition world202_out : World :=
  mkWorld (fun _ => set_state "finished" job202)
          (set_queue q_finished_data_out [0] no_queues) [] ([], []).

End Samples.

Module CommSamples.
Import Comm.

(** A plug-in without state: every pre-check reports readiness
    ([status = 0]) and every handler answers with status [st]. *)
Definition answering (st : Status) : Plugin.Communicator unit :=
  let pre := fun s : unit => (Some (mkResponse (StatusInt 0) None None), s) in
  let han := fun (_ : CommunicationRequest) (s : unit) =>
               (Some (mkResponse st (Some "ok"%string) None), s) in
  Plugin.mkCommunicator unit pre han pre han pre han pre han pre han pre han.

(** A plug-in whose pre-checks report readiness and whose handlers
    raise an exception. *)
Definition raising : Plugin.Communicator unit :=
  let pre := fun s : unit => (Some (mkResponse (StatusInt 0) None None), s) in
  let han := fun (_ : CommunicationRequest) (s : unit) =>
               (@None CommunicationResponse, s) in
  Plugin.mkCommunicator unit pre han pre han pre han pre han pre han pre han.

(** The manager after a client has called [update_jobs] with a
    [post_hook]. *)
Definition one_update : Manager unit :=
  snd (update_jobs_op "jobs" (Some 7) (init tt)).

(** A client asks for jobs after the first entry of a pass was visited,
    then [stop] is called; the [run] thread goes on until its [break]. *)
Definition stop_in_mid_pass : list Event :=
  [EvRun; EvGetJobs 1 None []; EvStop;
   EvRun; EvRun; EvRun; EvRun; EvRun; EvRun].

End CommSamples.

(** * Further definitions *)

(** ** More vocabulary for the communication manager *)

Module CommMore.
Import Comm.

(** The request [r] is in no queue. *)
Definition detached {St : Type} (m : Manager St) (r : nat) : Prop :=
  forall q, ~ In r (queues m q).

(** The request is as its constructor left it: not aborted, and with
    the [response] that it was created with. *)
Definition untouched (req : CommunicationRequest) : Prop :=
  response req = initial_response (payload req) /\ abort req = false.

(** How the requests sit in the queues: no queue holds a request twice,
    no request is in two queues, every queued request was created by a
    public operation, and nothing has been written to it since. *)
Record well_queued {St : Type} (m : Manager St) : Prop := mkWellQueued {
  wq_nodup : forall q, NoDup (queues m q);
  wq_one_queue :
    forall q1 q2 r, In r (queues m q1) -> In r (queues m q2) -> q1 = q2;
  wq_created : forall q r, In r (queues m q) -> r < allocated m;
  wq_pending : forall q r, In r (queues m q) -> untouched (requests m r)
}.

(** Every call of a [post_hook] made so far was made for a request that
    carries this hook, with the response that is attached to it; the
    request has left the queues. *)
Definition hooks_accounted {St : Type} (m : Manager St) : Prop :=
  forall h res, In (h, res) (hook_calls m) ->
    exists r, r < allocated m /\
              detached m r /\
              post_hook (requests m r) = Some h /\
              response (requests m r) = Some res /\
              status_is_False (status res) = false.

(** Every request that was created and has no response yet waits in
    one of the queues that [run] visits. *)
Definition all_waiting {St : Type} (m : Manager St) : Prop :=
  forall r, r < allocated m -> response (requests m r) = None ->
    exists q, In q processor_keys /\ In r (queues m q).

(** No request is lost as long as no plug-in method has raised. *)
Definition none_lost {St : Type} (m : Manager St) : Prop :=
  control m <> Died -> all_waiting m.

End CommMore.

(** ** More vocabulary for the data pipeline *)

Module DataMore.
Import Data.


(** The supervisor of [p] sees the stop signal set before any poll has
    reported an exit: reading [k] finds it set, and the polls of the
    turns before the turn of that reading (ten readings a turn) reported
    nothing. *)
Definition cancelled (p : Proc) : Prop :=
  exists k, is_set p k = true /\ forall i, i < k / 10 -> poll p i = None.


(** The name under which [_stage_out_all] writes the log tarball. *)
Definition tarball_name (job : Job) (queue_name : string) : string :=
  "tarball_PandaJob_" +:+ pretty (PandaID job) +:+ "_" +:+ queue_name.

(** The key of the log tarball in [outputs]. *)
Definition log_key (job : Job) : string :=
  scopeLog job +:+ ":" +:+ logFile job.

End DataMore.

(** ** pilot/control/data.py, the stand-alone transfers

    [stage_in_auto] and [stage_out_auto] work on a list of file
    dictionaries, which they update in place and return.  The entries
    are taken to be distinct objects that have the keys the code reads
    without a test.  The keys [status], [errmsg] and [errno] are written
    for every entry before any of them is read, so that what they hold at
    entry does not matter; they are plain fields here. *)

Module Auto.

(** What the two functions see of the outside. *)
Record Child : Type := mkChild {
  (** Result of the n-th [process.poll()]. *)
  c_poll : nat -> option Z;
  (** The second component of [process.communicate()]. *)
  c_stderr : string
}.

Record Env : Type := mkEnv {
  (** [os.path.exists] *)
  path_exists : string -> bool;
  (** The n-th [subprocess.Popen] call of the run; [None] when the call
      raises [OSError] (it is not inside a [try]). *)
  spawn : nat -> option Child
}.

(** How a run ends.  The list is updated in place, so the caller sees
    the entries also when an exception leaves the function. *)
Inductive Outcome : Type :=
| Returned
| Raised_OSError
| Unfinished.

(** The line feed character as a string. *)
Definition newline : string := String "010"%char EmptyString.

(** [stderr.split('\n')] *)
Fixpoint split_lines (s : string) : list string :=
  match s with
  | EmptyString => [EmptyString]
  | String c s' =>
      if Ascii.eqb c "010"%char then EmptyString :: split_lines s'
      else
        match split_lines s' with
        | l :: ls => String c l :: ls
        | [] => [String c EmptyString]
        end
  end.

(** The value given to [f['errmsg']] after a failed transfer: the first
    line of [stderr] that starts with ['Details:'], sliced with [[9:-1]];
    when there is no such line, the [IndexError] is caught and its text
    goes into the replacement message. *)
Definition details (stderr : string) : string :=
  match List.filter (String.prefix "Details:") (split_lines stderr) with
  | d :: _ => String.substring 9 (String.length d - 10) d
  | [] =>
      "Could not find rucio error message details - please check stderr directly: "
      +:+ "list index out of range"
  end.

(** [while True: time.sleep(0.1); exit_code = process.poll(); ...]: the
    first exit code that a poll reports, [polls] polls having been made;
    [None] when the fuel runs out first. *)
Fixpoint await (fuel : nat) (c : Child) (polls : nat) : option Z :=
  match fuel with
  | O => None
  | S fuel' =>
      match c_poll c polls with
      | Some exit_code => Some exit_code
      | None => await fuel' c (S polls)
      end
  end.

(** *** The loop that the two functions share

    The two functions run the same two loops over their list; they
    differ in the path they test, in the command line and in the
    messages.  The loops are written once, over these. *)

(** Result of a run: how it ended, the entries as the run left them, and
    the command lines handed to [subprocess.Popen], oldest first. *)
Record Run (F : Type) : Type := mkRun {
  outcome : Outcome;
  files_after : list F;
  launches : list (list string)
}.
Arguments mkRun {F} _ _ _.
Arguments outcome {F} _.
Arguments files_after {F} _.
Arguments launches {F} _.

Section Loops.

Context {F : Type}.
Variable E : Env.
(** [f['destination']], respectively [f['file']] *)
Variable path : F -> string.
(** [tmp_executable] for the entry *)
Variable argv : F -> list string.
(** [f['errno']] *)
Variable get_errno : F -> Z.
(** [f['status'] = ...; f['errmsg'] = ...; f['errno'] = ...] *)
Variable update : string -> string -> Z -> F -> F.
(** [f['errno'] = ...] *)
Variable set_errno : Z -> F -> F.
Variable missing_msg : F -> string.
Variable pending_msg : string.
Variable done_msg : string.

(** Body of the first loop. *)
Definition mark (f : F) : F :=
  if negb (path_exists E (path f)) then update "failed" (missing_msg f) 1 f
  else update "running" pending_msg 2 f.

(** What the second loop does once the poll has reported [exit_code]. *)
Definition finish (c : Child) (exit_code : Z) (f : F) : F :=
  if Z.eqb exit_code 0 then update "done" done_msg 0 f
  else update "failed" (details (c_stderr c)) 3 f.

(** The second loop; [started] counts the [Popen] calls made so far. *)
Fixpoint transfer (fuel : nat) (started : nat) (files : list F) : Run F :=
  match files with
  | [] => mkRun Returned [] []
  | f :: rest =>
      if Z.eqb (get_errno f) 1 then
        let r := transfer fuel started rest in
        mkRun (outcome r) (f :: files_after r) (launches r)
      else
        match spawn E started with
        | None => mkRun Raised_OSError (f :: rest) [argv f]
        | Some c =>
            let f' := set_errno 2 f in
            match await fuel c 0 with
            | None => mkRun Unfinished (f' :: rest) [argv f]
            | Some exit_code =>
                let r := transfer fuel (S started) rest in
                mkRun (outcome r) (finish c exit_code f' :: files_after r)
                      (argv f :: launches r)
            end
        end
  end.

Definition run_auto (fuel : nat) (files : list F) : Run F :=
  transfer fuel 0 (map mark files).

End Loops.

(** *** [stage_in_auto] *)

Module StageIn.

Record File : Type := mkFile {
  destination : string;
  scope : string;
  name : string;
  status : string;
  errmsg : string;
  errno : Z
}.

Definition update (st msg : string) (e : Z) (f : File) : File :=
  mkFile (destination f) (scope f) (name f) st msg e.

Definition set_errno (e : Z) (f : File) : File :=
  mkFile (destination f) (scope f) (name f) (status f) (errmsg f) e.

Definition executable (f : File) : list string :=
  ["/usr/bin/env"; "rucio"; "-v"; "download"; "--no-subdir"]
  ++ ["--dir"; destination f]
  ++ [scope f +:+ ":" +:+ name f].

End StageIn.

(** [stage_in_auto(site, files)] *)
Definition stage_in_auto (E : Env) (fuel : nat) (files : list StageIn.File)
  : Run StageIn.File :=
  run_auto E StageIn.destination StageIn.executable StageIn.errno
           StageIn.update StageIn.set_errno
           (fun f => "Destination directory does not exist: " +:+ StageIn.destination f)
           "File not yet successfully downloaded."
           "File successfully downloaded."
           fuel files.

(** *** [stage_out_auto] *)

Module StageOut.

(** [f['attach']] *)
Record Attach : Type := mkAttach { a_scope : string; a_name : string }.

(** The keys that the code tests with [in f.keys()] are optional
    fields; [no_register] and [summary] are read for their truth value
    only, and [lifetime], which goes through [str], is taken to be an
    integer. *)
Record File : Type := mkFile {
  file : string;
  rse : string;
  scope : string;
  no_register : option bool;
  summary : option bool;
  lifetime : option Z;
  guid : option string;
  attach : option Attach;
  status : string;
  errmsg : string;
  errno : Z
}.

Definition update (st msg : string) (e : Z) (f : File) : File :=
  mkFile (file f) (rse f) (scope f) (no_register f) (summary f) (lifetime f)
         (guid f) (attach f) st msg e.

Definition set_errno (e : Z) (f : File) : File :=
  mkFile (file f) (rse f) (scope f) (no_register f) (summary f) (lifetime f)
         (guid f) (attach f) (status f) (errmsg f) e.

Definition executable (f : File) : list string :=
  ["/usr/bin/env"; "rucio"; "-v"; "upload"]
  ++ ["--rse"; rse f]
  ++ (if default false (no_register f) then ["--no-register"] else [])
  ++ (if default false (summary f) then ["--summary"] else [])
  ++ match lifetime f with
     | Some l => ["--lifetime"; pretty l]
     | None => []
     end
  ++ match guid f with
     | Some g => ["--guid"; g]
     | None => []
     end
  ++ match attach f with
     | Some a => ["--scope"; scope f; a_scope a +:+ ":" +:+ a_name a; file f]
     | None => ["--scope"; scope f; file f]
     end.

End StageOut.

(** [stage_out_auto(site, files)] *)
Definition stage_out_auto (E : Env) (fuel : nat) (files : list StageOut.File)
  : Run StageOut.File :=
  run_auto E StageOut.file StageOut.executable StageOut.errno
           StageOut.update StageOut.set_errno
           (fun f => "Source file does not exist: " +:+ StageOut.file f)
           "File not yet successfully uploaded."
           "File successfully uploaded."
           fuel files.

(** *** Vocabulary *)

(** The child is seen to exit with code [e]: some poll reports [e] and
    the polls before it report nothing. *)
Definition exits (c : Child) (e : Z) : Prop :=
  exists n, c_poll c n = Some e /\ forall i, i < n -> c_poll c i = None.

(** The text has no line feed in it. *)
Fixpoint no_newline (s : string) : bool :=
  match s with
  | EmptyString => true
  | String c s' => negb (Ascii.eqb c "010"%char) && no_newline s'
  end.

(** The number of [Popen] calls that the second loop makes before it
    comes to entry [i]: one for each earlier entry whose path exists. *)
Definition started_before {F : Type} (E : Env) (path : F -> string)
           (files : list F) (i : nat) : nat :=
  length (List.filter (fun f => path_exists E (path f)) (take i files)).

End Auto.

Module AutoSamples.
Import Auto.

(** Three entries: the destination of the second one is missing, the
    first download succeeds, the other one fails. *)
Definition sample_env : Env :=
  mkEnv (fun p => negb (String.eqb p "/nowhere"))
        (fun n => Some (mkChild (fun j => if Nat.ltb j 2 then None
                                          else Some (Z.of_nat n))
                                ("line 1" +:+ newline +:+
                                 "Details: no such file." +:+ newline +:+
                                 "line 3"))).

Definition sample_files : list StageIn.File :=
  [StageIn.mkFile "/data" "s" "a.root" "" "" 0;
   StageIn.mkFile "/nowhere" "s" "b.root" "" "" 0;
   StageIn.mkFile "/data" "s" "c.root" "" "" 0].

(** Two uploads: the source of the first one is missing. *)
Definition sample_uploads : list StageOut.File :=
  [StageOut.mkFile "/nowhere" "EP" "s" None None None None None "" "" 0;
   StageOut.mkFile "/data" "EP" "s" (Some true) None (Some 3600%Z) None
                   (Some (StageOut.mkAttach "s" "ds")) "" "" 0].

End AutoSamples.

(** ** pilot/util/auxiliary.py, the functions without side effects *)

Module Util.

(** *** Exit codes *)

(** The attributes of [pilot.common.errorcodes.ErrorCodes] that the
    translation dictionary names.  Their values are set in a module that
    is not among the sources at hand; they are left open. *)
Record ErrorCodes : Type := mkErrorCodes {
  GENERALERROR : Z;
  MKDIR : Z;
  NOSUCHFILE : Z;
  NOVOMSPROXY : Z;
  NOPROXY : Z;
  CERTIFICATEHASEXPIRED : Z;
  NOLOCALSPACE : Z;
  UNKNOWNEXCEPTION : Z;
  QUEUEDATA : Z;
  QUEUEDATANOTOK : Z;
  NOSOFTWAREDIR : Z;
  JSONRETRIEVALTIMEOUT : Z;
  BLACKHOLE : Z;
  MIDDLEWAREIMPORTFAILURE : Z;
  MISSINGINPUTFILE : Z;
  PANDAQUEUENOTACTIVE : Z;
  KILLSIGNAL : Z;
  SIGTERM : Z;
  SIGQUIT : Z;
  SIGSEGV : Z;
  SIGXCPU : Z;
  SIGUSR1 : Z;
  SIGBUS : Z
}.

(** The names imported from [pilot.util.constants], left open for the
    same reason. *)
Record Constants : Type := mkConstants {
  SUCCESS : Z;
  FAILURE : Z;
  SERVER_UPDATE_FINAL : string;
  SERVER_UPDATE_NOT_DONE : string;
  SERVER_UPDATE_TROUBLE : string
}.

(** [d[k] = v] on a dict with integer keys, kept in insertion order. *)
Fixpoint dict_set_int {V : Type} (d : list (Z * V)) (k : Z) (v : V)
  : list (Z * V) :=
  match d with
  | [] => [(k, v)]
  | (k', v') :: d' =>
      if Z.eqb k' k then (k, v) :: d' else (k', v') :: dict_set_int d' k v
  end.

(** [d.get(k)] *)
Fixpoint dict_get_int {V : Type} (d : list (Z * V)) (k : Z) : option V :=
  match d with
  | [] => None
  | (k', v) :: d' => if Z.eqb k' k then Some v else dict_get_int d' k
  end.

(** The entries of the dict display, in the order in which they are
    written. *)
Definition translation_entries (errors : ErrorCodes) : list (Z * (Z * string)) :=
  [((-1)%Z, (64%Z, "Site offline"%string));
   (GENERALERROR errors, (65%Z, "General pilot error, consult batch log"%string));
   (MKDIR errors, (66%Z, "Could not create directory"%string));
   (NOSUCHFILE errors, (67%Z, "No such file or directory"%string));
   (NOVOMSPROXY errors, (68%Z, "Voms proxy not valid"%string));
   (NOPROXY errors, (68%Z, "Proxy not valid"%string));
   (CERTIFICATEHASEXPIRED errors, (68%Z, "Proxy not valid"%string));
   (NOLOCALSPACE errors, (69%Z, "No space left on local disk"%string));
   (UNKNOWNEXCEPTION errors, (70%Z, "Exception caught by pilot"%string));
   (QUEUEDATA errors, (71%Z, "Pilot could not download queuedata"%string));
   (QUEUEDATANOTOK errors, (72%Z, "Pilot found non-valid queuedata"%string));
   (NOSOFTWAREDIR errors, (73%Z, "Software directory does not exist"%string));
   (JSONRETRIEVALTIMEOUT errors, (74%Z, "JSON retrieval timed out"%string));
   (BLACKHOLE errors, (75%Z, "Black hole detected in file system"%string));
   (MIDDLEWAREIMPORTFAILURE errors, (76%Z, "Failed to import middleware module"%string));
   (MISSINGINPUTFILE errors, (77%Z, "Missing input file in SE"%string));
   (PANDAQUEUENOTACTIVE errors, (78%Z, "PanDA queue is not active"%string));
   (KILLSIGNAL errors, (137%Z, "General kill signal"%string));
   (SIGTERM errors, (143%Z, "Job killed by signal: SIGTERM"%string));
   (SIGQUIT errors, (131%Z, "Job killed by signal: SIGQUIT"%string));
   (SIGSEGV errors, (139%Z, "Job killed by signal: SIGSEGV"%string));
   (SIGXCPU errors, (158%Z, "Job killed by signal: SIGXCPU"%string));
   (SIGUSR1 errors, (144%Z, "Job killed by signal: SIGUSR1"%string));
   (SIGBUS errors, (138%Z, "Job killed by signal: SIGBUS"%string))].

(** [get_error_code_translation_dictionary()]: the dict that the display
    builds, an entry with a key that is already there replacing the
    value of that key. *)
Definition get_error_code_translation_dictionary (errors : ErrorCodes)
  : list (Z * (Z * string)) :=
  fold_left (fun d kv => dict_set_int d (fst kv) (snd kv))
            (translation_entries errors) [].

(** [shell_exit_code(exit_code)] *)
Definition shell_exit_code (errors : ErrorCodes) (C : Constants) (exit_code : Z) : Z :=
  let error_code_translation_dictionary :=
    get_error_code_translation_dictionary errors in
  match dict_get_int error_code_translation_dictionary exit_code with
  | Some value => fst value
  | None => if negb (Z.eqb exit_code 0) then FAILURE C else SUCCESS C
  end.

(** [convert_to_pilot_error_code(exit_code)] *)
Definition convert_to_pilot_error_code (errors : ErrorCodes) (exit_code : Z) : Z :=
  let error_code_translation_dictionary :=
    get_error_code_translation_dictionary errors in
  let list_of_keys :=
    map fst (List.filter (fun kv => Z.eqb (fst (snd kv)) exit_code)
                         error_code_translation_dictionary) in
  match list_of_keys with
  | [] => (-1)%Z
  | key :: _ => key
  end.

(** The pilot error codes that have a translation. *)
Definition pilot_codes (errors : ErrorCodes) : list Z :=
  map fst (translation_entries errors).

(** The shell exit codes that translations lead to. *)
Definition shell_codes : list Z :=
  [64; 65; 66; 67; 68; 69; 70; 71; 72; 73; 74; 75; 76; 77; 78;
   137; 143; 131; 139; 158; 144; 138]%Z.

(** *** Strings

    A Python [str] is taken as a sequence of characters with code
    points below 256. *)

(** [len(s)] *)
Definition len (s : string) : Z := Z.of_nat (String.length s).

(** [s[:k]] *)
Definition slice_to (s : string) (k : Z) : string :=
  if (k <? 0)%Z then String.substring 0 (String.length s - Z.to_nat (- k)) s
  else String.substring 0 (Z.to_nat k) s.

(** [s[k:]] *)
Definition slice_from (s : string) (k : Z) : string :=
  let start :=
    if (k <? 0)%Z then String.length s - Z.to_nat (- k) else Z.to_nat k in
  String.substring start (String.length s - start) s.

(** [cut_output(txt, cutat=1024, separator='\n[...]\n')] *)
Definition cut_output (txt : string) (cutat : Z) (separator : string) : string :=
  if (2 * cutat <? len txt)%Z then
    slice_to txt cutat +:+ separator +:+ slice_from txt (- cutat)
  else txt.

(** [c.isspace()] for a character below 256: the characters that
    [str.split()] takes for white space. *)
Definition is_space (c : ascii) : bool :=
  let n := nat_of_ascii c in
  (Nat.leb 9 n && Nat.leb n 13) || (Nat.leb 28 n && Nat.leb n 32)
  || Nat.eqb n 133 || Nat.eqb n 160.

(** One pass over the text from its end: the word that the text begins
    with (empty when it begins with white space) and the words after
    it. *)
Fixpoint split_scan (s : string) : string * list string :=
  match s with
  | EmptyString => (EmptyString, [])
  | String c s' =>
      let '(word, words) := split_scan s' in
      if is_space c then
        (EmptyString,
         match word with
         | EmptyString => words
         | _ => word :: words
         end)
      else (String c word, words)
  end.

(** [s.split()] *)
Definition split (s : string) : list string :=
  let '(word, words) := split_scan s in
  match word with
  | EmptyString => words
  | _ => word :: words
  end.

(** [tmp.sort()] on a list of [str]: the words in ascending order of
    their code points.  The order of equal words cannot be told, so that
    any sorting algorithm gives the list that Python's gives; this is
    sorting by insertion. *)
Fixpoint insert_sorted (w : string) (l : list string) : list string :=
  match l with
  | [] => [w]
  | x :: l' => if String.leb w x then w :: l else x :: insert_sorted w l'
  end.

Fixpoint sort (l : list string) : list string :=
  match l with
  | [] => []
  | w :: l' => insert_sorted w (sort l')
  end.

(** [sort_words(input_str)] for a [str]; neither [AttributeError] nor
    [TypeError] is raised then. *)
Definition sort_words (input_str : string) : string :=
  let tmp := split input_str in
  let tmp := sort tmp in
  String.concat " " tmp.

(** [_str.split('=', 1)] for a text with ['='] in it: the text before
    the first ['='] and the text after it. *)
Fixpoint split_eq (s : string) : string * string :=
  match s with
  | EmptyString => (EmptyString, EmptyString)
  | String c s' =>
      if Ascii.eqb c "="%char then (EmptyString, s')
      else let '(k, v) := split_eq s' in (String c k, v)
  end.

(** ['=' in _str] *)
Fixpoint has_eq (s : string) : bool :=
  match s with
  | EmptyString => false
  | String c s' => Ascii.eqb c "="%char || has_eq s'
  end.

(** [d.get(k)] on a dict with [str] keys. *)
Fixpoint dict_get {V : Type} (d : list (string * V)) (k : string) : option V :=
  match d with
  | [] => None
  | (k', v) :: d' => if String.eqb k' k then Some v else dict_get d' k
  end.

(** [get_key_value(catchall, key='SOMEKEY')] *)
Definition get_key_value (catchall key : string) : option string :=
  let _dic :=
    fold_left (fun d _str =>
                 if has_eq _str then
                   let '(k, v) := split_eq _str in dict_set d k v
                 else d)
              (split catchall) [] in
  dict_get _dic key.

(** The dict that [get_key_value] builds from the words [ws], starting
    from [d]. *)
Definition collect_pairs (d : list (string * string)) (ws : list string)
  : list (string * string) :=
  fold_left (fun d _str =>
               if has_eq _str then
                 let '(k, v) := split_eq _str in dict_set d k v
               else d) ws d.

(** *** Waiting for the final update *)

(** [while i < max_i and update_server: ...], [remaining] turns being
    left; [reads] counts the readings of the environment variable made so
    far.  The result is the number of readings and the number of
    [sleep(30)] calls made when the loop ends. *)
Fixpoint final_update_loop (C : Constants) (environ : nat -> string)
         (remaining reads slept : nat) : nat * nat :=
  match remaining with
  | O => (reads, slept)
  | S remaining' =>
      let server_update := environ reads in
      if String.eqb server_update (SERVER_UPDATE_FINAL C)
         || String.eqb server_update (SERVER_UPDATE_TROUBLE C)
      then (S reads, slept)
      else final_update_loop C environ remaining' (S reads) (S slept)
  end.

(** [check_for_final_server_update(update_server)]; [environ n] is what
    the n-th [os.environ.get('SERVER_UPDATE', '')] returns. *)
Definition check_for_final_server_update (C : Constants) (environ : nat -> string)
           (update_server : bool) : nat * nat :=
  let max_i := 20 in
  let server_update := environ 0 in
  if String.eqb server_update (SERVER_UPDATE_NOT_DONE C) then (1, 0)
  else if update_server then final_update_loop C environ max_i 1 0
  else (1, 0).

(** The update is seen to be over at the n-th reading. *)
Definition over (C : Constants) (environ : nat -> string) (n : nat) : bool :=
  String.eqb (environ n) (SERVER_UPDATE_FINAL C)
  || String.eqb (environ n) (SERVER_UPDATE_TROUBLE C).

(** The text has no white space in it and is not empty: it is a word. *)
Fixpoint no_space (s : string) : bool :=
  match s with
  | EmptyString => true
  | String c s' => negb (is_space c) && no_space s'
  end.

Definition is_word (s : string) : bool :=
  no_space s && negb (String.eqb s EmptyString).

End Util.

Module AuxSamples.
Import Util.

(** Error codes that differ from one another. *)
Definition sample_errors : ErrorCodes :=
  mkErrorCodes 1008 1199 1103 1177 1122 1123 1098 1144 1116 1117 1162 1161
               1235 1236 1100 1221 137 1201 1202 1203 1204 1205 1206.

Definition sample_constants : Constants :=
  mkConstants 0 1 "final" "not_done" "trouble".

End AuxSamples.

(** ** Proof automation *)

(** Goals about the lengths of queues after some queues were set. *)
Ltac queue_lengths :=
  cbn in *; repeat case_decide; try discriminate;
  rewrite ?length_app in *; cbn in *; try lia.

(** Case analysis on a position below [n] of a list written out. *)
Ltac cases_nat i n :=
  match n with
  | O => idtac
  | S ?n' => destruct i as [|i]; [|cases_nat i n']
  end.

(** * Properties of the data pipeline *)

Module DataFacts.
Import Data.
Import Samples.

Section Supervision.

Variable p : Proc.

Lemma sub_ticks_false (n reads : nat) :
  sub_ticks p reads n = false <->
  (forall k, reads <= k < reads + n -> is_set p k = false).
Proof.
  revert reads. induction n as [|n IH]; intros reads; simpl.
  - split; [intros _ k Hk; lia | reflexivity].
  - destruct (is_set p reads) eqn:E.
    + split; [discriminate|]. intros H. rewrite <- E. apply H. lia.
    + rewrite IH. split; intros H k Hk.
      * destruct (decide (k = reads)) as [->|]; [exact E|]. apply H. lia.
      * apply H. lia.
Qed.

Lemma sub_ticks_true (n reads : nat) :
  sub_ticks p reads n = true ->
  exists k, reads <= k < reads + n /\ is_set p k = true.
Proof.
  revert reads. induction n as [|n IH]; intros reads; simpl; [discriminate|].
  destruct (is_set p reads) eqn:E.
  - intros _. exists reads. split; [lia | exact E].
  - intros H. destruct (IH _ H) as (k & Hk & Hs). exists k. split; [lia|exact Hs].
Qed.

(** More fuel does not change a result. *)
Lemma supervise_mono (fuel fuel' reads polls : nat) (e v : option Z) :
  supervise fuel p reads polls e = Ret v ->
  fuel <= fuel' ->
  supervise fuel' p reads polls e = Ret v.
Proof.
  revert fuel' reads polls e.
  induction fuel as [|fuel IH]; intros fuel' reads polls e; cbn [supervise]; [discriminate|].
  intros H Hle. destruct fuel' as [|fuel']; [lia|]. cbn [supervise].
  destruct (sub_ticks p reads 10); [exact H|].
  destruct (poll p polls); [exact H|].
  apply IH; [exact H | lia].
Qed.

(** The loop stops within [n] turns when a set stop signal or an exit
    lies within the readings and polls of these turns. *)
Lemma supervise_returns (n j : nat) (e : option Z) :
  (exists k, 10 * j <= k < 10 * (j + n) /\ is_set p k = true) \/
  (exists i, j <= i < j + n /\ poll p i <> None) ->
  exists v, supervise n p (10 * j) j e = Ret v.
Proof.
  revert j e. induction n as [|n IH]; intros j e H.
  - destruct H as [(k & Hk & _)|(i & Hi & _)]; lia.
  - cbn [supervise]. destruct (sub_ticks p (10 * j) 10) eqn:Et; [eauto|].
    destruct (poll p j) eqn:Ep; [eauto|].
    replace (10 * j + 10) with (10 * S j) by lia.
    apply IH. rewrite sub_ticks_false in Et.
    destruct H as [(k & Hk & Hs)|(i & Hi & Hp)].
    + left. exists k. split; [|exact Hs].
      destruct (decide (k < 10 * j + 10)) as [Hlt|]; [|lia].
      rewrite Et in Hs by lia. discriminate.
    + right. exists i. split; [|exact Hp].
      destruct (decide (i = j)) as [->|]; [congruence | lia].
Qed.

Lemma ends_supervise :
  ends p -> exists fuel v, supervise fuel p 0 0 None = Ret v.
Proof.
  intros [(k & Hk)|(j & Hj)].
  - exists (S k). apply (supervise_returns (S k) 0). left. exists k. split; [lia|exact Hk].
  - exists (S j). apply (supervise_returns (S j) 0). right. exists j. split; [lia|exact Hj].
Qed.

(** What the loop returns is the exit code that the polls reported. *)
Lemma supervise_exit (fuel j : nat) (v : option Z) :
  (forall k, k < 10 * j -> is_set p k = false) ->
  (forall i, i < j -> poll p i = None) ->
  supervise fuel p (10 * j) j None = Ret v ->
  forall c, v = Some c <-> child_exited p c.
Proof.
  revert j. induction fuel as [|fuel IH]; intros j Hs Hp; cbn [supervise]; [discriminate|].
  destruct (sub_ticks p (10 * j) 10) eqn:Et.
  - intros [= <-] c. split; [discriminate|].
    intros [j' Hs' Hp' Hc]. exfalso.
    apply sub_ticks_true in Et as (k & Hk & Hk').
    destruct (decide (j' < j)) as [Hlt|Hge].
    + rewrite Hp in Hc by exact Hlt. discriminate.
    + rewrite Hs' in Hk' by lia. discriminate.
  - rewrite sub_ticks_false in Et.
    destruct (poll p j) as [c'|] eqn:Ep.
    + intros [= <-] c. split.
      * intros [= <-]. apply (seen_exited p c' j); [|exact Hp|exact Ep].
        intros k Hk. destruct (decide (k < 10 * j)); [apply Hs; lia | apply Et; lia].
      * intros [j' Hs' Hp' Hc].
        destruct (decide (j' = j)) as [->|Hne]; [congruence|].
        destruct (decide (j' < j)) as [Hlt|Hge].
        -- rewrite Hp in Hc by exact Hlt. discriminate.
        -- rewrite Hp' in Ep by lia. discriminate.
    + replace (10 * j + 10) with (10 * S j) by lia.
      apply IH.
      * intros k Hk. destruct (decide (k < 10 * j)); [apply Hs; lia | apply Et; lia].
      * intros i Hi. destruct (decide (i = j)) as [->|]; [exact Ep | apply Hp; lia].
Qed.

Lemma supervise_exit0 (fuel : nat) (v : option Z) :
  supervise fuel p 0 0 None = Ret v ->
  forall c, v = Some c <-> child_exited p c.
Proof.
  intros H. apply (supervise_exit fuel 0); [intros; lia | intros; lia | exact H].
Qed.

End Supervision.

Section Runner.

Variable X : Outside.

Lemma call_eq (fuel : nat) (executable : list string) (dir : string) (w : World) :
  _call X fuel executable dir w =
  (if spawn_ok (os X (length (launched w))) then
     match supervise fuel (os X (length (launched w))) 0 0 None with
     | Ret ec => Ret (bool_decide (ec = Some 0%Z))
     | Raise e => Raise e
     | OutOfFuel => OutOfFuel
     end
   else Ret false,
   add_launch (mkLaunch executable dir) w).
Proof.
  unfold _call, bind, Popen, wait_child, ret.
  destruct (spawn_ok _); [|reflexivity].
  destruct (supervise _ _ _ _ _); reflexivity.
Qed.

(** With enough fuel [_call] returns, and what it returns is known. *)
Lemma call_returns (executable : list string) (dir : string) (w : World) :
  let p := os X (length (launched w)) in
  (spawn_ok p = true -> ends p) ->
  exists fuel0, forall fuel, fuel0 <= fuel ->
    exists b,
      _call X fuel executable dir w =
        (Ret b, add_launch (mkLaunch executable dir) w) /\
      (b = true <-> download_ok p).
Proof.
  intros p Hends. destruct (spawn_ok p) eqn:Es.
  - destruct (ends_supervise p (Hends eq_refl)) as (fuel0 & v & Hv).
    exists fuel0. intros fuel Hle.
    exists (bool_decide (v = Some 0%Z)).
    rewrite call_eq. fold p. rewrite Es.
    rewrite (supervise_mono p fuel0 fuel 0 0 None v Hv Hle).
    split; [reflexivity|].
    rewrite bool_decide_eq_true, (supervise_exit0 p fuel0 v Hv 0%Z).
    unfold download_ok. tauto.
  - exists 0. intros fuel _. exists false.
    rewrite call_eq. fold p. rewrite Es. split; [reflexivity|].
    unfold download_ok. split; [discriminate | intros [H _]; congruence].
Qed.

End Runner.

(** C7, amended.  [_call] returns [True] exactly when the launch
    succeeded and the supervision loop, no reading of the stop signal
    having found it set up to there, got exit code 0 from
    [process.poll()].  When the launch fails, [_call] returns [False]
    before the loop is entered, whatever the fuel, so that no exit code
    is ever read. *)
Theorem call_success_iff_exit_code_zero
        (X : Outside) (executable : list string) (dir : string) (w : World) :
  let p := os X (length (launched w)) in
  (spawn_ok p = false ->
   forall fuel,
     _call X fuel executable dir w =
       (Ret false, add_launch (mkLaunch executable dir) w)) /\
  ((spawn_ok p = true -> ends p) ->
   exists fuel0, forall fuel, fuel0 <= fuel ->
     exists b,
       _call X fuel executable dir w =
         (Ret b, add_launch (mkLaunch executable dir) w) /\
       (b = true <-> spawn_ok p = true /\ child_exited p 0)).
Proof.
  intros p. split.
  - intros Es fuel. rewrite call_eq. fold p. rewrite Es. reflexivity.
  - intros Hends. exact (call_returns X executable dir w Hends).
Qed.

Section Workers.

Variable X : Outside.


End Workers.

(** C7 as stated fails: the child has exited with code 0, which every
    poll would report, but the stop signal is set; the supervision
    loop reads the signal first, leaves without a poll, and [_call]
    returns [False]. *)
Lemma call_fails_though_child_exited_with_0 :
  let X := mkOutside (fun _ => exited_0_after_stop) (fun j _ => j)
                     (fun _ => 0%Z) (fun _ => EmptyString) (fun _ _ => 0) in
  spawn_ok (os X 0) = true /\
  poll (os X 0) 0 = Some 0%Z /\
  fst (_call X 9 ["/usr/bin/env"; "rucio"] "/w/101" world101) = Ret false.
Proof. cbn. repeat split. Qed.



(** C5. The queue monitor's turn on a job taken from
    [finished_data_out]: the job goes to [finished_jobs] when its
    [exitCode] (0 when the key is absent) is 0 and its [transExitCode]
    is there and is 0, and to [failed_jobs] in every other case. *)
Theorem monitor_finished_data_out_routes
        (w : World) (r : nat) (rest : list nat) :
  finished_data_out (queues w) = r :: rest ->
  let job := jobs w r in
  let good := (default 0 (exitCode job) = 0 /\ transExitCode job = Some 0)%Z in
  exists w',
    monitor_finished_data_out w = (Ret tt, w') /\
    finished_data_out (queues w') = rest /\
    jobs w' = jobs w /\
    (good <->
       finished_jobs (queues w') = finished_jobs (queues w) ++ [r] /\
       failed_jobs (queues w') = failed_jobs (queues w)) /\
    (~ good <->
       failed_jobs (queues w') = failed_jobs (queues w) ++ [r] /\
       finished_jobs (queues w') = finished_jobs (queues w)).
Proof.
  intros Hq job good.
  set (b := match transExitCode job with
            | Some t => Z.eqb t 0
            | None => false
            end && Z.eqb (default 0%Z (exitCode job)) 0).
  assert (Hb : good <-> b = true).
  { subst good b. destruct (transExitCode job) as [t|]; cbn.
    - rewrite andb_true_iff, !Z.eqb_eq. split.
      + intros [H1 H2]. injection H2 as ->. auto.
      + intros [-> H]. auto.
    - split; [intros [_ H]; discriminate | discriminate]. }
  assert (Hrun : monitor_finished_data_out w =
            (if b then put q_finished_jobs r else put q_failed_jobs r)
              (mkWorld (jobs w)
                       (set_queue q_finished_data_out rest (queues w))
                       (launched w) (errors w))).
  { unfold monitor_finished_data_out, bind, get, deref. cbn [queue].
    rewrite Hq. cbn [jobs]. fold job. subst b.
    destruct (exitCode job); reflexivity. }
  assert (Hne : forall l : list nat, l <> l ++ [r]).
  { intros l H. apply (f_equal length) in H. rewrite length_app in H.
    cbn in H. lia. }
  rewrite Hrun. clear Hrun.
  destruct b; eexists; (split; [reflexivity|]); cbn;
    (split; [reflexivity|]); (split; [reflexivity|]); split; split.
  - intros _. split; reflexivity.
  - intros _. apply Hb. reflexivity.
  - intros Hn. exfalso. apply Hn, Hb. reflexivity.
  - intros [H _]. exfalso. exact (Hne _ H).
  - intros Hg. apply Hb in Hg. discriminate.
  - intros [H _]. exfalso. exact (Hne _ H).
  - intros _. split; reflexivity.
  - intros _ Hg. apply Hb in Hg. discriminate.
Qed.

Section StageOut.

Variable X : Outside.

Lemma stage_out_eq (fuel : nat) (d : Outfile) (job : Job) (w : World) :
  _stage_out X fuel d job w =
  (if spawn_ok (os X (length (launched w))) then
     match supervise fuel (os X (length (launched w))) 0 0 None with
     | Ret None => Ret None
     | Ret (Some _) => Ret (summary_file (os X (length (launched w))))
     | Raise e => Raise e
     | OutOfFuel => OutOfFuel
     end
   else Ret None,
   add_launch (upload_launch job d) w).
Proof.
  unfold _stage_out, bind, Popen, wait_child, ret, upload_launch.
  destruct (spawn_ok _); [|reflexivity].
  destruct (supervise _ _ _ _ _) as [[c|]| |]; try reflexivity.
  destruct (summary_file _); reflexivity.
Qed.




End StageOut.

(** C6. A transfer whose child exits with code 1 is not counted as
    failed.  Job 202, its one upload exiting with code 1 and a summary
    file being there: [_stage_out] tests [exit_code is None] only and
    returns the summary, so that [_stage_out_all] returns [True] and
    leaves the job in state ['finished'], untagged, with file-info for
    the output.  [_call], which supervises its child in the same way,
    tests [exit_code == 0] and reports this very child as failed. *)
Theorem stage_out_all_succeeds_after_exit_code_1 :
  let X := outside_exit 1 in
  let run := _stage_out_all X 9 "q" 0 world202 in
  poll (os X 0) 0 = Some 1%Z /\
  fst (_call X 9 ["/usr/bin/env"; "rucio"] "/w/202" world202) = Ret false /\
  fst (_stage_out X 9 (mkOutfile "s" "o1.root" "GO" 42) job202 world202)
    = Ret (Some summary202) /\
  fst run = Ret true /\
  launched (snd run) = [upload_launch job202 (mkOutfile "s" "o1.root" "GO" 42)] /\
  state (jobs (snd run) 0) = "finished"%string /\
  pilotErrorCodes (jobs (snd run) 0) = [] /\
  fileinfo_of (jobs (snd run) 0) "o1.root" =
    Some (mkFileInfo "GO" 42 "deadbeef" "srm://x").
Proof. repeat split; vm_compute; reflexivity. Qed.

(** C1. The state of a job does change after it has become ['finished']
    or ['failed'].  [set_pilot_state] guards ['failed'] only: on a
    finished job it writes the new state.  And a job whose stage-in
    failed, which is in state ['failed'] on [failed_data_in], leaves the
    log-only stage-out of the queue monitor in state ['finished']. *)
Theorem job_state_changes_after_final :
  let finished := set_state "finished" job101 in
  let stage_in := copytool_in (outside_exit 1) 1 world101 in
  let recovery := monitor_failed_data_in (outside_exit 1) 1 "q" (snd stage_in) in
  (state finished = "finished"%string /\
   Auxiliary.set_pilot_state (Auxiliary.mkEnviron None) (Some finished) "running"
   = Ret (Auxiliary.mkEnviron (Some "running"%string),
          Some (set_state "running" finished)) /\
   state (set_state "running" finished) = "running"%string) /\
  (fst stage_in = Ret tt /\
   failed_data_in (queues (snd stage_in)) = [0] /\
   state (jobs (snd stage_in) 0) = "failed"%string /\
   fst recovery = Ret tt /\
   failed_jobs (queues (snd recovery)) = [0] /\
   state (jobs (snd recovery) 0) = "finished"%string).
Proof. repeat split; vm_compute; reflexivity. Qed.

(** C2. The log tarball is put through the same test
    [outfile in job['outFiles']] as the outputs, under its key
    ['scope:name'].  For job 202 ([outFiles = 'o1.root'], log file
    ['log.tgz'] in scope ['s']) the stage-out of everything launches one
    upload, the one of [o1.root], finishes with success, and records no
    file-info for the log. *)
Theorem stage_out_all_skips_log :
  let run := _stage_out_all (outside_exit 0) 1 "q" 0 world202 in
  build_outputs (outside_exit 0) job202 "tarball_PandaJob_202_q" =
    [("o1.root"%string, mkOutfile "s" "o1.root" "GO" 42);
     ("s:log.tgz"%string, mkOutfile "s" "log.tgz" "G" 1024)] /\
  contains "s:log.tgz" (outFiles job202) = false /\
  fst run = Ret true /\
  launched (snd run) =
    [upload_launch job202 (mkOutfile "s" "o1.root" "GO" 42)] /\
  state (jobs (snd run) 0) = "finished"%string /\
  fileinfo_of (jobs (snd run) 0) "o1.root" =
    Some (mkFileInfo "GO" 42 "deadbeef" "srm://x") /\
  fileinfo_of (jobs (snd run) 0) "log.tgz" = None.
Proof. repeat split; vm_compute; reflexivity. Qed.

(** The download of job 101, the child exiting with code 0: success. *)
Lemma call_success_iff_exit_code_zero_witness :
  exists fuel0, forall fuel, fuel0 <= fuel ->
    _call (outside_exit 0) fuel ["/usr/bin/env"; "rucio"] "/w/101" world101 =
      (Ret true, add_launch (mkLaunch ["/usr/bin/env"; "rucio"] "/w/101") world101).
Proof.
  destruct (proj2 (call_success_iff_exit_code_zero
                     (outside_exit 0) ["/usr/bin/env"; "rucio"] "/w/101" world101))
    as (fuel0 & H); [intros _; right; exists 0; discriminate|].
  exists fuel0. intros fuel Hle. destruct (H fuel Hle) as (b & Hb & Hiff).
  rewrite Hb. replace b with true; [reflexivity|].
  symmetry. apply Hiff. split; [reflexivity|].
  apply (seen_exited _ _ 0); [reflexivity | intros i Hi; lia | reflexivity].
Defined.


(** Job 202, staged out with exit codes 0, on [finished_data_out]: it
    goes to [finished_jobs]. *)
Lemma monitor_finished_data_out_routes_witness :
  finished_data_out (queues world202_out) = [0] /\
  exists w',
    monitor_finished_data_out world202_out = (Ret tt, w') /\
    finished_data_out (queues w') = [] /\
    finished_jobs (queues w') = [0] /\
    failed_jobs (queues w') = [].
Proof.
  split; [reflexivity|].
  destruct (monitor_finished_data_out_routes world202_out 0 [] eq_refl)
    as (w' & Hw & Hq & _ & Hgood & _).
  exists w'. split; [exact Hw|]. split; [exact Hq|].
  apply Hgood. split; reflexivity.
Defined.

End DataFacts.

(** * Properties of the communication manager *)

Module CommFacts.
Import Comm.
Import CommSamples.

Section Manager.

Context {St : Type}.
Variable C : Plugin.Communicator St.

(** *** Shutdown *)

Lemma abort_all_queues (rs : list nat) (m : Manager St) :
  queues (abort_all rs m) = queues m.
Proof.
  revert m. induction rs as [|r rs IH]; intros m; [reflexivity|].
  cbn [abort_all]. rewrite IH. reflexivity.
Qed.

Lemma drain_queues (pt q : QName) (m : Manager St) :
  queues (drain pt m) q = if decide (q = pt) then [] else queues m q.
Proof. unfold drain. rewrite abort_all_queues. reflexivity. Qed.

Lemma abort_all_hook_calls (rs : list nat) (m : Manager St) :
  hook_calls (abort_all rs m) = hook_calls m.
Proof.
  revert m. induction rs as [|r rs IH]; intros m; [reflexivity|].
  cbn [abort_all]. rewrite IH. reflexivity.
Qed.

(** *** Bounded in-flight queues *)

Lemma can_process_next_queue_free (pt nq : QName) (m : Manager St) :
  can_process_request C pt m = true ->
  next_queue (processor C pt) = Some nq ->
  queue_limits nq = Some 1 /\ length (queues m nq) < 1.
Proof.
  unfold can_process_request. intros Hcan Hnq.
  destruct (queues m pt); [discriminate|]. rewrite Hnq in Hcan.
  destruct pt; cbn [processor next_queue] in Hnq; try discriminate;
    injection Hnq as <-; cbn [queue_limits] in Hcan |- *;
    (split; [reflexivity|]);
    match type of Hcan with
    | (if ?b then _ else _) = _ =>
        destruct b eqn:E; [apply Nat.ltb_lt in E; exact E | discriminate]
    end.
Qed.

Lemma handle_in_flight (pt : QName) (r : nat) (rest : list nat) (m : Manager St) :
  in_flight_bounded m ->
  (forall nq, next_queue (processor C pt) = Some nq -> length (queues m nq) < 1) ->
  length rest <= length (queues m pt) ->
  in_flight_bounded (handle C pt r (set_queue pt rest m)).
Proof.
  intros [Hj He] Hfree Hrest. unfold handle.
  destruct (handler _ _ _) as [[res|] s];
    [|unfold in_flight_bounded; cbn; destruct pt; split; queue_lengths].
  destruct (status_is_False (status res)).
  - unfold in_flight_bounded. cbn.
    destruct pt; split; queue_lengths.
  - assert (Hq : in_flight_bounded
              match next_queue (processor C pt) with
              | Some nq =>
                  set_queue nq (queues (set_plugin s (set_queue pt rest m)) nq ++ [r])
                    (set_plugin s (set_queue pt rest m))
              | None =>
                  set_request r (set_response res) (set_plugin s (set_queue pt rest m))
              end).
    { unfold in_flight_bounded.
      destruct pt; cbn [processor next_queue] in *;
        try (specialize (Hfree _ eq_refl)); split; queue_lengths. }
    destruct (process_req_post_hook _); [|exact Hq].
    destruct (post_hook _); exact Hq.
Qed.

Lemma run_entry_in_flight (pt : QName) (has_req : bool) (m : Manager St) :
  in_flight_bounded m ->
  in_flight_bounded (snd (run_entry C pt has_req m)).
Proof.
  intros Hinv. unfold run_entry, is_stop.
  destruct (stop_event m).
  - cbn [snd]. unfold drain, in_flight_bounded.
    rewrite abort_all_queues. destruct Hinv as [Hj He].
    destruct pt; split; queue_lengths.
  - destruct (can_process_request C pt m) eqn:Hcan; [|exact Hinv].
    destruct (pre_check _ _) as [[pre|] s]; [|exact Hinv].
    destruct (negb _); [exact Hinv|].
    cbn [queues set_plugin].
    destruct (queues m pt) as [|r rest] eqn:Hq; [exact Hinv|].
    cbn [snd].
    change (set_queue pt rest (set_plugin s m))
      with (set_plugin s (set_queue pt rest m)).
    apply (handle_in_flight pt r rest (set_plugin s m)); [exact Hinv| |].
    + intros nq Hnq. apply (can_process_next_queue_free pt nq m Hcan Hnq).
    + cbn. rewrite Hq. cbn. lia.
Qed.

(** An entry only adds to its next queue when that queue holds fewer
    requests than its limit of 1. *)
Lemma run_entry_moves_when_free
      (pt nq : QName) (has_req : bool) (m : Manager St) :
  next_queue (processor C pt) = Some nq ->
  length (queues m nq) < length (queues (snd (run_entry C pt has_req m)) nq) ->
  can_process_request C pt m = true /\ length (queues m nq) < 1.
Proof.
  intros Hnq Hgrow.
  destruct (can_process_request C pt m) eqn:Hcan.
  - split; [reflexivity|]. apply (can_process_next_queue_free pt nq m Hcan Hnq).
  - exfalso. revert Hgrow. unfold run_entry, is_stop. rewrite Hcan.
    destruct (stop_event m); cbn [snd]; [|lia].
    rewrite drain_queues. case_decide; cbn; lia.
Qed.

Lemma apply_event_in_flight (ev : Event) (m : Manager St) :
  in_flight_bounded m -> in_flight_bounded (apply_event C ev m).
Proof.
  intros Hinv. destruct ev; cbn [apply_event].
  - unfold run_step. destruct (control m) as [[|pt todo] has_req| |].
    + destruct (negb has_req && is_stop m); exact Hinv.
    + pose proof (run_entry_in_flight pt has_req m Hinv) as H.
      destruct (run_entry C pt has_req m) as [h m'].
      destruct (control m'); exact H.
    + exact Hinv.
    + exact Hinv.
  - unfold stop. destruct (negb _); exact Hinv.
  - unfold get_jobs. destruct (is_stop m); exact Hinv.
  - unfold update_jobs_op. destruct (is_stop m); exact Hinv.
  - unfold get_event_ranges. destruct (is_stop m); [exact Hinv|].
    destruct job; exact Hinv.
  - unfold update_events_op. destruct (is_stop m); exact Hinv.
Qed.

Lemma exec_in_flight (evs : list Event) (m : Manager St) :
  in_flight_bounded m -> in_flight_bounded (exec C evs m).
Proof.
  revert m. induction evs as [|ev evs IH]; intros m Hinv; [exact Hinv|].
  cbn. apply IH, apply_event_in_flight, Hinv.
Qed.

End Manager.

Section Shutdown.

Context {St : Type}.
Variable C : Plugin.Communicator St.

Lemma abort_all_keeps (rs : list nat) (m : Manager St) (r : nat) :
  aborted (requests m r) -> aborted (requests (abort_all rs m) r).
Proof.
  revert m. induction rs as [|r' rs IH]; intros m Hr; [exact Hr|].
  cbn [abort_all]. apply IH. cbn.
  destruct (decide (r = r')) as [_|_]; [split; reflexivity | exact Hr].
Qed.

Lemma abort_all_aborts (rs : list nat) (m : Manager St) (r : nat) :
  In r rs -> aborted (requests (abort_all rs m) r).
Proof.
  revert m. induction rs as [|r' rs IH]; intros m Hin; [destruct Hin|].
  cbn [abort_all]. destruct (decide (r = r')) as [->|Hne].
  - apply abort_all_keeps. cbn.
    destruct (decide (r' = r')) as [_|]; [split; reflexivity | congruence].
  - apply IH. destruct Hin as [->|Hin]; [congruence | exact Hin].
Qed.

Lemma abort_all_stop_event (rs : list nat) (m : Manager St) :
  stop_event (abort_all rs m) = stop_event m.
Proof.
  revert m. induction rs as [|r rs IH]; intros m; [reflexivity|].
  cbn [abort_all]. rewrite IH. reflexivity.
Qed.

Lemma abort_all_control (rs : list nat) (m : Manager St) :
  control (abort_all rs m) = control m.
Proof.
  revert m. induction rs as [|r rs IH]; intros m; [reflexivity|].
  cbn [abort_all]. rewrite IH. reflexivity.
Qed.

(** With the stop signal set, the remaining entries of a pass are all
    drained: their queues end up empty, the requests that were in them
    are aborted and carry the failure response. *)
Lemma stopped_pass_drains (todo : list QName) :
  forall (m : Manager St) (has_req : bool),
    stop_event m = true ->
    control m = InPass todo has_req ->
    let m' := exec C (repeat EvRun (length todo)) m in
    control m' = InPass [] has_req /\
    stop_event m' = true /\
    (forall q, In q todo -> queues m' q = []) /\
    (forall q, ~ In q todo -> queues m' q = queues m q) /\
    (forall q r, In q todo -> In r (queues m q) -> aborted (requests m' r)) /\
    (forall r, aborted (requests m r) -> aborted (requests m' r)).
Proof.
  induction todo as [|pt todo IH]; intros m has_req Hstop Hctl.
  - cbn. split; [exact Hctl|]. split; [exact Hstop|].
    split; [intros q []|]. split; [reflexivity|].
    split; [intros q r0 []|]. intros r0 Hr. exact Hr.
  - cbn [length repeat exec fold_left apply_event].
    set (m1 := run_step C m).
    assert (Hm1 : m1 = set_control (InPass todo has_req) (drain pt m)).
    { subst m1. unfold run_step, run_entry, is_stop.
      rewrite Hctl, Hstop. unfold drain. rewrite abort_all_control.
      cbn [control set_queue]. rewrite Hctl. reflexivity. }
    assert (Hstop1 : stop_event m1 = true).
    { rewrite Hm1. cbn. unfold drain. rewrite abort_all_stop_event. exact Hstop. }
    assert (Hctl1 : control m1 = InPass todo has_req) by (rewrite Hm1; reflexivity).
    assert (Hq1 : forall q, queues m1 q = if decide (q = pt) then [] else queues m q).
    { intros q. rewrite Hm1. cbn. apply drain_queues. }
    destruct (IH m1 has_req Hstop1 Hctl1) as (Hc & Hs & Hempty & Hsame & Hab & Hkeep).
    fold (exec C (repeat EvRun (length todo)) m1).
    split; [exact Hc|]. split; [exact Hs|].
    split; [|split; [|split]].
    + intros q Hin. destruct (in_dec QName_eq_dec q todo) as [Ht|Ht]; [apply Hempty, Ht|].
      rewrite (Hsame q Ht), Hq1. destruct Hin as [->|Hin]; [|tauto].
      destruct (decide (q = q)); [reflexivity | congruence].
    + intros q Hn. rewrite (Hsame q); [|intros H; apply Hn; right; exact H].
      rewrite Hq1. destruct (decide (q = pt)) as [->|]; [|reflexivity].
      exfalso. apply Hn. left. reflexivity.
    + intros q r Hin Hr. destruct (decide (q = pt)) as [->|Hne].
      * apply Hkeep. rewrite Hm1. cbn. unfold drain.
        apply abort_all_aborts. exact Hr.
      * destruct Hin as [->|Hin]; [congruence|].
        apply (Hab q r Hin). rewrite Hq1.
        destruct (decide (q = pt)); [congruence | exact Hr].
    + intros r Hr. apply Hkeep. rewrite Hm1. cbn. unfold drain.
      apply abort_all_keeps. exact Hr.
Qed.

(** When the stop signal is set as a pass begins, that pass aborts
    every request queued under a key of the processor table, and the
    loop leaves at its end. *)
Lemma stop_before_pass_aborts_all (m : Manager St) :
  stop_event m = true ->
  control m = InPass processor_keys false ->
  let m' := exec C (repeat EvRun 7) m in
  control m' = Finished /\
  (forall q, In q processor_keys -> queues m' q = []) /\
  (forall q r, In q processor_keys -> In r (queues m q) ->
               aborted (requests m' r) /\ collect r m' <> None).
Proof.
  intros Hstop Hctl.
  destruct (stopped_pass_drains processor_keys m false Hstop Hctl)
    as (Hc & Hs & Hempty & _ & Hab & _).
  change (repeat EvRun 7) with (repeat EvRun (length processor_keys) ++ [EvRun]).
  unfold exec. rewrite fold_left_app.
  fold (exec C (repeat EvRun (length processor_keys)) m).
  remember (exec C (repeat EvRun (length processor_keys)) m) as m6 eqn:E6.
  clear E6. cbn [fold_left apply_event]. unfold run_step, is_stop.
  rewrite Hc, Hs. cbn [negb andb control set_control queues requests].
  split; [reflexivity|]. split; [exact Hempty|].
  intros q r Hq Hr. destruct (Hab q r Hq Hr) as [Ha Hres].
  split; [split; assumption|].
  unfold collect. cbn [requests set_control]. rewrite Hres. discriminate.
Qed.

(** Past its [break] the loop does nothing any more. *)
Lemma run_finished (n : nat) (m : Manager St) :
  control m = Finished -> exec C (repeat EvRun n) m = m.
Proof.
  intros Hc. induction n as [|n IH]; [reflexivity|].
  cbn [repeat exec fold_left apply_event]. unfold run_step. rewrite Hc.
  exact IH.
Qed.

End Shutdown.

(** C9. Whatever the clients and the [run] thread do, in whatever
    order, neither [processing_get_jobs] nor [processing_get_events]
    ever holds more than one request; and when the visit of an entry
    makes its next queue grow, that queue, whose limit is 1, held fewer
    requests than its limit before the visit. *)
Theorem in_flight_queues_hold_at_most_one
        {St : Type} (C : Plugin.Communicator St) (s : St) (evs : list Event) :
  (length (queues (exec C evs (init s)) processing_get_jobs) <= 1 /\
   length (queues (exec C evs (init s)) processing_get_events) <= 1) /\
  (forall pt nq has_req,
      next_queue (processor C pt) = Some nq ->
      length (queues (exec C evs (init s)) nq)
      < length (queues (snd (run_entry C pt has_req (exec C evs (init s)))) nq) ->
      queue_limits nq = Some 1 /\
      length (queues (exec C evs (init s)) nq) < 1).
Proof.
  split.
  - apply (exec_in_flight C evs (init s)). split; cbn; lia.
  - intros pt nq has_req Hnq Hgrow.
    destruct (run_entry_moves_when_free C pt nq has_req _ Hnq Hgrow) as [Hcan _].
    apply (can_process_next_queue_free C pt nq _ Hcan Hnq).
Qed.

(** C10. With the stop signal set, each of the four public operations
    returns [None] and leaves the manager as it is: no request object
    is created, no queue grows, no [post_hook] is called, nothing is
    raised. *)
Theorem stopped_manager_refuses_operations {St : Type} (m : Manager St) :
  stop_event m = true ->
  (forall njobs hook args, get_jobs njobs hook args m = (Returned None, m)) /\
  (forall jobs hook, update_jobs_op jobs hook m = (Returned None, m)) /\
  (forall n hook job, get_event_ranges n hook job m = (Returned None, m)) /\
  (forall upd hook, update_events_op upd hook m = (Returned None, m)).
Proof.
  intros Hstop.
  unfold get_jobs, update_jobs_op, get_event_ranges, update_events_op, is_stop.
  rewrite Hstop. repeat split.
Qed.

Lemma stopped_manager_refuses_operations_witness :
  stop_event (stop (init tt)) = true /\
  get_jobs 1 None [] (stop (init tt)) = (Returned None, stop (init tt)) /\
  get_event_ranges 1 (Some 7) None (stop (init tt)) = (Returned None, stop (init tt)).
Proof.
  split; [reflexivity|].
  pose proof (stopped_manager_refuses_operations (stop (init tt)) eq_refl)
    as (Hg & _ & He & _).
  split; [apply Hg | apply He].
Defined.

(** C4 as stated fails: the request of [one_update] carries a
    [post_hook] and is handled by the entry [update_jobs], whose
    [process_req_post_hook] is set; the handler answers with status
    [False]; the response is attached and the hook is not called. *)
Lemma post_hook_skipped_on_status_False :
  let C := answering (StatusBool false) in
  let m := exec C [EvRun; EvRun; EvRun] one_update in
  post_hook (requests one_update 0) = Some 7 /\
  queues one_update update_jobs = [0] /\
  process_req_post_hook (processor C update_jobs) = true /\
  queues m update_jobs = [] /\
  response (requests m 0) = Some (mkResponse (StatusBool false) (Some "ok"%string) None) /\
  hook_calls m = [].
Proof. cbn. repeat split. Qed.

(** C4, amended.  When an entry takes a request off its queue and
    its handler returns a response, the request's [post_hook] is
    called, with that response, exactly when the entry's
    [process_req_post_hook] is set, the request has a [post_hook] and
    the status of the response is not [False].  When the status is
    [False] the response is attached to the request, the request is put
    in no queue, and no hook is called; otherwise the request goes to
    the entry's next queue with its [response] as it was, or, the entry
    having none, the response is attached. *)
Theorem post_hook_called_unless_status_False
        {St : Type} (C : Plugin.Communicator St) (m : Manager St)
        (pt : QName) (r : nat) (rest : list nat) (has_req : bool)
        (pre res : CommunicationResponse) (s s' : St) :
  In pt processor_keys ->
  stop_event m = false ->
  can_process_request C pt m = true ->
  pre_check (processor C pt) (plugin m) = (Some pre, s) ->
  status_eq_0 (status pre) = true ->
  queues m pt = r :: rest ->
  handler (processor C pt) (requests m r) s = (Some res, s') ->
  let m' := snd (run_entry C pt has_req m) in
  queues m' pt = rest /\
  hook_calls m' =
    hook_calls m ++
    match post_hook (requests m r) with
    | Some h =>
        if process_req_post_hook (processor C pt)
           && negb (status_is_False (status res))
        then [(h, res)] else []
    | None => []
    end /\
  (status_is_False (status res) = true ->
   response (requests m' r) = Some res /\
   forall q, queues m' q = if decide (q = pt) then rest else queues m q) /\
  (status_is_False (status res) = false ->
   match next_queue (processor C pt) with
   | Some nq =>
       queues m' nq = queues m nq ++ [r] /\
       response (requests m' r) = response (requests m r)
   | None => response (requests m' r) = Some res
   end).
Proof.
  intros _ Hstop Hcan Epre Hpre Hq Eh m'.
  subst m'. unfold run_entry, is_stop. rewrite Hstop, Hcan, Epre.
  rewrite Hpre. cbn [negb queues set_plugin].
  rewrite Hq. cbn [snd]. unfold handle. cbn [requests plugin set_queue set_plugin].
  rewrite Eh.
  assert (Hnq : forall nq, next_queue (processor C pt) = Some nq -> nq <> pt).
  { intros nq Hnq ->. destruct pt; discriminate. }
  destruct (post_hook (requests m r)) as [h|] eqn:Ehook;
    destruct (process_req_post_hook (processor C pt));
    destruct (status_is_False (status res));
    destruct (next_queue (processor C pt)) as [nq|] eqn:Enq;
    try specialize (Hnq nq eq_refl);
    repeat first [ progress cbn
                 | case_decide; [|congruence]
                 | case_decide; [congruence|]
                 | rewrite Ehook
                 | rewrite app_nil_r ];
    (split; [reflexivity|]); (split; [reflexivity|]);
    (split; [intros Hf; try discriminate Hf|intros Hf; try discriminate Hf]);
    repeat first [ progress cbn
                 | case_decide; [|congruence]
                 | case_decide; [congruence|] ];
    try (split; [reflexivity|]); try reflexivity;
    try (intros q; reflexivity).
Qed.

Lemma post_hook_called_unless_status_False_witness :
  hook_calls (snd (run_entry (answering (StatusInt 0)) update_jobs false one_update))
  = [(7, mkResponse (StatusInt 0) (Some "ok"%string) None)] /\
  response
    (requests (snd (run_entry (answering (StatusBool false)) update_jobs false one_update)) 0)
  = Some (mkResponse (StatusBool false) (Some "ok"%string) None).
Proof.
  split.
  - exact (proj1 (proj2 (post_hook_called_unless_status_False
                  (answering (StatusInt 0)) one_update update_jobs 0 [] false
                  (mkResponse (StatusInt 0) None None)
                  (mkResponse (StatusInt 0) (Some "ok"%string) None) tt tt
                  (or_intror (or_intror (or_introl eq_refl)))
                  eq_refl eq_refl eq_refl eq_refl eq_refl eq_refl))).
  - exact (proj1 (proj1 (proj2 (proj2 (post_hook_called_unless_status_False
                  (answering (StatusBool false)) one_update update_jobs 0 [] false
                  (mkResponse (StatusInt 0) None None)
                  (mkResponse (StatusBool false) (Some "ok"%string) None) tt tt
                  (or_intror (or_intror (or_introl eq_refl)))
                  eq_refl eq_refl eq_refl eq_refl eq_refl eq_refl))) eq_refl)).
Defined.

(** C3. The request stays behind: a client queues a request for jobs
    after the first entry of a pass was visited; [stop] is called; the
    rest of the pass drains the five other queues, the pass has handled
    nothing, the loop leaves.  The request is still in
    [request_get_jobs], not aborted and without response, and its
    caller goes on waiting however long the thread is given. *)
Theorem stop_in_mid_pass_strands_request
        {St : Type} (C : Plugin.Communicator St) (s : St) :
  let m := exec C stop_in_mid_pass (init s) in
  fst (get_jobs 1 None [] (exec C [EvRun] (init s))) = Waiting 0 /\
  stop_event m = true /\
  control m = Finished /\
  queues m request_get_jobs = [0] /\
  abort (requests m 0) = false /\
  response (requests m 0) = None /\
  (forall n, collect 0 (exec C (repeat EvRun n) m) = None).
Proof.
  cbn zeta. repeat split.
  intros n. rewrite run_finished; reflexivity.
Qed.

End CommFacts.

(** * Further properties of the code *)

(** ** The communication manager: queues, requests, shutdown *)

Module CommQueues.
Import Comm.
Import CommMore.

Section Queues.

Context {St : Type}.
Variable C : Plugin.Communicator St.

Lemma abort_all_requests_other (rs : list nat) (m : Manager St) (r : nat) :
  ~ In r rs -> requests (abort_all rs m) r = requests m r.
Proof.
  revert m. induction rs as [|r' rs IH]; intros m Hn; [reflexivity|].
  cbn [abort_all]. rewrite IH by (intros H; apply Hn; right; exact H).
  cbn. destruct (decide (r = r')) as [->|_]; [|reflexivity].
  exfalso. apply Hn. left. reflexivity.
Qed.

Lemma abort_all_allocated (rs : list nat) (m : Manager St) :
  allocated (abort_all rs m) = allocated m.
Proof.
  revert m. induction rs as [|r rs IH]; intros m; [reflexivity|].
  cbn [abort_all]. rewrite IH. reflexivity.
Qed.

Lemma abort_all_plugin (rs : list nat) (m : Manager St) :
  plugin (abort_all rs m) = plugin m.
Proof.
  revert m. induction rs as [|r rs IH]; intros m; [reflexivity|].
  cbn [abort_all]. rewrite IH. reflexivity.
Qed.

(** Taking the oldest request off a queue. *)
Lemma well_queued_pop (pt : QName) (r : nat) (rest : list nat) (m : Manager St) :
  well_queued m ->
  queues m pt = r :: rest ->
  well_queued (set_queue pt rest m) /\ detached (set_queue pt rest m) r.
Proof.
  intros [Hnd Hone Hcr Hpe] Hq.
  pose proof (Hnd pt) as Hndpt. rewrite Hq in Hndpt.
  apply NoDup_cons in Hndpt as [Hnotin Hndrest].
  rewrite list_elem_of_In in Hnotin.
  assert (Hsub : forall q x, In x (queues (set_queue pt rest m) q) -> In x (queues m q)).
  { intros q x. cbn. destruct (decide (q = pt)) as [->|_]; [|auto].
    rewrite Hq. intros H. right. exact H. }
  split.
  - split.
    + intros q. cbn. destruct (decide (q = pt)); [exact Hndrest | apply Hnd].
    + intros q1 q2 x H1 H2. apply (Hone q1 q2 x); apply Hsub; assumption.
    + intros q x H. apply (Hcr q x), Hsub, H.
    + intros q x H. apply (Hpe q x), Hsub, H.
  - intros q. cbn. destruct (decide (q = pt)) as [->|Hne]; [exact Hnotin|].
    intros H. apply Hne. apply (Hone q pt r H). rewrite Hq. left. reflexivity.
Qed.

(** Putting a request that is in no queue at the end of one. *)
Lemma well_queued_push (nq : QName) (r : nat) (m : Manager St) :
  well_queued m ->
  detached m r ->
  r < allocated m ->
  untouched (requests m r) ->
  well_queued (set_queue nq (queues m nq ++ [r]) m).
Proof.
  intros [Hnd Hone Hcr Hpe] Hdet Hlt Hun.
  assert (Hin : forall q x, In x (queues (set_queue nq (queues m nq ++ [r]) m) q) ->
                            In x (queues m q) \/ (q = nq /\ x = r)).
  { intros q x. cbn. destruct (decide (q = nq)) as [->|_]; [|auto].
    rewrite in_app_iff. cbn. intros [H|[H|[]]]; auto. }
  split.
  - intros q. cbn. destruct (decide (q = nq)) as [->|_]; [|apply Hnd].
    apply NoDup_app. split; [apply Hnd|]. split; [|apply NoDup_singleton].
    intros x Hx Hx'. apply list_elem_of_In in Hx, Hx'.
    destruct Hx' as [<-|[]]. exact (Hdet nq Hx).
  - intros q1 q2 x H1 H2.
    destruct (Hin _ _ H1) as [H1'|[-> ->]], (Hin _ _ H2) as [H2'|[-> E]];
      try subst x.
    + exact (Hone _ _ _ H1' H2').
    + destruct (Hdet _ H1').
    + destruct (Hdet _ H2').
    + reflexivity.
  - intros q x H. destruct (Hin _ _ H) as [H'|[_ ->]]; [exact (Hcr _ _ H') | exact Hlt].
  - intros q x H. destruct (Hin _ _ H) as [H'|[_ ->]]; [exact (Hpe _ _ H') | exact Hun].
Qed.

(** Writing to a request that is in no queue. *)
Lemma well_queued_set_request
      (r : nat) (f : CommunicationRequest -> CommunicationRequest) (m : Manager St) :
  well_queued m -> detached m r -> well_queued (set_request r f m).
Proof.
  intros [Hnd Hone Hcr Hpe] Hdet. split; try assumption.
  intros q x H. cbn. destruct (decide (x = r)) as [->|_]; [|exact (Hpe q x H)].
  destruct (Hdet q H).
Qed.

Lemma well_queued_set_plugin (s : St) (m : Manager St) :
  well_queued m -> well_queued (set_plugin s m).
Proof. intros [Hnd Hone Hcr Hpe]. split; assumption. Qed.

Lemma well_queued_set_control (c : Control) (m : Manager St) :
  well_queued m -> well_queued (set_control c m).
Proof. intros [Hnd Hone Hcr Hpe]. split; assumption. Qed.

Lemma well_queued_call_hook (h : nat) (res : CommunicationResponse) (m : Manager St) :
  well_queued m -> well_queued (call_hook h res m).
Proof. intros [Hnd Hone Hcr Hpe]. split; assumption. Qed.

Lemma detached_set_plugin (s : St) (m : Manager St) (r : nat) :
  detached m r -> detached (set_plugin s m) r.
Proof. intros H. exact H. Qed.

(** Emptying a queue and aborting what was in it. *)
Lemma abort_all_well_queued (rs : list nat) (m : Manager St) :
  well_queued m -> (forall r, In r rs -> detached m r) ->
  well_queued (abort_all rs m).
Proof.
  revert m. induction rs as [|r rs IH]; intros m Hwq Hdet; [exact Hwq|].
  cbn [abort_all]. apply IH.
  - apply well_queued_set_request.
    + apply well_queued_set_request; [exact Hwq | apply Hdet; left; reflexivity].
    + apply Hdet. left. reflexivity.
  - intros x Hx. apply Hdet. right. exact Hx.
Qed.

Lemma well_queued_drain (pt : QName) (m : Manager St) :
  well_queued m -> well_queued (drain pt m).
Proof.
  intros Hwq. unfold drain. apply abort_all_well_queued.
  - destruct Hwq as [Hnd Hone Hcr Hpe].
    assert (Hsub : forall q x, In x (queues (set_queue pt [] m) q) -> In x (queues m q)).
    { intros q x. cbn. destruct (decide (q = pt)); [intros [] | auto]. }
    split.
    + intros q. cbn. destruct (decide (q = pt)); [apply NoDup_nil_2 | apply Hnd].
    + intros q1 q2 x H1 H2. apply (Hone q1 q2 x); apply Hsub; assumption.
    + intros q x H. apply (Hcr q x), Hsub, H.
    + intros q x H. apply (Hpe q x), Hsub, H.
  - intros r Hr q. cbn. destruct (decide (q = pt)) as [->|Hne]; [intros []|].
    intros H. apply Hne. exact (wq_one_queue m Hwq q pt r H Hr).
Qed.

Lemma next_queue_differs (pt nq : QName) :
  next_queue (processor C pt) = Some nq -> nq <> pt.
Proof. intros H ->. destruct pt; discriminate. Qed.

Lemma well_queued_handle (pt : QName) (r : nat) (rest : list nat) (m : Manager St) :
  well_queued m ->
  queues m pt = r :: rest ->
  well_queued (handle C pt r (set_queue pt rest m)).
Proof.
  intros Hwq Hq.
  assert (Hin : In r (queues m pt)) by (rewrite Hq; left; reflexivity).
  pose proof (wq_created m Hwq pt r Hin) as Hlt.
  pose proof (wq_pending m Hwq pt r Hin) as Hun.
  destruct (well_queued_pop pt r rest m Hwq Hq) as [Hwq1 Hdet1].
  unfold handle.
  destruct (handler _ _ _) as [[res|] s];
    [|apply well_queued_set_control, well_queued_set_plugin; exact Hwq1].
  assert (Hwq2 : well_queued (set_plugin s (set_queue pt rest m)))
    by (apply well_queued_set_plugin; exact Hwq1).
  destruct (status_is_False (status res)).
  - apply well_queued_set_request; [exact Hwq2 | exact Hdet1].
  - assert (Hwq3 : well_queued
               match next_queue (processor C pt) with
               | Some nq =>
                   set_queue nq (queues (set_plugin s (set_queue pt rest m)) nq ++ [r])
                     (set_plugin s (set_queue pt rest m))
               | None =>
                   set_request r (set_response res) (set_plugin s (set_queue pt rest m))
               end).
    { destruct (next_queue (processor C pt)) as [nq|].
      - apply well_queued_push; [exact Hwq2 | exact Hdet1 | exact Hlt | exact Hun].
      - apply well_queued_set_request; [exact Hwq2 | exact Hdet1]. }
    destruct (process_req_post_hook _); [|exact Hwq3].
    destruct (post_hook _); [apply well_queued_call_hook|]; exact Hwq3.
Qed.

Lemma well_queued_run_entry (pt : QName) (has_req : bool) (m : Manager St) :
  well_queued m -> well_queued (snd (run_entry C pt has_req m)).
Proof.
  intros Hwq. unfold run_entry, is_stop.
  destruct (stop_event m); [apply well_queued_drain, Hwq|].
  destruct (can_process_request C pt m); [|exact Hwq].
  destruct (pre_check _ _) as [[pre|] s];
    [|apply well_queued_set_control, well_queued_set_plugin, Hwq].
  destruct (negb _); [apply well_queued_set_plugin, Hwq|].
  cbn [queues set_plugin].
  destruct (queues m pt) as [|r rest] eqn:Hq; [apply well_queued_set_plugin, Hwq|].
  cbn [snd].
  change (set_queue pt rest (set_plugin s m)) with (set_plugin s (set_queue pt rest m)).
  apply (well_queued_handle pt r rest (set_plugin s m));
    [apply well_queued_set_plugin, Hwq | exact Hq].
Qed.

Lemma well_queued_submit (q : QName) (p : Payload) (hook : option nat) (m : Manager St) :
  well_queued m -> well_queued (snd (submit q p hook m)).
Proof.
  intros [Hnd Hone Hcr Hpe].
  assert (Hin : forall q' x, In x (queues (snd (submit q p hook m)) q') ->
                             In x (queues m q') \/ (q' = q /\ x = allocated m)).
  { intros q' x. cbn. destruct (decide (q' = q)) as [->|_]; [|auto].
    rewrite in_app_iff. cbn. intros [H|[H|[]]]; auto. }
  split.
  - intros q'. cbn. destruct (decide (q' = q)) as [->|_]; [|apply Hnd].
    apply NoDup_app. split; [apply Hnd|]. split; [|apply NoDup_singleton].
    intros x Hx Hx'. apply list_elem_of_In in Hx, Hx'.
    destruct Hx' as [<-|[]]. pose proof (Hcr _ _ Hx). lia.
  - intros q1 q2 x H1 H2.
    destruct (Hin _ _ H1) as [H1'|[-> ->]], (Hin _ _ H2) as [H2'|[-> E]];
      try subst x.
    + exact (Hone _ _ _ H1' H2').
    + pose proof (Hcr _ _ H1'). lia.
    + pose proof (Hcr _ _ H2'). lia.
    + reflexivity.
  - intros q' x H. cbn [allocated submit snd].
    destruct (Hin _ _ H) as [H'|[_ ->]]; [pose proof (Hcr _ _ H')|]; lia.
  - intros q' x H. cbn [requests submit snd].
    destruct (decide (x = allocated m)) as [_|Hne]; [split; reflexivity|].
    destruct (Hin _ _ H) as [H'|[_ E]]; [exact (Hpe _ _ H') | congruence].
Qed.

Lemma well_queued_apply_event (ev : Event) (m : Manager St) :
  well_queued m -> well_queued (apply_event C ev m).
Proof.
  intros Hwq. destruct ev; cbn [apply_event].
  - unfold run_step. destruct (control m) as [[|pt todo] has_req| |].
    + destruct (negb has_req && is_stop m); apply well_queued_set_control, Hwq.
    + pose proof (well_queued_run_entry pt has_req m Hwq) as H.
      destruct (run_entry C pt has_req m) as [h m'].
      destruct (control m'); [apply well_queued_set_control, H ..| exact H].
    + exact Hwq.
    + exact Hwq.
  - unfold stop. destruct (negb _); [|exact Hwq].
    destruct Hwq as [Hnd Hone Hcr Hpe]. split; assumption.
  - unfold get_jobs. destruct (is_stop m); [exact Hwq|].
    apply (well_queued_submit request_get_jobs), Hwq.
  - unfold update_jobs_op. destruct (is_stop m); [exact Hwq|].
    apply (well_queued_submit update_jobs), Hwq.
  - unfold get_event_ranges. destruct (is_stop m); [exact Hwq|].
    destruct job; [|exact Hwq].
    apply (well_queued_submit request_get_events), Hwq.
  - unfold update_events_op. destruct (is_stop m); [exact Hwq|].
    apply (well_queued_submit update_events), Hwq.
Qed.

Lemma well_queued_exec (evs : list Event) (m : Manager St) :
  well_queued m -> well_queued (exec C evs m).
Proof.
  revert m. induction evs as [|ev evs IH]; intros m Hwq; [exact Hwq|].
  cbn. apply IH, well_queued_apply_event, Hwq.
Qed.

Lemma well_queued_init (s : St) : well_queued (init s).
Proof.
  split; cbn.
  - intros _. apply NoDup_nil_2.
  - intros _ _ r [].
  - intros _ r [].
  - intros _ r [].
Qed.

End Queues.

End CommQueues.

Module CommRequests.
Import Comm.
Import CommMore.
Import CommQueues.

Section Frozen.

Context {St : Type}.
Variable C : Plugin.Communicator St.

Lemma handle_requests_other (pt : QName) (r' r : nat) (m : Manager St) :
  r <> r' -> requests (handle C pt r' m) r = requests m r.
Proof.
  intros Hne. unfold handle. destruct (handler _ _ _) as [[res|] s]; [|reflexivity].
  destruct (status_is_False (status res)).
  - cbn. destruct (decide (r = r')); [congruence | reflexivity].
  - destruct (next_queue (processor C pt)), (process_req_post_hook (processor C pt));
      cbn; try (destruct (decide (r' = r')); [|congruence]);
      try destruct (post_hook _); cbn;
      try (destruct (decide (r = r')); [congruence|]); reflexivity.
Qed.

Lemma handle_allocated (pt : QName) (r' : nat) (m : Manager St) :
  allocated (handle C pt r' m) = allocated m.
Proof.
  unfold handle. destruct (handler _ _ _) as [[res|] s]; [|reflexivity].
  destruct (status_is_False (status res)); [reflexivity|].
  destruct (next_queue (processor C pt)), (process_req_post_hook (processor C pt));
    cbn; try destruct (post_hook _); reflexivity.
Qed.

(** Handling a request puts no other request in a queue. *)
Lemma handle_queues_only (pt : QName) (r' x : nat) (q : QName) (m : Manager St) :
  In x (queues (handle C pt r' m) q) -> In x (queues m q) \/ x = r'.
Proof.
  unfold handle. destruct (handler _ _ _) as [[res|] s]; [|cbn; auto].
  destruct (status_is_False (status res)); [cbn; auto|].
  intros Hin.
  assert (Hq : forall m0 : Manager St,
             In x (queues
                     match next_queue (processor C pt) with
                     | Some nq => set_queue nq (queues (set_plugin s m) nq ++ [r'])
                                            (set_plugin s m)
                     | None => set_request r' (set_response res) (set_plugin s m)
                     end q) ->
             In x (queues m q) \/ x = r').
  { intros _. destruct (next_queue (processor C pt)) as [nq|]; cbn; [|auto].
    destruct (decide (q = nq)) as [->|_]; [|auto].
    rewrite in_app_iff. cbn. intros [H|[H|[]]]; auto. }
  apply (Hq m). revert Hin.
  destruct (process_req_post_hook (processor C pt)); [|auto].
  destruct (post_hook _); auto.
Qed.

Lemma run_entry_allocated (pt : QName) (has_req : bool) (m : Manager St) :
  allocated (snd (run_entry C pt has_req m)) = allocated m.
Proof.
  unfold run_entry, is_stop. destruct (stop_event m).
  - cbn [snd]. unfold drain. rewrite abort_all_allocated. reflexivity.
  - destruct (can_process_request C pt m); [|reflexivity].
    destruct (pre_check _ _) as [[pre|] s]; [|reflexivity].
    destruct (negb _); [reflexivity|].
    cbn [queues set_plugin]. destruct (queues m pt); [reflexivity|].
    cbn [snd]. rewrite handle_allocated. reflexivity.
Qed.

(** A request that is in no queue is not written to by a visit of an
    entry, and the visit puts it in no queue. *)
Lemma run_entry_keeps_detached (pt : QName) (has_req : bool) (m : Manager St) (r : nat) :
  detached m r ->
  requests (snd (run_entry C pt has_req m)) r = requests m r /\
  detached (snd (run_entry C pt has_req m)) r.
Proof.
  intros Hout. unfold run_entry, is_stop. destruct (stop_event m).
  - cbn [snd]. split.
    + unfold drain. rewrite abort_all_requests_other by apply Hout. reflexivity.
    + intros q. rewrite CommFacts.drain_queues.
      destruct (decide (q = pt)); [intros [] | apply Hout].
  - destruct (can_process_request C pt m); [|split; [reflexivity | exact Hout]].
    destruct (pre_check _ _) as [[pre|] s]; [|split; [reflexivity | exact Hout]].
    destruct (negb _); [split; [reflexivity | exact Hout]|].
    cbn [queues set_plugin].
    destruct (queues m pt) as [|r' rest] eqn:Hq; [split; [reflexivity | exact Hout]|].
    cbn [snd].
    assert (Hne : r <> r').
    { intros ->. apply (Hout pt). rewrite Hq. left. reflexivity. }
    split.
    + rewrite handle_requests_other; [reflexivity | exact Hne].
    + intros q Hin. apply handle_queues_only in Hin as [Hin| ->]; [|congruence].
      cbn in Hin. destruct (decide (q = pt)) as [->|_]; [|exact (Hout q Hin)].
      apply (Hout pt). rewrite Hq. right. exact Hin.
Qed.

Lemma apply_event_allocated (ev : Event) (m : Manager St) :
  allocated m <= allocated (apply_event C ev m).
Proof.
  destruct ev; cbn [apply_event].
  - unfold run_step. destruct (control m) as [[|pt todo] has_req| |].
    + destruct (negb has_req && is_stop m); cbn; lia.
    + pose proof (run_entry_allocated pt has_req m) as H.
      destruct (run_entry C pt has_req m) as [h m']. cbn [snd] in H.
      destruct (control m'); cbn; lia.
    + lia.
    + lia.
  - unfold stop. destruct (negb _); cbn; lia.
  - unfold get_jobs. destruct (is_stop m); cbn; lia.
  - unfold update_jobs_op. destruct (is_stop m); cbn; lia.
  - unfold get_event_ranges. destruct (is_stop m); [cbn; lia|].
    destruct job; cbn; lia.
  - unfold update_events_op. destruct (is_stop m); cbn; lia.
Qed.

Lemma apply_event_keeps_detached (ev : Event) (m : Manager St) (r : nat) :
  r < allocated m ->
  detached m r ->
  requests (apply_event C ev m) r = requests m r /\
  detached (apply_event C ev m) r.
Proof.
  intros Hlt Hout.
  assert (Hsub : forall q p hook,
             requests (snd (submit q p hook m)) r = requests m r /\
             detached (snd (submit q p hook m)) r).
  { intros q p hook. cbn. split.
    - destruct (decide (r = allocated m)); [lia | reflexivity].
    - intros q'. cbn. destruct (decide (q' = q)) as [->|_]; [|apply Hout].
      rewrite in_app_iff. cbn. intros [H|[H|[]]]; [exact (Hout q H) | lia]. }
  assert (Hsame : requests m r = requests m r /\ detached m r)
    by (split; [reflexivity | exact Hout]).
  destruct ev; cbn [apply_event].
  - unfold run_step. destruct (control m) as [[|pt todo] has_req| |].
    + destruct (negb has_req && is_stop m); exact Hsame.
    + pose proof (run_entry_keeps_detached pt has_req m r Hout) as H.
      destruct (run_entry C pt has_req m) as [h m'].
      destruct (control m'); exact H.
    + exact Hsame.
    + exact Hsame.
  - unfold stop. destruct (negb _); exact Hsame.
  - unfold get_jobs. destruct (is_stop m); [exact Hsame|]. apply Hsub.
  - unfold update_jobs_op. destruct (is_stop m); [exact Hsame|]. apply Hsub.
  - unfold get_event_ranges. destruct (is_stop m); [exact Hsame|].
    destruct job; [apply Hsub | exact Hsame].
  - unfold update_events_op. destruct (is_stop m); [exact Hsame|]. apply Hsub.
Qed.

Lemma exec_keeps_detached (evs : list Event) (m : Manager St) (r : nat) :
  r < allocated m ->
  detached m r ->
  requests (exec C evs m) r = requests m r /\ detached (exec C evs m) r.
Proof.
  revert m. induction evs as [|ev evs IH]; intros m Hlt Hout;
    [split; [reflexivity | exact Hout]|].
  cbn [exec fold_left]. fold (exec C evs (apply_event C ev m)).
  destruct (apply_event_keeps_detached ev m r Hlt Hout) as [Hreq Hdet].
  destruct (IH (apply_event C ev m)) as [Hreq' Hdet'].
  - pose proof (apply_event_allocated ev m). lia.
  - exact Hdet.
  - split; [rewrite Hreq'; exact Hreq | exact Hdet'].
Qed.

End Frozen.

(** The requests in the queues of the manager, at any time: a queue holds
    no request twice, no request is in two queues, and every queued
    request is one that a public operation created and that nothing has
    written to since: it is not aborted, and its [response] is the one
    it was created with, which is [None] unless the caller of
    [get_jobs] gave [args] with the key [response]. *)
Theorem queued_requests_are_untouched_and_unique
        {St : Type} (C : Plugin.Communicator St) (s : St) (evs : list Event) :
  let m := exec C evs (init s) in
  (forall q, NoDup (queues m q)) /\
  (forall q1 q2 r, In r (queues m q1) -> In r (queues m q2) -> q1 = q2) /\
  (forall q r, In r (queues m q) ->
               r < allocated m /\
               abort (requests m r) = false /\
               response (requests m r) = initial_response (payload (requests m r)) /\
               ((forall n args, payload (requests m r) = request_jobs n args ->
                                args_get args "response" = None) ->
                response (requests m r) = None)).
Proof.
  intros m.
  destruct (well_queued_exec C evs (init s) (well_queued_init s))
    as [Hnd Hone Hcr Hpe].
  split; [exact Hnd|]. split; [exact Hone|].
  intros q r H. destruct (Hpe q r H) as [Hres Hab].
  split; [exact (Hcr q r H)|]. split; [exact Hab|]. split; [exact Hres|].
  intros Hargs. subst m. rewrite Hres. unfold initial_response.
  destruct (payload (requests _ r)) as [n args| | |] eqn:Ep; try reflexivity.
  rewrite (Hargs n args eq_refl). reflexivity.
Qed.

(** A request is settled once: from the moment a request that was
    created is in none of the queues (it got its response from a
    handler, was aborted at shutdown, or its handler raised), nothing
    that the manager or its clients do changes it again, neither its
    response nor any other attribute, and it is put in no queue. *)
Theorem request_off_the_queues_is_final
        {St : Type} (C : Plugin.Communicator St) (s : St)
        (before after : list Event) (r : nat) :
  r < allocated (exec C before (init s)) ->
  (forall q, ~ In r (queues (exec C before (init s)) q)) ->
  requests (exec C (before ++ after) (init s)) r =
  requests (exec C before (init s)) r /\
  (forall q, ~ In r (queues (exec C (before ++ after) (init s)) q)).
Proof.
  intros Hlt Hout. unfold exec. rewrite fold_left_app.
  apply (exec_keeps_detached C after (exec C before (init s)) r);
    [exact Hlt | exact Hout].
Qed.

End CommRequests.

Module CommLifecycle.
Import Comm.
Import CommMore.
Import CommQueues.
Import CommRequests.

Section Lifecycle.

Context {St : Type}.
Variable C : Plugin.Communicator St.


(** A public operation or a call of [stop] leaves the place of the
    thread as it is; a thread that has ended stays so. *)
Lemma apply_event_control (ev : Event) (m : Manager St) :
  ev <> EvRun \/ control m = Died -> control (apply_event C ev m) = control m.
Proof.
  intros H. destruct ev; cbn [apply_event].
  - destruct H as [H|H]; [congruence|]. unfold run_step. rewrite H. exact H.
  - unfold stop. destruct (negb _); reflexivity.
  - unfold get_jobs. destruct (is_stop m); reflexivity.
  - unfold update_jobs_op. destruct (is_stop m); reflexivity.
  - unfold get_event_ranges. destruct (is_stop m); [reflexivity|].
    destruct job; reflexivity.
  - unfold update_events_op. destruct (is_stop m); reflexivity.
Qed.




End Lifecycle.


End CommLifecycle.

Module CommShutdown.
Import Comm.
Import CommMore.
Import CommQueues.
Import CommRequests.
Import CommLifecycle.

Section Shutdown.

Context {St : Type}.
Variable C : Plugin.Communicator St.

(** With the stop signal set, the thread calls neither the plug-in nor
    any [post_hook]. *)
Lemma stopped_run_is_silent (n : nat) (m : Manager St) :
  stop_event m = true ->
  hook_calls (exec C (repeat EvRun n) m) = hook_calls m /\
  plugin (exec C (repeat EvRun n) m) = plugin m.
Proof.
  revert m. induction n as [|n IH]; intros m Hs; [split; reflexivity|].
  cbn [repeat exec fold_left apply_event].
  fold (exec C (repeat EvRun n) (run_step C m)).
  assert (Hstep : stop_event (run_step C m) = true /\
                  hook_calls (run_step C m) = hook_calls m /\
                  plugin (run_step C m) = plugin m).
  { unfold run_step. destruct (control m) as [[|pt todo] has_req| |].
    - destruct (negb has_req && is_stop m); cbn; auto.
    - unfold run_entry, is_stop. rewrite Hs. unfold drain.
      destruct (control (abort_all (queues m pt) (set_queue pt [] m)));
        cbn [stop_event hook_calls plugin set_control];
        rewrite CommFacts.abort_all_stop_event, CommFacts.abort_all_hook_calls,
          abort_all_plugin; cbn; auto.
    - auto.
    - auto. }
  destruct Hstep as (Hs1 & Hh1 & Hp1).
  destruct (IH (run_step C m) Hs1) as [Hh Hp].
  rewrite Hh, Hp. split; assumption.
Qed.

End Shutdown.

(** Shutdown.  When the stop signal is set as a pass begins, that pass
    empties every queue of the processor table and the loop leaves at its
    end.  Every request that was queued is marked aborted and its waiting
    caller gets the exception [CommunicationFailure] raised.  The
    plug-in is not called, and no [post_hook] is called: a caller that
    handed in a [post_hook] is not told of the abort. *)
Theorem shutdown_pass_aborts_every_request
        {St : Type} (C : Plugin.Communicator St) (m : Manager St) :
  stop_event m = true ->
  control m = InPass processor_keys false ->
  let m' := exec C (repeat EvRun 7) m in
  control m' = Finished /\
  (forall q, In q processor_keys -> queues m' q = []) /\
  (forall q r, In q processor_keys -> In r (queues m q) ->
     abort (requests m' r) = true /\
     collect r m' =
       Some (Raised (CommunicationFailure
                       "Communication manager is stopping, abort this request"))) /\
  hook_calls m' = hook_calls m /\
  plugin m' = plugin m.
Proof.
  intros Hs Hc m'.
  destruct (CommFacts.stop_before_pass_aborts_all C m Hs Hc) as (Hfin & Hempty & Hab).
  destruct (stopped_run_is_silent C 7 m Hs) as [Hh Hp].
  split; [exact Hfin|]. split; [exact Hempty|].
  split; [|split; assumption].
  intros q r Hq Hr. destruct (Hab q r Hq Hr) as [[Ha Hres] _].
  split; [exact Ha|]. unfold collect. subst m'. rewrite Hres. reflexivity.
Qed.

Section Hooks.

Context {St : Type}.
Variable C : Plugin.Communicator St.

Lemma post_hook_entries_are_terminal (pt : QName) :
  process_req_post_hook (processor C pt) = true ->
  next_queue (processor C pt) = None.
Proof. destruct pt; cbn; congruence. Qed.

(** What a visit of an entry adds to the record of hook calls. *)
Lemma run_entry_hook_calls (pt : QName) (has_req : bool) (m : Manager St) :
  well_queued m ->
  hook_calls (snd (run_entry C pt has_req m)) = hook_calls m \/
  exists r h res,
    In r (queues m pt) /\
    hook_calls (snd (run_entry C pt has_req m)) = hook_calls m ++ [(h, res)] /\
    detached (snd (run_entry C pt has_req m)) r /\
    post_hook (requests (snd (run_entry C pt has_req m)) r) = Some h /\
    response (requests (snd (run_entry C pt has_req m)) r) = Some res /\
    status_is_False (status res) = false.
Proof.
  intros Hwq. unfold run_entry, is_stop. destruct (stop_event m).
  - left. cbn [snd]. unfold drain. rewrite CommFacts.abort_all_hook_calls. reflexivity.
  - destruct (can_process_request C pt m); [|left; reflexivity].
    destruct (pre_check _ _) as [[pre|] s]; [|left; reflexivity].
    destruct (negb _); [left; reflexivity|].
    cbn [queues set_plugin].
    destruct (queues m pt) as [|r rest] eqn:Hq; [left; reflexivity|].
    destruct (well_queued_pop pt r rest m Hwq Hq) as [_ Hdet].
    cbn [snd]. unfold handle.
    destruct (handler _ _ _) as [[res|] s']; [|left; reflexivity].
    destruct (status_is_False (status res)) eqn:Hst; [left; reflexivity|].
    destruct (process_req_post_hook (processor C pt)) eqn:Hbit.
    + rewrite (post_hook_entries_are_terminal pt Hbit).
      cbn [requests set_request set_plugin set_queue].
      destruct (decide (r = r)) as [_|]; [|congruence].
      cbn [post_hook set_response].
      destruct (post_hook (requests m r)) as [h|] eqn:Hh; [|left; reflexivity].
      right. exists r, h, res. split; [left; reflexivity|].
      split; [reflexivity|]. split; [exact Hdet|].
      cbn. destruct (decide (r = r)) as [_|]; [|congruence].
      cbn. rewrite Hh. auto.
    + left. destruct (next_queue (processor C pt)); reflexivity.
Qed.

Lemma hooks_accounted_apply_event (ev : Event) (m : Manager St) :
  well_queued m -> hooks_accounted m -> hooks_accounted (apply_event C ev m).
Proof.
  intros Hwq Hacc.
  assert (Hold : forall h res, In (h, res) (hook_calls m) ->
            exists r, r < allocated (apply_event C ev m) /\
                      detached (apply_event C ev m) r /\
                      post_hook (requests (apply_event C ev m) r) = Some h /\
                      response (requests (apply_event C ev m) r) = Some res /\
                      status_is_False (status res) = false).
  { intros h res Hin. destruct (Hacc h res Hin) as (r & Hlt & Hdet & Hh & Hres & Hst).
    exists r. destruct (apply_event_keeps_detached C ev m r Hlt Hdet) as [-> Hdet'].
    pose proof (apply_event_allocated C ev m). split; [lia | auto]. }
  assert (Hsame : hook_calls (apply_event C ev m) = hook_calls m ->
                  hooks_accounted (apply_event C ev m)).
  { intros E h res Hin. rewrite E in Hin. exact (Hold h res Hin). }
  destruct ev; cbn [apply_event] in *.
  - unfold run_step in *. destruct (control m) as [[|pt todo] has_req| |].
    + apply Hsame. destruct (negb has_req && is_stop m); reflexivity.
    + pose proof (run_entry_hook_calls pt has_req m Hwq) as Hcalls.
      pose proof (run_entry_allocated C pt has_req m) as Hal.
      destruct (run_entry C pt has_req m) as [hr m'] eqn:Erun.
      cbn [snd] in *.
      assert (Hgoal : hooks_accounted m' ->
                      hooks_accounted match control m' with
                                      | Died => m'
                                      | _ => set_control (InPass todo hr) m'
                                      end)
        by (intros H; destruct (control m'); exact H).
      assert (Hold' : forall h res, In (h, res) (hook_calls m) ->
                exists r, r < allocated m' /\ detached m' r /\
                          post_hook (requests m' r) = Some h /\
                          response (requests m' r) = Some res /\
                          status_is_False (status res) = false).
      { intros h res Hin. destruct (Hold h res Hin) as (r & H1 & H2 & H3 & H4 & H5).
        exists r. destruct (control m'); auto 10. }
      apply Hgoal.
      destruct Hcalls as [E|(r & h & res & Hin & E & Hdet & Hh & Hres & Hst)].
      * intros h res Hin. rewrite E in Hin. exact (Hold' h res Hin).
      * intros h' res' Hin'.
        rewrite E in Hin'. apply in_app_iff in Hin' as [Hin'|[[= <- <-]|[]]].
        -- exact (Hold' h' res' Hin').
        -- exists r. rewrite Hal.
           split; [exact (wq_created m Hwq pt r Hin) | auto].
    + apply Hsame. reflexivity.
    + apply Hsame. reflexivity.
  - apply Hsame. unfold stop. destruct (negb _); reflexivity.
  - apply Hsame. unfold get_jobs. destruct (is_stop m); reflexivity.
  - apply Hsame. unfold update_jobs_op. destruct (is_stop m); reflexivity.
  - apply Hsame. unfold get_event_ranges. destruct (is_stop m); [reflexivity|].
    destruct job; reflexivity.
  - apply Hsame. unfold update_events_op. destruct (is_stop m); reflexivity.
Qed.

Lemma hooks_accounted_exec (evs : list Event) (m : Manager St) :
  well_queued m -> hooks_accounted m -> hooks_accounted (exec C evs m).
Proof.
  revert m. induction evs as [|ev evs IH]; intros m Hwq Hacc; [exact Hacc|].
  cbn [exec fold_left]. fold (exec C evs (apply_event C ev m)).
  apply IH; [apply well_queued_apply_event, Hwq | apply hooks_accounted_apply_event; assumption].
Qed.

End Hooks.

(** Every call of a [post_hook] that the manager ever makes is made with
    the hook of a request that some caller queued, and its argument is
    the response attached to that request: what an asynchronous caller is
    told is what a waiting caller would read. *)
Theorem post_hook_calls_match_responses
        {St : Type} (C : Plugin.Communicator St) (s : St) (evs : list Event)
        (h : nat) (res : CommunicationResponse) :
  In (h, res) (hook_calls (exec C evs (init s))) ->
  exists r,
    r < allocated (exec C evs (init s)) /\
    post_hook (requests (exec C evs (init s)) r) = Some h /\
    response (requests (exec C evs (init s)) r) = Some res /\
    status_is_False (status res) = false.
Proof.
  intros Hin.
  destruct (hooks_accounted_exec C evs (init s) (well_queued_init s)
              (fun h' res' (H : In (h', res') []) => match H with end) h res Hin)
    as (r & Hlt & _ & Hrest).
  exists r. split; [exact Hlt | exact Hrest].
Qed.

End CommShutdown.

Module CommConservation.
Import Comm.
Import CommMore.
Import CommQueues.
Import CommRequests.
Import CommLifecycle.

Section Conservation.

Context {St : Type}.
Variable C : Plugin.Communicator St.

Lemma next_queue_is_visited (pt nq : QName) :
  next_queue (processor C pt) = Some nq -> In nq processor_keys.
Proof. destruct pt; cbn; intros [= <-]; auto 10. Qed.

(** Handling a request takes no other request off a queue; the handled
    one gets a response or a place in the next queue, unless the
    handler raises. *)
Lemma handle_queues_kept (pt : QName) (r x : nat) (q : QName) (m : Manager St) :
  In x (queues m q) -> In x (queues (handle C pt r m) q).
Proof.
  unfold handle. destruct (handler _ _ _) as [[res|] s]; [|auto].
  destruct (status_is_False (status res)); [auto|].
  intros Hin.
  assert (Hq : In x (queues
             (match next_queue (processor C pt) with
              | Some nq => set_queue nq (queues (set_plugin s m) nq ++ [r]) (set_plugin s m)
              | None => set_request r (set_response res) (set_plugin s m)
              end) q)).
  { destruct (next_queue (processor C pt)) as [nq|]; cbn; [|exact Hin].
    destruct (decide (q = nq)) as [->|_]; [apply in_app_iff; left|]; exact Hin. }
  destruct (process_req_post_hook (processor C pt)); [|exact Hq].
  destruct (post_hook _); exact Hq.
Qed.

Lemma handle_settles (pt : QName) (r : nat) (m : Manager St) :
  control (handle C pt r m) = Died \/
  response (requests (handle C pt r m) r) <> None \/
  exists nq, In nq processor_keys /\ In r (queues (handle C pt r m) nq).
Proof.
  unfold handle. destruct (handler _ _ _) as [[res|] s]; [|left; reflexivity].
  right. destruct (status_is_False (status res)).
  - left. cbn. destruct (decide (r = r)); [discriminate | congruence].
  - destruct (next_queue (processor C pt)) as [nq|] eqn:Enq.
    + right. exists nq. split; [exact (next_queue_is_visited pt nq Enq)|].
      assert (Hq : In r (queues (set_queue nq (queues (set_plugin s m) nq ++ [r])
                                           (set_plugin s m)) nq)).
      { cbn. destruct (decide (nq = nq)); [|congruence].
        apply in_app_iff. right. left. reflexivity. }
      destruct (process_req_post_hook (processor C pt)); [|exact Hq].
      destruct (post_hook _); exact Hq.
    + left.
      assert (Hr : response (requests (set_request r (set_response res) (set_plugin s m)) r)
                   <> None).
      { cbn. destruct (decide (r = r)); [discriminate | congruence]. }
      destruct (process_req_post_hook (processor C pt)); [|exact Hr].
      destruct (post_hook _); exact Hr.
Qed.

Lemma all_waiting_run_entry (pt : QName) (has_req : bool) (m : Manager St) :
  all_waiting m ->
  control (snd (run_entry C pt has_req m)) <> Died ->
  all_waiting (snd (run_entry C pt has_req m)).
Proof.
  intros Hnl. unfold run_entry, is_stop. destruct (stop_event m).
  - cbn [snd]. intros _ r Hlt Hpend.
    unfold drain in Hlt. rewrite abort_all_allocated in Hlt. cbn in Hlt.
    destruct (in_dec Nat.eq_dec r (queues m pt)) as [Hin|Hnin].
    + pose proof (CommFacts.abort_all_aborts (queues m pt) (set_queue pt [] m) r Hin)
        as [_ Hres].
      unfold drain in Hpend. rewrite Hres in Hpend. discriminate.
    + unfold drain in Hpend. rewrite abort_all_requests_other in Hpend by exact Hnin.
      destruct (Hnl r Hlt Hpend) as (q & Hq & Hin). exists q. split; [exact Hq|].
      rewrite CommFacts.drain_queues.
      destruct (decide (q = pt)) as [->|_]; [contradiction | exact Hin].
  - destruct (can_process_request C pt m); [|intros _; exact Hnl].
    destruct (pre_check _ _) as [[pre|] s]; [|intros H; destruct H; reflexivity].
    destruct (negb _); [intros _; exact Hnl|].
    cbn [queues set_plugin].
    destruct (queues m pt) as [|r0 rest] eqn:Eq; [intros _; exact Hnl|].
    cbn [snd]. intros Hctl r Hlt Hpend.
    rewrite handle_allocated in Hlt. cbn in Hlt.
    destruct (decide (r = r0)) as [->|Hne].
    + destruct (handle_settles pt r0 (set_queue pt rest (set_plugin s m)))
        as [Hd|[Hres|Hq]]; [contradiction | contradiction | exact Hq].
    + rewrite handle_requests_other in Hpend by exact Hne. cbn in Hpend.
      destruct (Hnl r Hlt Hpend) as (q & Hq & Hin). exists q. split; [exact Hq|].
      apply handle_queues_kept. cbn.
      destruct (decide (q = pt)) as [->|_]; [|exact Hin].
      rewrite Eq in Hin. destruct Hin as [->|Hin]; [congruence | exact Hin].
Qed.

Lemma all_waiting_submit (q : QName) (p : Payload) (hook : option nat) (m : Manager St) :
  In q processor_keys -> all_waiting m -> all_waiting (snd (submit q p hook m)).
Proof.
  intros Hq Hnl r Hlt Hpend. cbn in *.
  destruct (decide (r = allocated m)) as [->|Hne].
  - exists q. split; [exact Hq|]. destruct (decide (q = q)); [|congruence].
    apply in_app_iff. right. left. reflexivity.
  - destruct (Hnl r ltac:(lia) Hpend) as (q' & Hq' & Hin). exists q'.
    split; [exact Hq'|]. destruct (decide (q' = q)); [apply in_app_iff; left|]; exact Hin.
Qed.

Lemma none_lost_apply_event (ev : Event) (m : Manager St) :
  none_lost m -> none_lost (apply_event C ev m).
Proof.
  intros Hnl Hctl.
  assert (Hm : ev <> EvRun -> all_waiting m).
  { intros Hev. apply Hnl. rewrite <- (apply_event_control C ev m); auto. }
  destruct ev; cbn [apply_event] in *.
  - clear Hm. unfold run_step in *.
    destruct (control m) as [[|pt todo] has_req| |] eqn:Hc.
    + assert (Hw : all_waiting m) by (apply Hnl; rewrite Hc; discriminate).
      destruct (negb has_req && is_stop m); exact Hw.
    + assert (Hw : all_waiting m) by (apply Hnl; rewrite Hc; discriminate).
      pose proof (all_waiting_run_entry pt has_req m Hw) as H.
      destruct (run_entry C pt has_req m) as [hr m']. cbn [snd] in H.
      destruct (control m') eqn:Hc'; [apply H; discriminate .. | contradiction].
    + apply Hnl. rewrite Hc. discriminate.
    + destruct (Hctl Hc).
  - specialize (Hm ltac:(discriminate)). unfold stop. destruct (negb _); exact Hm.
  - specialize (Hm ltac:(discriminate)). unfold get_jobs. destruct (is_stop m); [exact Hm|].
    apply (all_waiting_submit request_get_jobs); [cbn; auto 10 | exact Hm].
  - specialize (Hm ltac:(discriminate)).
    unfold update_jobs_op. destruct (is_stop m); [exact Hm|].
    apply (all_waiting_submit update_jobs); [cbn; auto 10 | exact Hm].
  - specialize (Hm ltac:(discriminate)).
    unfold get_event_ranges. destruct (is_stop m); [exact Hm|].
    destruct job; [|exact Hm].
    apply (all_waiting_submit request_get_events); [cbn; auto 10 | exact Hm].
  - specialize (Hm ltac:(discriminate)).
    unfold update_events_op. destruct (is_stop m); [exact Hm|].
    apply (all_waiting_submit update_events); [cbn; auto 10 | exact Hm].
Qed.

Lemma none_lost_exec (evs : list Event) (m : Manager St) :
  none_lost m -> none_lost (exec C evs m).
Proof.
  revert m. induction evs as [|ev evs IH]; intros m Hnl; [exact Hnl|].
  cbn [exec fold_left]. fold (exec C evs (apply_event C ev m)).
  apply IH, none_lost_apply_event, Hnl.
Qed.

End Conservation.

(** No request is lost while the thread lives.  Whatever the clients
    and the thread have done, as long as no method of the plug-in has
    raised an exception (which would have ended the thread), a request
    that a client has queued and that has no response yet waits in one
    of the six queues that [run] visits: it was neither dropped nor
    left in a queue that nobody reads. *)
Theorem pending_request_waits_in_a_visited_queue
        {St : Type} (C : Plugin.Communicator St) (s : St) (evs : list Event) (r : nat) :
  control (exec C evs (init s)) <> Died ->
  r < allocated (exec C evs (init s)) ->
  response (requests (exec C evs (init s)) r) = None ->
  exists q, In q processor_keys /\ In r (queues (exec C evs (init s)) q).
Proof.
  intros Hctl.
  apply (none_lost_exec C evs (init s)); [|exact Hctl].
  intros _ r' Hlt. cbn in Hlt. lia.
Qed.

Lemma pending_request_waits_in_a_visited_queue_witness :
  exists q, In q processor_keys /\
            In 0 (queues (exec (CommSamples.answering (StatusInt 0))
                               [EvGetJobs 1 None []; EvRun] (init tt)) q).
Proof.
  apply (pending_request_waits_in_a_visited_queue
           (CommSamples.answering (StatusInt 0)) tt [EvGetJobs 1 None []; EvRun] 0).
  - vm_compute. discriminate.
  - vm_compute. lia.
  - vm_compute. reflexivity.
Defined.

End CommConservation.

Module CommWitnesses.
Import Comm.
Import CommSamples.
Import CommRequests.
Import CommLifecycle.
Import CommShutdown.

Lemma request_off_the_queues_is_final_witness :
  requests (exec (answering (StatusInt 0))
                 ([EvUpdateJobs "jobs" (Some 7); EvRun; EvRun; EvRun] ++ [EvStop; EvRun])
                 (init tt)) 0
  = requests (exec (answering (StatusInt 0))
                   [EvUpdateJobs "jobs" (Some 7); EvRun; EvRun; EvRun]
                   (init tt)) 0.
Proof.
  apply (request_off_the_queues_is_final (answering (StatusInt 0)) tt
           [EvUpdateJobs "jobs" (Some 7); EvRun; EvRun; EvRun] [EvStop; EvRun] 0).
  - vm_compute. lia.
  - intros q. destruct q; vm_compute; tauto.
Defined.

(** A handler that raises ends the thread; the request it was given
    is off its queue and its caller waits for ever. *)
Lemma raising_handler_loses_the_request :
  let m := exec raising [EvUpdateJobs "jobs" None; EvRun; EvRun; EvRun] (init tt) in
  control m = Died /\
  queues m update_jobs = [] /\
  response (requests m 0) = None /\
  collect 0 (exec raising (repeat EvRun 9) m) = None.
Proof. vm_compute. repeat split. Qed.

(** [get_jobs] with the key [response] among its [args] queues a
    request that has a response from the start; the waiting caller
    does not wait. *)
Lemma preset_response_is_queued :
  let m := snd (get_jobs 1 None [("response"%string, arg_other "x")] (init tt)) in
  queues m request_get_jobs = [0] /\
  response (requests m 0) = Some foreign_response /\
  collect 0 m = Some (Raised (AttributeError "exception")).
Proof. vm_compute. repeat split. Qed.


Lemma shutdown_pass_aborts_every_request_witness :
  let m := exec (answering (StatusInt 0))
                [EvUpdateJobs "jobs" (Some 7); EvGetJobs 1 None []; EvStop] (init tt) in
  let m' := exec (answering (StatusInt 0)) (repeat EvRun 7) m in
  control m' = Finished /\
  (forall q, In q processor_keys -> queues m' q = []) /\
  (forall q r, In q processor_keys -> In r (queues m q) ->
     abort (requests m' r) = true /\
     collect r m' =
       Some (Raised (CommunicationFailure
                       "Communication manager is stopping, abort this request"))) /\
  hook_calls m' = hook_calls m /\
  plugin m' = plugin m.
Proof.
  intros m.
  apply (shutdown_pass_aborts_every_request (answering (StatusInt 0)) m).
  - vm_compute. reflexivity.
  - vm_compute. reflexivity.
Defined.

Lemma post_hook_calls_match_responses_witness :
  exists r,
    r < allocated (exec (answering (StatusInt 0))
                        [EvUpdateJobs "jobs" (Some 7); EvRun; EvRun; EvRun] (init tt)) /\
    post_hook (requests (exec (answering (StatusInt 0))
                        [EvUpdateJobs "jobs" (Some 7); EvRun; EvRun; EvRun] (init tt)) r)
      = Some 7 /\
    response (requests (exec (answering (StatusInt 0))
                        [EvUpdateJobs "jobs" (Some 7); EvRun; EvRun; EvRun] (init tt)) r)
      = Some (mkResponse (StatusInt 0) (Some "ok"%string) None) /\
    status_is_False (status (mkResponse (StatusInt 0) (Some "ok"%string) None)) = false.
Proof.
  apply (post_hook_calls_match_responses (answering (StatusInt 0)) tt
           [EvUpdateJobs "jobs" (Some 7); EvRun; EvRun; EvRun] 7
           (mkResponse (StatusInt 0) (Some "ok"%string) None)).
  vm_compute. left. reflexivity.
Defined.

End CommWitnesses.

(** ** The data pipeline: cancellation, stage-out, queue monitor *)

Module DataCancel.
Import Data.
Import DataMore.
Import Samples.

Section Cancellation.

Variable p : Proc.

(** A cancelled supervision returns without an exit code. *)
Lemma supervise_cancelled (k : nat) :
  is_set p k = true ->
  (forall i, i < k / 10 -> poll p i = None) ->
  forall fuel, k / 10 < fuel -> supervise fuel p 0 0 None = Ret None.
Proof.
  intros Hset Hpolls fuel Hfuel.
  destruct (DataFacts.supervise_returns p (S (k / 10)) 0 None) as [v Hv].
  { left. exists k. split; [|exact Hset].
    pose proof (Nat.div_mod_eq k 10). pose proof (Nat.mod_upper_bound k 10). lia. }
  change (10 * 0) with 0 in Hv.
  apply (DataFacts.supervise_mono p (S (k / 10)) fuel) in Hv as Hv'; [|lia].
  rewrite Hv'. f_equal.
  destruct v as [c|]; [|reflexivity]. exfalso.
  pose proof (proj1 (DataFacts.supervise_exit0 p _ _ Hv c) eq_refl) as [j Hno Hnone Hc].
  destruct (Nat.lt_ge_cases j (k / 10)) as [Hlt|Hge].
  - rewrite (Hpolls j Hlt) in Hc. discriminate.
  - assert (Hk : k < 10 * S j).
    { pose proof (Nat.div_mod_eq k 10). pose proof (Nat.mod_upper_bound k 10). lia. }
    rewrite (Hno k Hk) in Hset. discriminate.
Qed.

End Cancellation.

(** Cancellation.  When the stop signal is seen set before any poll has
    reported an exit, [_call] returns [False] and [_stage_out] returns
    [None], whatever the child would have done: a cancelled transfer is
    reported like a failed one. *)
Theorem cancelled_transfer_is_reported_as_failed
        (X : Outside) (executable : list string) (dir : string)
        (d : Outfile) (job : Job) (w : World) :
  cancelled (os X (length (launched w))) ->
  exists fuel0, forall fuel, fuel0 <= fuel ->
    _call X fuel executable dir w =
      (Ret false, add_launch (mkLaunch executable dir) w) /\
    _stage_out X fuel d job w =
      (Ret None, add_launch (upload_launch job d) w).
Proof.
  intros (k & Hset & Hpolls). exists (S (k / 10)). intros fuel Hfuel.
  rewrite DataFacts.call_eq, DataFacts.stage_out_eq.
  rewrite (supervise_cancelled _ k Hset Hpolls fuel) by lia.
  destruct (spawn_ok _); split; reflexivity.
Qed.

(** The stop signal is set at the fourth reading; the child, had it been
    polled, would have reported exit code 0. *)
Lemma cancelled_transfer_is_reported_as_failed_witness :
  let X := mkOutside (fun _ => mkProc true (fun n => Nat.eqb n 3) (fun _ => Some 0%Z) None)
                     (fun j _ => j) (fun _ => 0%Z) (fun _ => ""%string)
                     (fun _ _ => 0) in
  exists fuel0, forall fuel, fuel0 <= fuel ->
    _call X fuel ["rucio"] "/w" world101 =
      (Ret false, add_launch (mkLaunch ["rucio"] "/w") world101) /\
    _stage_out X fuel (mkOutfile "s" "log.tgz" "G" 1) job101 world101 =
      (Ret None, add_launch (upload_launch job101 (mkOutfile "s" "log.tgz" "G" 1)) world101).
Proof.
  intros X.
  apply (cancelled_transfer_is_reported_as_failed X ["rucio"] "/w"
           (mkOutfile "s" "log.tgz" "G" 1) job101 world101).
  exists 3. split; [reflexivity|]. cbn. intros i Hi. lia.
Defined.

End DataCancel.

Module DataStageOut.
Import Data.
Import DataMore.
Import Samples.

Section StageOutAll.

Variable X : Outside.


(** The first selected descriptor whose upload leaves a summary without
    the entry ['scope:name']: the loop is left by the [KeyError]. *)
Lemma transfer_loop_key_error (fuel : nat) (job : Job)
      (outputs : list (string * Outfile)) (d : Outfile) (sel' : list Outfile)
      (s : gmap string SummaryEntry) (c : Z) :
  forall (w : World) (fileinfo : gmap string FileInfo) (failed : bool),
    let p := os X (length (launched w)) in
    selected job outputs = d :: sel' ->
    spawn_ok p = true ->
    supervise fuel p 0 0 None = Ret (Some c) ->
    summary_file p = Some s ->
    s !! (scope d +:+ ":" +:+ name d) = None ->
    transfer_loop X fuel job outputs fileinfo failed w =
      (Raise (KeyError (scope d +:+ ":" +:+ name d)),
       add_launch (upload_launch job d) w).
Proof.
  induction outputs as [|[k d0] rest IH]; intros w fileinfo failed p Hsel Hsp Hsup Hsum Hkey.
  - discriminate.
  - cbn [transfer_loop]. unfold selected in Hsel. cbn [List.filter fst] in Hsel.
    destruct (contains k (outFiles job)); cbn [negb].
    + cbn [map snd] in Hsel. injection Hsel as -> _.
      unfold bind at 1. rewrite DataFacts.stage_out_eq. fold p.
      rewrite Hsp, Hsup, Hsum. unfold bind at 1, summary_get. rewrite Hkey.
      reflexivity.
    + apply IH; assumption.
Qed.

Lemma stage_out_all_key_error (fuel : nat) (queue_name : string) (r : nat) (w : World)
      (d : Outfile) (sel' : list Outfile) (s : gmap string SummaryEntry) (c : Z) :
  let job := jobs w r in
  let p := os X (length (launched w)) in
  selected job (iteration_order X (build_outputs X job (tarball_name job queue_name)))
    = d :: sel' ->
  spawn_ok p = true ->
  supervise fuel p 0 0 None = Ret (Some c) ->
  summary_file p = Some s ->
  s !! (scope d +:+ ":" +:+ name d) = None ->
  _stage_out_all X fuel queue_name r w =
    (Raise (KeyError (scope d +:+ ":" +:+ name d)),
     add_launch (upload_launch job d) w).
Proof.
  intros job p Hsel Hsp Hsup Hsum Hkey.
  unfold _stage_out_all, bind at 1, deref. fold job. unfold bind at 1.
  unfold tarball_name in Hsel.
  rewrite (transfer_loop_key_error fuel job _ d sel' s c w ∅ false Hsel Hsp Hsup Hsum Hkey).
  reflexivity.
Qed.

End StageOutAll.



(** The two ways in which a [KeyError] takes a job out of the stage-out
    worker, whose loop catches [Queue.Empty] only.  A job taken from
    [data_out] that has no key [destinationDblock] is lost at the log
    line, before anything is started.  A job that has the key is lost
    when the first upload that [_stage_out_all] starts ends with an
    exit code and leaves a summary file that lacks the entry
    ['scope:name'].  In both cases the job is off [data_out] and on no
    other queue, and its record is as it was, neither failed nor
    tagged. *)
Theorem copytool_out_drops_job_on_key_error
        (X : Outside) (queue_name : string) (w : World) (r : nat) (rest : list nat) :
  data_out (queues w) = r :: rest ->
  let job := jobs w r in
  let p := os X (length (launched w)) in
  (destinationDblock job = None ->
   forall fuel,
     copytool_out X fuel queue_name w =
       (Raise (KeyError "destinationDblock"),
        mkWorld (jobs w) (set_queue q_data_out rest (queues w))
                (launched w) (errors w))) /\
  (forall dataset d sel' s c,
     destinationDblock job = Some dataset ->
     selected job (iteration_order X (build_outputs X job (tarball_name job queue_name)))
       = d :: sel' ->
     spawn_ok p = true ->
     child_exited p c ->
     summary_file p = Some s ->
     s !! (scope d +:+ ":" +:+ name d) = None ->
     exists fuel0, forall fuel, fuel0 <= fuel ->
       copytool_out X fuel queue_name w =
         (Raise (KeyError (scope d +:+ ":" +:+ name d)),
          mkWorld (jobs w) (set_queue q_data_out rest (queues w))
                  (launched w ++ [upload_launch job d]) (errors w))).
Proof.
  intros Hq job p. split.
  - intros Hds fuel.
    unfold copytool_out, bind at 1, get. cbn [queue]. rewrite Hq.
    unfold bind at 1, deref. cbn [jobs]. fold job.
    unfold bind at 1, read_dataset. rewrite Hds. reflexivity.
  - intros dataset d sel' s c Hds Hsel Hsp Hex Hsum Hkey.
    destruct (DataFacts.ends_supervise p) as (fuel0 & v & Hv).
    { right. destruct Hex as [j _ _ Hj]. exists j. rewrite Hj. discriminate. }
    assert (Hvc : v = Some c)
      by (apply (DataFacts.supervise_exit0 p fuel0 v Hv c); exact Hex).
    subst v. exists fuel0. intros fuel Hle.
    apply (DataFacts.supervise_mono p fuel0 fuel) in Hv; [|exact Hle].
    set (w0 := mkWorld (jobs w) (set_queue q_data_out rest (queues w)) (launched w)
                       (errors w)).
    unfold copytool_out, bind at 1, get. cbn [queue]. rewrite Hq. fold w0.
    unfold bind at 1, deref. cbn [jobs w0]. fold job.
    unfold bind at 1, read_dataset. rewrite Hds. unfold ret at 1.
    unfold bind at 1.
    rewrite (stage_out_all_key_error X fuel queue_name r w0 d sel' s c Hsel Hsp Hv Hsum Hkey).
    reflexivity.
Qed.

End DataStageOut.

Module DataMonitor.
Import Data.
Import DataMore.
Import Samples.
Import DataStageOut.




Section Monitor.

Variable X : Outside.

(** In log-only mode [outputs] holds the log tarball and nothing else. *)
Lemma build_outputs_log_only (job : Job) (tarball : string) :
  stageout job = "log"%string ->
  build_outputs X job tarball = [(log_key job, prepare_log X job tarball)].
Proof. intros E. unfold build_outputs. rewrite E. reflexivity. Qed.

Lemma selected_log_only (job : Job) (tarball : string) :
  stageout job = "log"%string ->
  selected job (iteration_order X (build_outputs X job tarball)) =
  if contains (log_key job) (outFiles job) then [prepare_log X job tarball] else [].
Proof.
  intros E. rewrite (build_outputs_log_only job tarball E).
  unfold selected. cbn. destruct (contains _ _); reflexivity.
Qed.





End Monitor.



End DataMonitor.

Module DataWitnesses.
Import Data.
Import DataMore.
Import Samples.
Import DataStageOut.
Import DataMonitor.

(** Job 202 without [destinationDblock] on [data_out]; and job 202 on
    [data_out], its upload leaving an empty summary. *)
Lemma copytool_out_drops_job_on_key_error_witness :
  copytool_out (outside_exit 0) 9 "q" world202_no_dataset =
    (Raise (KeyError "destinationDblock"),
     mkWorld (jobs world202_no_dataset) no_queues [] ([], [])) /\
  exists fuel0, forall fuel, fuel0 <= fuel ->
    copytool_out (outside_summary (Some ∅)) fuel "q" world202 =
      (Raise (KeyError "s:o1.root"),
       mkWorld (jobs world202) (set_queue q_data_out [] (queues world202))
               (launched world202 ++
                [upload_launch job202 (mkOutfile "s" "o1.root" "GO" 42)])
               (errors world202)).
Proof.
  split.
  - exact (proj1 (copytool_out_drops_job_on_key_error
                    (outside_exit 0) "q" world202_no_dataset 0 [] eq_refl) eq_refl 9).
  - apply (proj2 (copytool_out_drops_job_on_key_error
                    (outside_summary (Some ∅)) "q" world202 0 [] eq_refl)
                 "data.202"%string (mkOutfile "s" "o1.root" "GO" 42) [] ∅ 0%Z).
    + reflexivity.
    + vm_compute. reflexivity.
    + reflexivity.
    + apply (seen_exited _ _ 0); [intros; reflexivity | intros; lia | reflexivity].
    + reflexivity.
    + reflexivity.
Defined.



End DataWitnesses.

(** ** The stand-alone transfers *)

Module AutoFacts.
Import Auto.

(** *** Waiting for a child *)

Lemma await_finds (c : Child) (e : Z) (n : nat) :
  c_poll c n = Some e ->
  forall fuel k, k <= n -> (forall i, k <= i < n -> c_poll c i = None) ->
    n - k < fuel -> await fuel c k = Some e.
Proof.
  intros Hn. induction fuel as [|fuel IH]; intros k Hk Hnone Hfuel; [lia|].
  cbn [await]. destruct (decide (k = n)) as [->|Hne].
  - rewrite Hn. reflexivity.
  - rewrite (Hnone k) by lia. apply IH; [lia | intros i Hi; apply Hnone; lia | lia].
Qed.

Lemma await_exits (c : Child) (e : Z) :
  exits c e -> exists fuel0, forall fuel, fuel0 <= fuel -> await fuel c 0 = Some e.
Proof.
  intros (n & Hn & Hnone). exists (S n). intros fuel Hle.
  apply (await_finds c e n Hn); [lia | intros i Hi; apply Hnone; lia | lia].
Qed.

(** A fuel that lets the wait for each of the first [n] children end. *)
Lemma enough_polls (E : Env) (n : nat) :
  (forall k, k < n -> exists c e, spawn E k = Some c /\ exits c e) ->
  exists fuel0, forall fuel, fuel0 <= fuel ->
    forall k, k < n ->
      exists c e, spawn E k = Some c /\ exits c e /\ await fuel c 0 = Some e.
Proof.
  induction n as [|n IH]; intros H.
  - exists 0. intros; lia.
  - destruct IH as (f1 & H1); [intros k Hk; apply H; lia|].
    destruct (H n (Nat.lt_succ_diag_r n)) as (c & e & Hc & He).
    destruct (await_exits c e He) as (f2 & H2).
    exists (Nat.max f1 f2). intros fuel Hle k Hk.
    destruct (decide (k = n)) as [->|Hne].
    + exists c, e. split; [exact Hc|]. split; [exact He|]. apply H2. lia.
    + apply H1; lia.
Qed.

Lemma exits_functional (c : Child) (e e' : Z) :
  exits c e -> exits c e' -> e = e'.
Proof.
  intros (n & Hn & Hnone) (n' & Hn' & Hnone').
  destruct (Nat.lt_trichotomy n n') as [Hlt|[->|Hlt]].
  - rewrite (Hnone' n Hlt) in Hn. discriminate.
  - congruence.
  - rewrite (Hnone n' Hlt) in Hn'. discriminate.
Qed.

(** *** The second loop *)

Section Loops.

Context {F : Type}.
Variable E : Env.
Variable argv : F -> list string.
Variable get_errno : F -> Z.
Variable update : string -> string -> Z -> F -> F.
Variable set_errno : Z -> F -> F.
Variable done_msg : string.

(** The entries that the second loop does not skip. *)
Definition live (f : F) : bool := negb (Z.eqb (get_errno f) 1).

Lemma transfer_settles (fuel : nat) (files : list F) :
  forall started,
    (forall k, k < length (List.filter live files) ->
       exists c e, spawn E (started + k) = Some c /\ await fuel c 0 = Some e) ->
    let run := transfer E argv get_errno update set_errno done_msg fuel started files in
    outcome run = Returned /\
    launches run = map argv (List.filter live files) /\
    length (files_after run) = length files /\
    forall i f, files !! i = Some f ->
      (live f = false -> files_after run !! i = Some f) /\
      (live f = true ->
       forall c e,
         spawn E (started + length (List.filter live (take i files))) = Some c ->
         await fuel c 0 = Some e ->
         files_after run !! i =
           Some (finish update done_msg c e (set_errno 2 f))).
Proof.
  induction files as [|f rest IH]; intros started Hch.
  - cbn. split; [reflexivity|]. split; [reflexivity|]. split; [reflexivity|].
    intros i f Hf. rewrite lookup_nil in Hf. discriminate.
  - cbn [transfer List.filter]. unfold live at 1 in Hch. cbn [List.filter] in Hch.
    destruct (Z.eqb (get_errno f) 1) eqn:Eerr; cbn [negb] in *.
    + destruct (IH started Hch) as (Ho & Hl & Hlen & Hat).
      cbn [outcome launches files_after].
      split; [exact Ho|]. split; [unfold live at 1; rewrite Eerr; exact Hl|].
      split; [cbn; rewrite Hlen; reflexivity|].
      intros [|i] f0 Hf0; cbn in Hf0.
      * injection Hf0 as <-. split; [reflexivity|].
        unfold live. rewrite Eerr. discriminate.
      * destruct (Hat i f0 Hf0) as [H0 H1]. split; [exact H0|].
        intros Hlive c e Hc He. cbn [take List.filter] in Hc.
        unfold live at 1 in Hc. rewrite Eerr in Hc. cbn [negb] in Hc.
        exact (H1 Hlive c e Hc He).
    + destruct (Hch 0) as (c & e & Hc & He); [apply Nat.lt_0_succ|].
      rewrite Nat.add_0_r in Hc. rewrite Hc, He.
      destruct (IH (S started)) as (Ho & Hl & Hlen & Hat).
      { intros k Hk. replace (S started + k) with (started + S k) by lia.
        apply Hch. cbn [length]. unfold live in Hk. lia. }
      cbn [outcome launches files_after].
      split; [exact Ho|].
      split; [unfold live at 1; rewrite Eerr; cbn [negb map]; rewrite Hl; reflexivity|].
      split; [cbn; rewrite Hlen; reflexivity|].
      intros [|i] f0 Hf0; cbn in Hf0.
      * injection Hf0 as <-. split; [unfold live; rewrite Eerr; discriminate|].
        intros _ c' e' Hc' He'. cbn in Hc'. rewrite Nat.add_0_r in Hc'.
        rewrite Hc in Hc'. injection Hc' as <-. rewrite He in He'. injection He' as <-.
        reflexivity.
      * destruct (Hat i f0 Hf0) as [H0 H1]. split; [exact H0|].
        intros Hlive c' e' Hc' He'. cbn [take List.filter] in Hc'.
        unfold live at 1 in Hc'. rewrite Eerr in Hc'. cbn [negb length] in Hc'.
        replace (started + S (length (List.filter live (take i rest))))
          with (S started + length (List.filter live (take i rest))) in Hc' by lia.
        exact (H1 Hlive c' e' Hc' He').
Qed.

End Loops.

Lemma lookup_map_Some {A B : Type} (g : A -> B) (l : list A) (i : nat) (a : A) :
  l !! i = Some a -> map g l !! i = Some (g a).
Proof.
  revert i. induction l as [|x l IH]; intros [|i] H; cbn in *;
    try discriminate; [congruence | auto].
Qed.

Lemma filter_map_commute {A B : Type} (g : A -> B) (P : B -> bool) (Q : A -> bool)
      (l : list A) :
  (forall a, P (g a) = Q a) ->
  List.filter P (map g l) = map g (List.filter Q l).
Proof.
  intros H. induction l as [|x l IH]; [reflexivity|].
  cbn. rewrite H, IH. destruct (Q x); reflexivity.
Qed.

Lemma started_before_lt {F : Type} (E : Env) (path : F -> string)
      (files : list F) (i : nat) (f : F) :
  files !! i = Some f ->
  path_exists E (path f) = true ->
  started_before E path files i
  < length (List.filter (fun f => path_exists E (path f)) files).
Proof.
  intros Hf Hex. unfold started_before.
  rewrite <- (take_drop i files) at 2.
  rewrite List.filter_app, length_app.
  rewrite (drop_S files f i Hf). cbn [List.filter]. rewrite Hex. cbn [length]. lia.
Qed.

(** *** Both loops *)

Section BothLoops.

Context {F : Type}.
Variable E : Env.
Variable path : F -> string.
Variable argv : F -> list string.
Variable get_errno : F -> Z.
Variable update : string -> string -> Z -> F -> F.
Variable set_errno : Z -> F -> F.
Variable missing_msg : F -> string.
Variable pending_msg : string.
Variable done_msg : string.

Hypothesis get_errno_update :
  forall st msg e f, get_errno (update st msg e f) = e.

Lemma live_mark (f : F) :
  live get_errno (mark E path update missing_msg pending_msg f) =
  path_exists E (path f).
Proof.
  unfold live, mark. destruct (path_exists E (path f)); cbn;
    rewrite get_errno_update; reflexivity.
Qed.

Lemma run_auto_settles (files : list F) :
  (forall k, k < length (List.filter (fun f => path_exists E (path f)) files) ->
     exists c e, spawn E k = Some c /\ exits c e) ->
  exists fuel0, forall fuel, fuel0 <= fuel ->
    let run := run_auto E path argv get_errno update set_errno
                        missing_msg pending_msg done_msg fuel files in
    let marked := mark E path update missing_msg pending_msg in
    outcome run = Returned /\
    launches run =
      map (fun f => argv (marked f))
          (List.filter (fun f => path_exists E (path f)) files) /\
    length (files_after run) = length files /\
    forall i f, files !! i = Some f ->
      (path_exists E (path f) = false -> files_after run !! i = Some (marked f)) /\
      (path_exists E (path f) = true ->
       forall c e,
         spawn E (started_before E path files i) = Some c ->
         exits c e ->
         files_after run !! i =
           Some (finish update done_msg c e (set_errno 2 (marked f)))).
Proof.
  intros Hch.
  destruct (enough_polls E _ Hch) as (fuel0 & Hfuel).
  exists fuel0. intros fuel Hle run marked.
  assert (Hfilter : forall l,
            List.filter (live get_errno) (map marked l) =
            map marked (List.filter (fun f => path_exists E (path f)) l)).
  { intros l. apply filter_map_commute. exact live_mark. }
  destruct (transfer_settles E argv get_errno update set_errno done_msg fuel
              (map marked files) 0) as (Ho & Hl & Hlen & Hat).
  { intros k Hk. rewrite Hfilter, length_map in Hk.
    destruct (Hfuel fuel Hle k Hk) as (c & e & Hc & _ & He).
    exists c, e. split; assumption. }
  subst run. unfold run_auto. fold marked.
  split; [exact Ho|]. split; [rewrite Hl, Hfilter, map_map; reflexivity|].
  split; [rewrite Hlen, length_map; reflexivity|].
  intros i f Hf.
  destruct (Hat i (marked f) (lookup_map_Some marked files i f Hf)) as [H0 H1].
  split.
  - intros Hex. apply H0. unfold marked. rewrite live_mark. exact Hex.
  - intros Hex c e Hc He.
    pose proof (started_before_lt E path files i f Hf Hex) as Hk.
    destruct (Hfuel fuel Hle _ Hk) as (c' & e' & Hc' & He' & Haw).
    rewrite Hc in Hc'. injection Hc' as <-.
    rewrite (exits_functional c e e' He He') in *.
    apply H1.
    + unfold marked. rewrite live_mark. exact Hex.
    + cbn [Nat.add]. rewrite firstn_map, Hfilter, length_map. exact Hc.
    + exact Haw.
Qed.

End BothLoops.

End AutoFacts.

Module AutoTheorems.
Import Auto.
Import AutoFacts.
Import AutoSamples.

(** [stage_in_auto] settles every entry.  When each download that is
    started comes to an end, the function returns the list with every
    entry settled and none left ['running']: an entry whose destination
    does not exist is failed with [errno] 1 and no download is started
    for it; every other entry gets one download, in the order of the
    list, and is ['done'] with [errno] 0 when the child exits with code 0
    and failed with [errno] 3 and the message taken from [stderr]
    otherwise.  The keys [destination], [scope] and [name] are not
    touched. *)
Theorem stage_in_auto_settles_every_file (E : Env) (files : list StageIn.File) :
  (forall k,
     k < length (List.filter (fun f => path_exists E (StageIn.destination f)) files) ->
     exists c e, spawn E k = Some c /\ exits c e) ->
  exists fuel0, forall fuel, fuel0 <= fuel ->
    let run := stage_in_auto E fuel files in
    outcome run = Returned /\
    launches run =
      map StageIn.executable
          (List.filter (fun f => path_exists E (StageIn.destination f)) files) /\
    length (files_after run) = length files /\
    forall i f, files !! i = Some f ->
      exists f',
        files_after run !! i = Some f' /\
        StageIn.destination f' = StageIn.destination f /\
        StageIn.scope f' = StageIn.scope f /\
        StageIn.name f' = StageIn.name f /\
        (path_exists E (StageIn.destination f) = false ->
           StageIn.status f' = "failed"%string /\
           StageIn.errno f' = 1%Z /\
           StageIn.errmsg f' =
             ("Destination directory does not exist: " +:+ StageIn.destination f)%string) /\
        (path_exists E (StageIn.destination f) = true ->
         forall c e,
           spawn E (started_before E StageIn.destination files i) = Some c ->
           exits c e ->
           (e = 0%Z ->
              StageIn.status f' = "done"%string /\
              StageIn.errno f' = 0%Z /\
              StageIn.errmsg f' = "File successfully downloaded."%string) /\
           (e <> 0%Z ->
              StageIn.status f' = "failed"%string /\
              StageIn.errno f' = 3%Z /\
              StageIn.errmsg f' = details (c_stderr c))).
Proof.
  intros Hch.
  destruct (run_auto_settles E StageIn.destination StageIn.executable StageIn.errno
              StageIn.update StageIn.set_errno
              (fun f => "Destination directory does not exist: " +:+ StageIn.destination f)
              "File not yet successfully downloaded."
              "File successfully downloaded."
              (fun _ _ _ _ => eq_refl) files Hch) as (fuel0 & H).
  exists fuel0. intros fuel Hle run.
  destruct (H fuel Hle) as (Ho & Hl & Hlen & Hat). clear H.
  fold (stage_in_auto E fuel files) in Ho, Hl, Hlen, Hat. fold run in Ho, Hl, Hlen, Hat.
  split; [exact Ho|]. split.
  { rewrite Hl. apply map_ext. intros f. unfold mark.
    destruct (negb _); reflexivity. }
  split; [exact Hlen|].
  intros i f Hf. destruct (Hat i f Hf) as [H0 H1].
  destruct (path_exists E (StageIn.destination f)) eqn:Hex.
  - destruct (Hch _ (started_before_lt E StageIn.destination files i f Hf Hex))
      as (c0 & e0 & Hc0 & He0).
    eexists. split; [exact (H1 eq_refl c0 e0 Hc0 He0)|].
    unfold finish, mark. rewrite Hex. cbn [negb].
    split; [destruct (Z.eqb e0 0); reflexivity|].
    split; [destruct (Z.eqb e0 0); reflexivity|].
    split; [destruct (Z.eqb e0 0); reflexivity|].
    split; [discriminate|].
    intros _ c e Hc He. rewrite Hc0 in Hc. injection Hc as <-.
    rewrite (exits_functional c0 e e0 He He0). split.
    + intros ->. repeat split.
    + intros Hne. apply Z.eqb_neq in Hne. rewrite Hne. repeat split.
  - eexists. split; [exact (H0 eq_refl)|]. unfold mark. rewrite Hex. cbn.
    repeat split; discriminate.
Qed.

Lemma stage_in_auto_settles_every_file_witness :
  exists fuel0, forall fuel, fuel0 <= fuel ->
    outcome (stage_in_auto sample_env fuel sample_files) = Returned /\
    length (launches (stage_in_auto sample_env fuel sample_files)) = 2.
Proof.
  destruct (stage_in_auto_settles_every_file sample_env sample_files) as (fuel0 & H).
  - intros k Hk. exists (mkChild (fun j => if Nat.ltb j 2 then None
                                          else Some (Z.of_nat k))
                                ("line 1" +:+ newline +:+
                                 "Details: no such file." +:+ newline +:+
                                 "line 3")), (Z.of_nat k).
    split; [reflexivity|]. exists 2. split; [reflexivity|].
    intros i Hi. destruct i as [|[|i]]; [reflexivity | reflexivity | lia].
  - exists fuel0. intros fuel Hle. destruct (H fuel Hle) as (Ho & Hl & _).
    split; [exact Ho|]. rewrite Hl. reflexivity.
Defined.

End AutoTheorems.

Module AutoMore.
Import Auto.
Import AutoFacts.
Import AutoSamples.

(** [stage_out_auto] settles every entry, like [stage_in_auto]: an
    entry whose source file does not exist is failed with [errno] 1 and
    no upload is started for it; every other entry gets one upload, in
    the order of the list, and is ['done'] with [errno] 0 when the child
    exits with code 0 and failed with [errno] 3 otherwise.  No entry is
    left ['running'], and the keys that describe the file are not
    touched. *)
Theorem stage_out_auto_settles_every_file (E : Env) (files : list StageOut.File) :
  (forall k,
     k < length (List.filter (fun f => path_exists E (StageOut.file f)) files) ->
     exists c e, spawn E k = Some c /\ exits c e) ->
  exists fuel0, forall fuel, fuel0 <= fuel ->
    let run := stage_out_auto E fuel files in
    outcome run = Returned /\
    launches run =
      map StageOut.executable
          (List.filter (fun f => path_exists E (StageOut.file f)) files) /\
    length (files_after run) = length files /\
    forall i f, files !! i = Some f ->
      exists f',
        files_after run !! i = Some f' /\
        StageOut.update (StageOut.status f) (StageOut.errmsg f) (StageOut.errno f) f' = f /\
        (path_exists E (StageOut.file f) = false ->
           StageOut.status f' = "failed"%string /\
           StageOut.errno f' = 1%Z /\
           StageOut.errmsg f' =
             ("Source file does not exist: " +:+ StageOut.file f)%string) /\
        (path_exists E (StageOut.file f) = true ->
         forall c e,
           spawn E (started_before E StageOut.file files i) = Some c ->
           exits c e ->
           (e = 0%Z ->
              StageOut.status f' = "done"%string /\
              StageOut.errno f' = 0%Z /\
              StageOut.errmsg f' = "File successfully uploaded."%string) /\
           (e <> 0%Z ->
              StageOut.status f' = "failed"%string /\
              StageOut.errno f' = 3%Z /\
              StageOut.errmsg f' = details (c_stderr c))).
Proof.
  intros Hch.
  destruct (run_auto_settles E StageOut.file StageOut.executable StageOut.errno
              StageOut.update StageOut.set_errno
              (fun f => "Source file does not exist: " +:+ StageOut.file f)
              "File not yet successfully uploaded."
              "File successfully uploaded."
              (fun _ _ _ _ => eq_refl) files Hch) as (fuel0 & H).
  exists fuel0. intros fuel Hle run.
  destruct (H fuel Hle) as (Ho & Hl & Hlen & Hat). clear H.
  fold (stage_out_auto E fuel files) in Ho, Hl, Hlen, Hat. fold run in Ho, Hl, Hlen, Hat.
  split; [exact Ho|]. split.
  { rewrite Hl. apply map_ext. intros f. unfold mark.
    destruct (negb _); reflexivity. }
  split; [exact Hlen|].
  intros i f Hf. destruct (Hat i f Hf) as [H0 H1].
  destruct (path_exists E (StageOut.file f)) eqn:Hex.
  - destruct (Hch _ (started_before_lt E StageOut.file files i f Hf Hex))
      as (c0 & e0 & Hc0 & He0).
    eexists. split; [exact (H1 eq_refl c0 e0 Hc0 He0)|].
    unfold finish, mark. rewrite Hex. cbn [negb].
    split; [destruct f; destruct (Z.eqb e0 0); reflexivity|].
    split; [discriminate|].
    intros _ c e Hc He. rewrite Hc0 in Hc. injection Hc as <-.
    rewrite (exits_functional c0 e e0 He He0). split.
    + intros ->. repeat split.
    + intros Hne. apply Z.eqb_neq in Hne. rewrite Hne. repeat split.
  - eexists. split; [exact (H0 eq_refl)|]. unfold mark. rewrite Hex. cbn.
    split; [destruct f; reflexivity|]. repeat split; discriminate.
Qed.

Lemma stage_out_auto_settles_every_file_witness :
  exists fuel0, forall fuel, fuel0 <= fuel ->
    outcome (stage_out_auto sample_env fuel sample_uploads) = Returned /\
    length (launches (stage_out_auto sample_env fuel sample_uploads)) = 1.
Proof.
  destruct (stage_out_auto_settles_every_file sample_env sample_uploads) as (fuel0 & H).
  - intros k Hk.
    exists (mkChild (fun j => if Nat.ltb j 2 then None else Some (Z.of_nat k))
                    ("line 1" +:+ newline +:+
                     "Details: no such file." +:+ newline +:+
                     "line 3")), (Z.of_nat k).
    split; [reflexivity|]. exists 2. split; [reflexivity|].
    intros i Hi. destruct i as [|[|i]]; [reflexivity | reflexivity | lia].
  - exists fuel0. intros fuel Hle. destruct (H fuel Hle) as (Ho & Hl & _).
    split; [exact Ho|]. rewrite Hl. reflexivity.
Defined.

(** *** A launch that fails *)

Section LaunchFails.

Context {F : Type}.
Variable E : Env.
Variable argv : F -> list string.
Variable get_errno : F -> Z.
Variable update : string -> string -> Z -> F -> F.
Variable set_errno : Z -> F -> F.
Variable done_msg : string.

Lemma transfer_first_launch_fails (fuel started : nat) (files : list F) :
  spawn E started = None ->
  List.filter (live get_errno) files <> [] ->
  let run := transfer E argv get_errno update set_errno done_msg fuel started files in
  outcome run = Raised_OSError /\ files_after run = files /\
  length (launches run) = 1.
Proof.
  intros Hsp. induction files as [|f rest IH]; intros Hlive; [contradiction|].
  cbn [transfer]. cbn [List.filter] in Hlive. unfold live at 1 in Hlive.
  destruct (Z.eqb (get_errno f) 1); cbn [negb] in Hlive.
  - destruct (IH Hlive) as (Ho & Hf & Hl). cbn [outcome files_after launches].
    split; [exact Ho|]. split; [rewrite Hf; reflexivity | exact Hl].
  - rewrite Hsp. repeat split.
Qed.

End LaunchFails.

(** A launch that fails.  [subprocess.Popen] is called outside any
    [try]: when the first call raises [OSError], the exception leaves
    [stage_in_auto], and the list, which was updated in place, shows every
    entry whose destination exists as ['running'] with [errno] 2,
    although no transfer is running. *)
Theorem stage_in_auto_leaves_entries_running_when_launch_fails
        (E : Env) (fuel : nat) (files : list StageIn.File) :
  spawn E 0 = None ->
  (exists f, In f files /\ path_exists E (StageIn.destination f) = true) ->
  let run := stage_in_auto E fuel files in
  outcome run = Raised_OSError /\
  length (launches run) = 1 /\
  length (files_after run) = length files /\
  forall i f, files !! i = Some f ->
    exists f',
      files_after run !! i = Some f' /\
      (path_exists E (StageIn.destination f) = true ->
         StageIn.status f' = "running"%string /\ StageIn.errno f' = 2%Z) /\
      (path_exists E (StageIn.destination f) = false ->
         StageIn.status f' = "failed"%string /\ StageIn.errno f' = 1%Z).
Proof.
  intros Hsp (f0 & Hin & Hex0) run.
  set (marked := mark E StageIn.destination StageIn.update
                      (fun f => "Destination directory does not exist: "
                                +:+ StageIn.destination f)
                      "File not yet successfully downloaded.").
  destruct (transfer_first_launch_fails E StageIn.executable StageIn.errno
              StageIn.update StageIn.set_errno "File successfully downloaded."
              fuel 0 (map marked files) Hsp) as (Ho & Hf & Hl).
  { rewrite (filter_map_commute marked (live StageIn.errno)
               (fun f => path_exists E (StageIn.destination f)))
      by (intros f; apply live_mark; reflexivity).
    intros Hnil. apply map_eq_nil in Hnil.
    assert (Hin' : In f0 (List.filter (fun f => path_exists E (StageIn.destination f)) files))
      by (apply filter_In; split; assumption).
    rewrite Hnil in Hin'. destruct Hin'. }
  subst run. unfold stage_in_auto, run_auto. fold marked.
  split; [exact Ho|]. split; [exact Hl|].
  split; [rewrite Hf, length_map; reflexivity|].
  intros i f Hfi. exists (marked f). rewrite Hf.
  split; [apply lookup_map_Some; exact Hfi|].
  unfold marked, mark. destruct (path_exists E (StageIn.destination f)); cbn;
    split; intros; try discriminate; split; reflexivity.
Qed.

Lemma stage_in_auto_leaves_entries_running_when_launch_fails_witness :
  outcome (stage_in_auto (mkEnv (path_exists sample_env) (fun _ => None)) 5 sample_files)
  = Raised_OSError.
Proof.
  apply (stage_in_auto_leaves_entries_running_when_launch_fails
           (mkEnv (path_exists sample_env) (fun _ => None)) 5 sample_files).
  - reflexivity.
  - exists (StageIn.mkFile "/data" "s" "a.root" "" "" 0).
    split; [left; reflexivity | reflexivity].
Defined.

(** *** The message of a failed transfer *)

Lemma split_lines_one (l : string) :
  no_newline l = true -> split_lines l = [l].
Proof.
  induction l as [|c l IH]; [reflexivity|]. cbn [split_lines no_newline].
  intros H. apply andb_prop in H as [Hc Hl]. apply negb_true_iff in Hc.
  rewrite Hc, (IH Hl). reflexivity.
Qed.

Lemma split_lines_line (l s : string) :
  no_newline l = true ->
  split_lines (l +:+ newline +:+ s) = l :: split_lines s.
Proof.
  induction l as [|c l IH]; [reflexivity|].
  change (String c l +:+ newline +:+ s) with (String c (l +:+ newline +:+ s)).
  cbn [split_lines no_newline].
  intros H. apply andb_prop in H as [Hc Hl]. apply negb_true_iff in Hc.
  rewrite Hc. rewrite (IH Hl). reflexivity.
Qed.

(** [split] undoes [join]. *)
Lemma split_lines_concat (ls : list string) :
  ls <> [] ->
  Forall (fun l => no_newline l = true) ls ->
  split_lines (String.concat newline ls) = ls.
Proof.
  induction ls as [|x [|y ys] IH]; intros Hne Hall; [contradiction| |].
  - cbn. apply split_lines_one. inversion Hall; assumption.
  - inversion Hall as [|? ? Hx Hrest]; subst.
    change (String.concat newline (x :: y :: ys))
      with (x +:+ newline +:+ String.concat newline (y :: ys)).
    rewrite (split_lines_line _ _ Hx), IH; [reflexivity | discriminate | exact Hrest].
Qed.

Lemma substring_0_app (m s : string) :
  String.substring 0 (String.length m) (m +:+ s) = m.
Proof.
  induction m as [|c m IH].
  - destruct s; reflexivity.
  - change (String c m +:+ s) with (String c (m +:+ s)).
    cbn [String.length String.substring]. rewrite IH. reflexivity.
Qed.

Lemma no_newline_app (s t : string) :
  no_newline (s +:+ t) = no_newline s && no_newline t.
Proof.
  induction s as [|c s IH]; [reflexivity|].
  change (String c s +:+ t) with (String c (s +:+ t)).
  cbn [no_newline]. rewrite IH, andb_assoc. reflexivity.
Qed.

Lemma length_append (s t : string) :
  String.length (s +:+ t) = String.length s + String.length t.
Proof.
  induction s as [|c s IH]; [reflexivity|].
  change (String c s +:+ t) with (String c (s +:+ t)).
  cbn [String.length]. rewrite IH. reflexivity.
Qed.

(** The message of a failed transfer is cut out of the first line of
    [stderr] that starts with ['Details:']: the nine characters
    ['Details: '] are dropped, and so is the last character of the line,
    whatever it is. *)
Theorem details_drops_the_last_character_of_the_line
        (before after : list string) (m : string) (c : ascii) :
  Forall (fun l => no_newline l = true /\ String.prefix "Details:" l = false) before ->
  Forall (fun l => no_newline l = true) after ->
  no_newline m = true ->
  c <> "010"%char ->
  details (String.concat newline
             (before ++ ("Details: " +:+ m +:+ String c EmptyString) :: after)) = m.
Proof.
  intros Hb Ha Hm Hc. unfold details.
  rewrite split_lines_concat.
  - assert (Hf : forall l, List.filter (String.prefix "Details:")
                     (before ++ l) = List.filter (String.prefix "Details:") l).
    { intros l. induction Hb as [|x xs [_ Hx] _ IH]; [reflexivity|].
      cbn. rewrite Hx. exact IH. }
    rewrite Hf. cbn [List.filter].
    change (String.prefix "Details:" ("Details: " +:+ m +:+ String c ""))
      with true.
    cbn iota.
    change (String.length ("Details: " +:+ m +:+ String c EmptyString))
      with (9 + String.length (m +:+ String c EmptyString)).
    rewrite length_append. cbn [String.length].
    replace (9 + (String.length m + 1) - 10) with (String.length m) by lia.
    change (String.substring 9 (String.length m) ("Details: " +:+ m +:+ String c ""))
      with (String.substring 0 (String.length m) (m +:+ String c "")).
    apply substring_0_app.
  - destruct before; discriminate.
  - apply Forall_app. split.
    + eapply Forall_impl; [exact Hb|]. intros l [H _]. exact H.
    + constructor; [|exact Ha].
      change (no_newline ("Details: " +:+ m +:+ String c "") = true)
        with (no_newline (m +:+ String c "") = true).
      rewrite no_newline_app, Hm. cbn [no_newline andb]. rewrite andb_true_r.
      apply negb_true_iff, Ascii.eqb_neq. exact Hc.
Qed.

Lemma details_drops_the_last_character_of_the_line_witness :
  details (String.concat newline
             (["line 1"%string] ++
              ("Details: " +:+ "no such file" +:+ String "."%char EmptyString)
              :: ["line 3"%string])) = "no such file"%string.
Proof.
  apply (details_drops_the_last_character_of_the_line
           ["line 1"%string] ["line 3"%string] "no such file" "."%char).
  - repeat constructor.
  - repeat constructor.
  - reflexivity.
  - discriminate.
Defined.

End AutoMore.

(** ** Exit codes, texts and the pilot state *)

Module AuxFacts.
Import Util.
Import AuxSamples.

Lemma dict_set_int_fresh {V : Type} (d : list (Z * V)) (k : Z) (v : V) :
  ~ In k (map fst d) -> dict_set_int d k v = d ++ [(k, v)].
Proof.
  induction d as [|[k' v'] d IH]; intros Hn; [reflexivity|].
  cbn [dict_set_int]. destruct (Z.eqb_spec k' k) as [->|Hne].
  - exfalso. apply Hn. left. reflexivity.
  - rewrite IH; [reflexivity|]. intros H. apply Hn. right. exact H.
Qed.

Lemma dict_build_distinct {V : Type} (l acc : list (Z * V)) :
  List.NoDup (map fst (acc ++ l)) ->
  fold_left (fun d kv => dict_set_int d (fst kv) (snd kv)) l acc = acc ++ l.
Proof.
  revert acc. induction l as [|[k v] l IH]; intros acc Hnd.
  - rewrite app_nil_r. reflexivity.
  - cbn [fold_left fst snd]. rewrite dict_set_int_fresh.
    + rewrite IH; rewrite <- app_assoc; [reflexivity | exact Hnd].
    + rewrite map_app in Hnd. apply List.NoDup_remove_2 in Hnd.
      intros H. apply Hnd. apply in_app_iff. left. exact H.
Qed.

(** With pairwise different keys the dict is the display as written. *)
Lemma dictionary_is_display (errors : ErrorCodes) :
  List.NoDup (pilot_codes errors) ->
  get_error_code_translation_dictionary errors = translation_entries errors.
Proof.
  intros Hnd. unfold get_error_code_translation_dictionary.
  apply (dict_build_distinct (translation_entries errors) []). exact Hnd.
Qed.

Lemma dict_get_int_in {V : Type} (d : list (Z * V)) (k : Z) (v : V) :
  List.NoDup (map fst d) -> In (k, v) d -> dict_get_int d k = Some v.
Proof.
  induction d as [|[k' v'] d IH]; intros Hnd Hin; [destruct Hin|].
  cbn [dict_get_int]. cbn [map fst] in Hnd. inversion Hnd as [|? ? Hk Hd]; subst.
  destruct Hin as [[= -> ->]|Hin].
  - rewrite Z.eqb_refl. reflexivity.
  - destruct (Z.eqb_spec k' k) as [->|Hne].
    + exfalso. apply Hk. apply (in_map fst) in Hin. exact Hin.
    + apply IH; assumption.
Qed.

Lemma dict_get_int_none {V : Type} (d : list (Z * V)) (k : Z) :
  ~ In k (map fst d) -> dict_get_int d k = None.
Proof.
  induction d as [|[k' v'] d IH]; intros Hn; [reflexivity|].
  cbn [dict_get_int]. destruct (Z.eqb_spec k' k) as [->|Hne].
  - exfalso. apply Hn. left. reflexivity.
  - apply IH. intros H. apply Hn. right. exact H.
Qed.

(** The position of a key among pairwise different keys. *)
Lemma distinct_positions (l : list Z) (i j : nat) (x : Z) :
  List.NoDup l -> nth_error l i = Some x -> nth_error l j = Some x -> i = j.
Proof.
  intros Hnd Hi Hj.
  apply (proj1 (List.NoDup_nth_error l) Hnd i j); [|congruence].
  apply nth_error_Some. congruence.
Qed.

Lemma filter_none {A : Type} (P : A -> bool) (l : list A) :
  (forall a, In a l -> P a = false) -> List.filter P l = [].
Proof.
  induction l as [|x l IH]; intros H; [reflexivity|].
  cbn. rewrite (H x (or_introl eq_refl)). apply IH. intros a Ha. apply H. right. exact Ha.
Qed.

Lemma translations_lead_to_shell_codes (errors : ErrorCodes) (kv : Z * (Z * string)) :
  In kv (translation_entries errors) -> In (fst (snd kv)) shell_codes.
Proof.
  intros H. unfold translation_entries in H.
  repeat (destruct H as [<-|H]; [cbn; auto 30|]). destruct H.
Qed.

Lemma translation_at (errors : ErrorCodes) (C : Constants) (i : nat) (k : Z) (v : Z * string) :
  List.NoDup (pilot_codes errors) ->
  nth_error (translation_entries errors) i = Some (k, v) ->
  shell_exit_code errors C k = fst v.
Proof.
  intros Hnd Hi. unfold shell_exit_code.
  rewrite (dictionary_is_display errors Hnd).
  rewrite (dict_get_int_in _ k v Hnd (nth_error_In _ _ Hi)). reflexivity.
Qed.

End AuxFacts.

(** Round trip of the exit codes.  The pilot error codes being pairwise
    different (and different from -1), translating one of the codes of
    the dictionary to its shell exit code and back gives the code again,
    except for [NOPROXY] and [CERTIFICATEHASEXPIRED]: they share the shell
    code 68 with [NOVOMSPROXY], which comes first in the dictionary, and
    come back as [NOVOMSPROXY]. *)
Theorem exit_code_translation_round_trip
        (errors : Util.ErrorCodes) (C : Util.Constants) (code : Z) :
  NoDup (Util.pilot_codes errors) ->
  In code (Util.pilot_codes errors) ->
  In (Util.shell_exit_code errors C code) Util.shell_codes /\
  (code <> Util.NOPROXY errors -> code <> Util.CERTIFICATEHASEXPIRED errors ->
   Util.convert_to_pilot_error_code errors (Util.shell_exit_code errors C code) = code) /\
  (code = Util.NOPROXY errors \/ code = Util.CERTIFICATEHASEXPIRED errors ->
   Util.convert_to_pilot_error_code errors (Util.shell_exit_code errors C code)
   = Util.NOVOMSPROXY errors).
Proof.
  intros Hnd Hin. apply NoDup_ListNoDup in Hnd.
  apply In_nth_error in Hin as [i Hi].
  assert (Hconv : forall x,
            Util.convert_to_pilot_error_code errors x =
            match map fst (List.filter (fun kv => Z.eqb (fst (snd kv)) x)
                                       (Util.translation_entries errors)) with
            | [] => (-1)%Z
            | key :: _ => key
            end).
  { intros x. unfold Util.convert_to_pilot_error_code.
    rewrite (AuxFacts.dictionary_is_display errors Hnd). reflexivity. }
  assert (Hentry : exists v, nth_error (Util.translation_entries errors) i = Some (code, v)).
  { unfold Util.pilot_codes in Hi. rewrite nth_error_map in Hi.
    destruct (nth_error (Util.translation_entries errors) i) as [[k v]|]; [|discriminate].
    injection Hi as <-. exists v. reflexivity. }
  destruct Hentry as [v Hv].
  rewrite (AuxFacts.translation_at errors C i code v Hnd Hv), Hconv.
  pose proof Hi as Hpos.
  cases_nat i 24.
  all: cbn in Hv; try (destruct i; discriminate Hv).
  all: injection Hv as <- <-; cbn.
  all: split; [auto 30|]; split.
  all: try reflexivity.
  all: try (intros H1 H2; congruence).
  all: intros [H|H].
  all: try (exfalso;
            pose proof (AuxFacts.distinct_positions _ _ 5 _ Hnd Hpos
                          ltac:(rewrite H; reflexivity)) as E;
            discriminate E).
  all: try (exfalso;
            pose proof (AuxFacts.distinct_positions _ _ 6 _ Hnd Hpos
                          ltac:(rewrite H; reflexivity)) as E;
            discriminate E).
Qed.

Lemma exit_code_translation_round_trip_witness :
  Util.convert_to_pilot_error_code AuxSamples.sample_errors
    (Util.shell_exit_code AuxSamples.sample_errors AuxSamples.sample_constants 1199)
  = 1199%Z.
Proof.
  apply (exit_code_translation_round_trip AuxSamples.sample_errors
           AuxSamples.sample_constants 1199).
  - apply (bool_decide_unpack _). vm_compute. exact I.
  - vm_compute. auto 30.
  - discriminate.
  - discriminate.
Defined.

(** Codes without a translation.  A pilot error code that the
    dictionary does not have becomes [SUCCESS] when it is 0 and [FAILURE]
    otherwise.  A batch system exit code that no entry of the dictionary
    leads to is converted to -1, the key of ['Site offline'], whose shell
    exit code is 64. *)
Theorem untranslated_exit_codes_fall_back
        (errors : Util.ErrorCodes) (C : Util.Constants) (code : Z) :
  NoDup (Util.pilot_codes errors) ->
  (~ In code (Util.pilot_codes errors) ->
     Util.shell_exit_code errors C code =
       if Z.eqb code 0 then Util.SUCCESS C else Util.FAILURE C) /\
  (~ In code Util.shell_codes ->
     Util.convert_to_pilot_error_code errors code = (-1)%Z /\
     Util.shell_exit_code errors C (Util.convert_to_pilot_error_code errors code) = 64%Z).
Proof.
  intros Hnd. apply NoDup_ListNoDup in Hnd. split.
  - intros Hn. unfold Util.shell_exit_code.
    rewrite (AuxFacts.dictionary_is_display errors Hnd).
    rewrite (AuxFacts.dict_get_int_none _ code Hn).
    destruct (Z.eqb code 0); reflexivity.
  - intros Hn.
    assert (Hconv : Util.convert_to_pilot_error_code errors code = (-1)%Z).
    { unfold Util.convert_to_pilot_error_code.
      rewrite (AuxFacts.dictionary_is_display errors Hnd).
      rewrite (AuxFacts.filter_none _ (Util.translation_entries errors)); [reflexivity|].
      intros kv Hkv. apply Z.eqb_neq. intros Heq. apply Hn. rewrite <- Heq.
      exact (AuxFacts.translations_lead_to_shell_codes errors kv Hkv). }
    split; [exact Hconv|]. rewrite Hconv.
    exact (AuxFacts.translation_at errors C 0 (-1) (64%Z, "Site offline"%string)
             Hnd eq_refl).
Qed.

Lemma untranslated_exit_codes_fall_back_witness :
  (Util.shell_exit_code AuxSamples.sample_errors AuxSamples.sample_constants 5 =
     if Z.eqb 5 0 then Util.SUCCESS AuxSamples.sample_constants
     else Util.FAILURE AuxSamples.sample_constants) /\
  Util.convert_to_pilot_error_code AuxSamples.sample_errors 5 = (-1)%Z.
Proof.
  destruct (untranslated_exit_codes_fall_back AuxSamples.sample_errors
              AuxSamples.sample_constants 5) as [H1 H2].
  - apply (bool_decide_unpack _). vm_compute. exact I.
  - split.
    + apply H1. apply (bool_decide_unpack _). vm_compute. exact I.
    + apply H2. apply (bool_decide_unpack _). vm_compute. exact I.
Defined.

Module AuxStrings.
Import Util.
Import AutoMore.

Lemma substring_all (s : string) :
  String.substring 0 (String.length s) s = s.
Proof. induction s as [|c s IH]; [reflexivity|]. cbn. rewrite IH. reflexivity. Qed.

Lemma substring_long (s : string) (n : nat) :
  String.length s <= n -> String.substring 0 n s = s.
Proof.
  revert n. induction s as [|c s IH]; intros [|n] H; cbn in *; try reflexivity; [lia|].
  rewrite IH; [reflexivity | lia].
Qed.

Lemma substring_skip (a b : string) (m : nat) :
  String.substring (String.length a) m (a +:+ b) = String.substring 0 m b.
Proof.
  induction a as [|c a IH]; [reflexivity|].
  change (String c a +:+ b) with (String c (a +:+ b)). cbn [String.length String.substring].
  exact IH.
Qed.

Lemma substring_length (s : string) (n m : nat) :
  n + m <= String.length s -> String.length (String.substring n m s) = m.
Proof.
  revert n m. induction s as [|c s IH]; intros [|n] [|m] H; cbn in *;
    try reflexivity; try lia.
  - rewrite (IH 0 m); [reflexivity | lia].
  - apply (IH n 0). lia.
  - apply (IH n (S m)). lia.
Qed.

(** A text is its first [n] characters followed by the others. *)
Lemma substring_split (s : string) (n : nat) :
  n <= String.length s ->
  s = String.substring 0 n s +:+ String.substring n (String.length s - n) s.
Proof.
  revert n. induction s as [|c s IH]; intros n H.
  - destruct n; [reflexivity | cbn in H; lia].
  - destruct n as [|n].
    + rewrite Nat.sub_0_r, substring_all. reflexivity.
    + cbn [String.length String.substring Nat.sub].
      change (String c (String.substring 0 n s) +:+ String.substring n (String.length s - n) s)
        with (String c (String.substring 0 n s +:+ String.substring n (String.length s - n) s)).
      rewrite <- IH; [reflexivity | cbn in H; lia].
Qed.

Lemma append_associative (a b c : string) :
  ((a +:+ b) +:+ c = a +:+ (b +:+ c))%string.
Proof.
  induction a as [|x a IH]; [reflexivity|].
  change ((String x a +:+ b) +:+ c)%string with (String x ((a +:+ b) +:+ c))%string.
  change (String x a +:+ (b +:+ c))%string with (String x (a +:+ (b +:+ c)))%string.
  rewrite IH. reflexivity.
Qed.

End AuxStrings.

(** [cut_output].  A text of at most [2*cutat] characters is returned as
    it is.  A longer one, [cutat] being positive, is cut to its first
    [cutat] characters, the separator and its last [cutat] characters, so
    that the result has [2*cutat] characters and the separator; cutting
    the result again changes nothing.  With [cutat = 0] the slice
    [txt[-0:]] is the whole text: the result is the separator followed by
    the uncut text, longer than what came in. *)
Theorem cut_output_keeps_both_ends (txt separator : string) (cutat : Z) :
  ((Util.len txt <= 2 * cutat)%Z -> Util.cut_output txt cutat separator = txt) /\
  ((0 < cutat)%Z -> (2 * cutat < Util.len txt)%Z ->
     let c := Z.to_nat cutat in
     let cut := Util.cut_output txt cutat separator in
     cut = (String.substring 0 c txt +:+ separator
            +:+ String.substring (String.length txt - c) c txt)%string /\
     String.length cut = 2 * c + String.length separator /\
     Util.cut_output cut cutat separator = cut) /\
  (cutat = 0%Z -> txt <> EmptyString ->
     Util.cut_output txt cutat separator = (separator +:+ txt)%string).
Proof.
  unfold Util.len. split; [|split].
  - intros H. unfold Util.cut_output, Util.len.
    destruct (Z.ltb_spec (2 * cutat) (Z.of_nat (String.length txt))); [lia | reflexivity].
  - intros Hpos Hlong. set (c := Z.to_nat cutat).
    set (cut := Util.cut_output txt cutat separator).
    assert (Hc : 2 * c < String.length txt) by (subst c; lia).
    assert (Hcz : cutat = Z.of_nat c) by (subst c; lia).
    assert (Hcut : cut = (String.substring 0 c txt +:+ separator
                          +:+ String.substring (String.length txt - c) c txt)%string).
    { subst cut. unfold Util.cut_output, Util.len.
      destruct (Z.ltb_spec (2 * cutat) (Z.of_nat (String.length txt))); [|lia].
      unfold Util.slice_to, Util.slice_from.
      destruct (Z.ltb_spec cutat 0); [lia|].
      destruct (Z.ltb_spec (- cutat) 0); [|lia].
      replace (Z.to_nat (- - cutat)) with c by (subst c; lia).
      fold c.
      replace (String.length txt - (String.length txt - c)) with c by lia.
      reflexivity. }
    assert (Ha : String.length (String.substring 0 c txt) = c)
      by (apply AuxStrings.substring_length; lia).
    assert (Hb : String.length (String.substring (String.length txt - c) c txt) = c)
      by (apply AuxStrings.substring_length; lia).
    assert (Hlen : String.length cut = 2 * c + String.length separator).
    { rewrite Hcut, !AutoMore.length_append, Ha, Hb. lia. }
    split; [exact Hcut|]. split; [exact Hlen|].
    unfold Util.cut_output at 1, Util.len.
    destruct (Z.ltb_spec (2 * cutat) (Z.of_nat (String.length cut))); [|reflexivity].
    unfold Util.slice_to, Util.slice_from.
    destruct (Z.ltb_spec cutat 0); [lia|].
    destruct (Z.ltb_spec (- cutat) 0); [|lia].
    replace (Z.to_nat (- - cutat)) with c by (subst c; lia). fold c.
    replace (String.length cut - (String.length cut - c)) with c by lia.
    rewrite Hlen.
    replace (2 * c + String.length separator - c)
      with (String.length (String.substring 0 c txt +:+ separator))
      by (rewrite AutoMore.length_append, Ha; lia).
    rewrite Hcut at 1 2.
    rewrite <- Ha at 1.
    rewrite AutoMore.substring_0_app.
    replace (String.substring 0 c txt +:+ separator
             +:+ String.substring (String.length txt - c) c txt)%string
      with ((String.substring 0 c txt +:+ separator)
            +:+ String.substring (String.length txt - c) c txt)%string
      by (apply AuxStrings.append_associative).
    rewrite AuxStrings.substring_skip.
    rewrite (AuxStrings.substring_long
               (String.substring (String.length txt - c) c txt) c) by lia.
    symmetry. exact Hcut.
  - intros -> Hne. unfold Util.cut_output, Util.len.
    destruct (Z.ltb_spec (2 * 0) (Z.of_nat (String.length txt))) as [_|H].
    + unfold Util.slice_to, Util.slice_from.
      change (- 0)%Z with 0%Z. change (0 <? 0)%Z with false. cbn iota.
      change (Z.to_nat 0) with 0.
      rewrite Nat.sub_0_r, AuxStrings.substring_all. destruct txt; reflexivity.
    + destruct txt; [contradiction | cbn in H; lia].
Qed.

Module AuxWait.
Import Util.

Lemma final_update_loop_run (C : Constants) (environ : nat -> string)
      (remaining : nat) :
  forall reads slept,
    let run := final_update_loop C environ remaining reads slept in
    let more := snd run - slept in
    slept <= snd run /\ more <= remaining /\
    (forall k, reads <= k < reads + more -> over C environ k = false) /\
    (more < remaining ->
       over C environ (reads + more) = true /\ fst run = S (reads + more)) /\
    (more = remaining -> fst run = reads + remaining).
Proof.
  induction remaining as [|remaining IH]; intros reads slept.
  - cbn. replace (slept - slept) with 0 by lia.
    repeat split; try lia.
  - cbn [final_update_loop]. fold (over C environ reads).
    destruct (over C environ reads) eqn:Eo.
    + cbn [fst snd]. replace (slept - slept) with 0 by lia.
      split; [lia|]. split; [lia|]. split; [intros k Hk; lia|].
      split; [intros _; rewrite Nat.add_0_r; split; [exact Eo | reflexivity]|].
      intros H. lia.
    + destruct (IH (S reads) (S slept)) as (H1 & H2 & H3 & H4 & H5).
      set (run := final_update_loop C environ remaining (S reads) (S slept)) in *.
      cbn zeta in *.
      split; [lia|]. split; [lia|]. split.
      * intros k Hk. destruct (decide (k = reads)) as [->|Hne]; [exact Eo|].
        apply H3. lia.
      * split.
        -- intros Hlt.
           replace (reads + (snd run - slept)) with (S reads + (snd run - S slept)) by lia.
           apply H4. lia.
        -- intros Heq. rewrite H5; lia.
Qed.

End AuxWait.

(** Waiting for the final server update.  The function sleeps at most
    20 times (30 s each).  It does not sleep at all when the variable
    holds [SERVER_UPDATE_NOT_DONE] at entry or when [update_server] is
    false.  Otherwise it sleeps once for every reading, from the second
    one on, that finds neither [SERVER_UPDATE_FINAL] nor
    [SERVER_UPDATE_TROUBLE], and stops at the first reading that finds one
    of them; a [SERVER_UPDATE_NOT_DONE] that shows up later does not stop
    it. *)
Theorem final_update_wait_is_bounded
        (C : Util.Constants) (environ : nat -> string) (update_server : bool) :
  let run := Util.check_for_final_server_update C environ update_server in
  let reads := fst run in
  let slept := snd run in
  slept <= 20 /\
  (environ 0 = Util.SERVER_UPDATE_NOT_DONE C \/ update_server = false ->
     slept = 0 /\ reads = 1) /\
  (environ 0 <> Util.SERVER_UPDATE_NOT_DONE C -> update_server = true ->
     (forall k, 1 <= k <= slept -> Util.over C environ k = false) /\
     (slept < 20 -> Util.over C environ (S slept) = true /\ reads = slept + 2) /\
     (slept = 20 -> reads = 21)).
Proof.
  intros run reads slept. subst reads slept run.
  unfold Util.check_for_final_server_update.
  destruct (String.eqb_spec (environ 0) (Util.SERVER_UPDATE_NOT_DONE C)) as [He|Hne].
  - cbn [fst snd]. split; [lia|]. split; [auto|]. intros H. contradiction.
  - destruct update_server.
    + destruct (AuxWait.final_update_loop_run C environ 20 1 0) as (H1 & H2 & H3 & H4 & H5).
      set (run := Util.final_update_loop C environ 20 1 0) in *. cbn zeta in *.
      rewrite Nat.sub_0_r in *.
      split; [exact H2|]. split; [intros [H|H]; [contradiction | discriminate]|].
      intros _ _. split; [intros k Hk; apply H3; lia|]. split.
      * intros Hlt. destruct (H4 Hlt) as [Ho Hr]. split; [exact Ho | rewrite Hr; lia].
      * intros Heq. rewrite (H5 Heq). reflexivity.
    + cbn [fst snd]. split; [lia|]. split; [auto|]. intros _ H. discriminate.
Qed.

Module AuxWords.
Import Util.

Lemma append_empty (s : string) : (s +:+ EmptyString)%string = s.
Proof.
  induction s as [|c s IH]; [reflexivity|].
  change (String c s +:+ "")%string with (String c (s +:+ "")%string).
  rewrite IH. reflexivity.
Qed.

Lemma no_space_append (s t : string) :
  no_space (s +:+ t) = no_space s && no_space t.
Proof.
  induction s as [|c s IH]; [reflexivity|].
  change (String c s +:+ t)%string with (String c (s +:+ t)%string).
  cbn [no_space]. rewrite IH, andb_assoc. reflexivity.
Qed.

(** The scan of a text that begins with a run of characters that are
    not white space. *)
Lemma split_scan_word (w s : string) :
  no_space w = true ->
  split_scan (w +:+ s) = (w +:+ fst (split_scan s), snd (split_scan s))%string.
Proof.
  induction w as [|c w IH]; intros Hw.
  - change ("" +:+ s)%string with s. destruct (split_scan s); reflexivity.
  - change (String c w +:+ s)%string with (String c (w +:+ s)%string).
    cbn [no_space] in Hw. apply andb_prop in Hw as [Hc Hw]. apply negb_true_iff in Hc.
    cbn [split_scan]. rewrite (IH Hw), Hc. reflexivity.
Qed.

Lemma split_scan_space (s : string) :
  split_scan (" " +:+ s) = (EmptyString, split s).
Proof.
  change (" " +:+ s)%string with (String " "%char s).
  cbn [split_scan]. unfold split. destruct (split_scan s) as [w ws]. reflexivity.
Qed.

Lemma is_word_parts (w : string) :
  is_word w = true <-> no_space w = true /\ w <> EmptyString.
Proof.
  unfold is_word. rewrite andb_true_iff, negb_true_iff, String.eqb_neq. reflexivity.
Qed.

Lemma split_one_word (w : string) : is_word w = true -> split w = [w].
Proof.
  intros H. apply is_word_parts in H as [Hw Hne]. unfold split.
  rewrite <- (append_empty w) at 1. rewrite (split_scan_word w "" Hw). cbn [split_scan fst snd].
  rewrite append_empty. destruct w; [contradiction | reflexivity].
Qed.

(** [split] undoes [' '.join] on words. *)
Lemma split_join (ws : list string) :
  Forall (fun w => is_word w = true) ws ->
  split (String.concat " " ws) = ws.
Proof.
  induction ws as [|w [|w2 ws] IH]; intros Hall; [reflexivity| |].
  - cbn. apply split_one_word. inversion Hall; assumption.
  - inversion Hall as [|? ? Hw Hrest]; subst.
    change (String.concat " " (w :: w2 :: ws))
      with (w +:+ " " +:+ String.concat " " (w2 :: ws))%string.
    apply is_word_parts in Hw as [Hw Hne].
    unfold split. rewrite (split_scan_word w _ Hw), split_scan_space, (IH Hrest).
    cbn [fst snd]. rewrite append_empty. destruct w; [contradiction | reflexivity].
Qed.

(** What [split] returns are words. *)
Lemma split_scan_words (s : string) :
  no_space (fst (split_scan s)) = true /\
  Forall (fun w => is_word w = true) (snd (split_scan s)).
Proof.
  induction s as [|c s [IHw IHws]]; [split; [reflexivity | constructor]|].
  cbn [split_scan]. destruct (split_scan s) as [w ws]. cbn [fst snd] in *.
  destruct (is_space c) eqn:Ec; cbn [fst snd].
  - split; [reflexivity|]. destruct w as [|x w]; [exact IHws|].
    constructor; [|exact IHws]. apply is_word_parts. split; [exact IHw | discriminate].
  - split; [|exact IHws]. cbn [no_space]. rewrite Ec, IHw. reflexivity.
Qed.

Lemma split_words (s : string) : Forall (fun w => is_word w = true) (split s).
Proof.
  unfold split. destruct (split_scan_words s) as [Hw Hws].
  destruct (split_scan s) as [w ws]. cbn [fst snd] in *.
  destruct w as [|x w]; [exact Hws|].
  constructor; [|exact Hws]. apply is_word_parts. split; [exact Hw | discriminate].
Qed.

(** *** Sorting *)

Lemma insert_sorted_perm (w : string) (l : list string) :
  Permutation (insert_sorted w l) (w :: l).
Proof.
  induction l as [|x l IH]; [reflexivity|]. cbn [insert_sorted].
  destruct (String.leb w x); [reflexivity|].
  rewrite IH. apply perm_swap.
Qed.

Lemma sort_perm (l : list string) : Permutation (sort l) l.
Proof.
  induction l as [|w l IH]; [reflexivity|]. cbn [sort].
  rewrite insert_sorted_perm, IH. reflexivity.
Qed.

Lemma insert_sorted_keeps_order (w : string) (l : list string) :
  Sorted (fun a b => String.leb a b = true) l ->
  Sorted (fun a b => String.leb a b = true) (insert_sorted w l).
Proof.
  induction l as [|x l IH]; intros Hs; [repeat constructor|].
  cbn [insert_sorted]. destruct (String.leb w x) eqn:Ewx.
  - constructor; [exact Hs|]. constructor. exact Ewx.
  - inversion Hs as [|? ? Hl Hhd]; subst.
    constructor; [apply IH; exact Hl|].
    destruct l as [|y l]; cbn [insert_sorted].
    + constructor. destruct (String.leb_total w x) as [H|H]; [congruence | exact H].
    + destruct (String.leb w y).
      * constructor. destruct (String.leb_total w x) as [H|H]; [congruence | exact H].
      * constructor. inversion Hhd; assumption.
Qed.

Lemma sort_sorted (l : list string) :
  Sorted (fun a b => String.leb a b = true) (sort l).
Proof.
  induction l as [|w l IH]; [constructor|]. cbn [sort].
  apply insert_sorted_keeps_order. exact IH.
Qed.

(** Sorting a list that is in order changes nothing. *)
Lemma sort_of_sorted (l : list string) :
  Sorted (fun a b => String.leb a b = true) l -> sort l = l.
Proof.
  induction l as [|x l IH]; intros Hs; [reflexivity|].
  inversion Hs as [|? ? Hl Hhd]; subst. cbn [sort]. rewrite (IH Hl).
  destruct l as [|y l]; [reflexivity|]. cbn [insert_sorted].
  inversion Hhd as [|? ? Hxy]; subst. rewrite Hxy. reflexivity.
Qed.

End AuxWords.

(** [sort_words].  The words of the result are the words of the input,
    as many times each, in ascending order; sorting the result again
    changes nothing. *)
Theorem sort_words_sorts_the_words (input_str : string) :
  let output_str := Util.sort_words input_str in
  Util.split output_str = Util.sort (Util.split input_str) /\
  Sorted (fun a b => String.leb a b = true) (Util.split output_str) /\
  Permutation (Util.split output_str) (Util.split input_str) /\
  Util.sort_words output_str = output_str.
Proof.
  intros output_str.
  assert (Hsplit : Util.split output_str = Util.sort (Util.split input_str)).
  { subst output_str. unfold Util.sort_words. apply AuxWords.split_join.
    eapply Permutation_Forall; [symmetry; apply AuxWords.sort_perm|].
    apply AuxWords.split_words. }
  split; [exact Hsplit|].
  split; [rewrite Hsplit; apply AuxWords.sort_sorted|].
  split; [rewrite Hsplit; apply AuxWords.sort_perm|].
  unfold Util.sort_words at 1. rewrite Hsplit.
  rewrite (AuxWords.sort_of_sorted _ (AuxWords.sort_sorted _)). reflexivity.
Qed.

Module AuxKeys.
Import Util.
Import AuxWords.

(** The scan of a text followed by a blank and a word. *)
Lemma split_scan_then_word (c w : string) :
  is_word w = true ->
  split_scan (c +:+ " " +:+ w) =
  (fst (split_scan c), snd (split_scan c) ++ [w]).
Proof.
  intros Hw. induction c as [|x c IH].
  - change ("" +:+ " " +:+ w)%string with (" " +:+ w)%string.
    rewrite split_scan_space, (split_one_word w Hw). reflexivity.
  - change (String x c +:+ " " +:+ w)%string with (String x (c +:+ " " +:+ w)%string).
    cbn [split_scan]. rewrite IH. destruct (split_scan c) as [u us]. cbn [fst snd].
    destruct (is_space x); [|reflexivity]. destruct u; reflexivity.
Qed.

Lemma split_then_word (c w : string) :
  is_word w = true -> split (c +:+ " " +:+ w) = split c ++ [w].
Proof.
  intros Hw. unfold split. rewrite (split_scan_then_word c w Hw).
  destruct (split_scan c) as [u us]. cbn [fst snd]. destruct u; reflexivity.
Qed.

Lemma dict_get_set {V : Type} (d : list (string * V)) (k k' : string) (v : V) :
  dict_get (dict_set d k v) k' =
  if String.eqb k k' then Some v else dict_get d k'.
Proof.
  induction d as [|[k0 v0] d IH]; cbn [dict_set dict_get].
  - reflexivity.
  - destruct (String.eqb_spec k0 k) as [->|Hne]; cbn [dict_get].
    + destruct (String.eqb k k'); reflexivity.
    + rewrite IH. destruct (String.eqb_spec k0 k') as [->|Hne'].
      * destruct (String.eqb_spec k k'); [congruence | reflexivity].
      * reflexivity.
Qed.

Lemma split_eq_assignment (key value : string) :
  has_eq key = false ->
  split_eq (key +:+ "=" +:+ value) = (key, value) /\
  has_eq (key +:+ "=" +:+ value) = true.
Proof.
  induction key as [|c key IH]; intros Hk.
  - split; reflexivity.
  - change (String c key +:+ "=" +:+ value)%string
      with (String c (key +:+ "=" +:+ value)%string).
    cbn [has_eq] in Hk. apply orb_false_elim in Hk as [Hc Hk].
    destruct (IH Hk) as [Hs He]. cbn [split_eq has_eq].
    rewrite Hc, Hs, He. split; reflexivity.
Qed.

Lemma collect_pairs_without_key (key : string) (ws : list string) :
  forall d,
    dict_get d key = None ->
    (forall w, In w ws -> has_eq w = true -> fst (split_eq w) <> key) ->
    dict_get (collect_pairs d ws) key = None.
Proof.
  induction ws as [|w ws IH]; intros d Hd Hws; [exact Hd|].
  cbn [collect_pairs fold_left]. apply IH.
  - destruct (has_eq w) eqn:Ew; [|exact Hd].
    pose proof (Hws w (or_introl eq_refl) Ew) as Hne.
    destruct (split_eq w) as [k v]. cbn [fst] in Hne.
    rewrite dict_get_set. destruct (String.eqb_spec k key); [contradiction | exact Hd].
  - intros w' Hin. apply Hws. right. exact Hin.
Qed.

Lemma collect_pairs_app (d : list (string * string)) (ws ws' : list string) :
  collect_pairs d (ws ++ ws') = collect_pairs (collect_pairs d ws) ws'.
Proof. unfold collect_pairs. apply fold_left_app. Qed.

End AuxKeys.

(** [get_key_value].  An assignment [key=value] that ends the text
    gives the value of the key, whatever the text before it holds: of
    several assignments to one key the last one counts.  A text in which
    no word with ['='] has the key before its first ['='] gives [None];
    words without ['='] are passed over. *)
Theorem get_key_value_reads_the_last_assignment (catchall key value : string) :
  (Util.no_space key = true -> Util.has_eq key = false -> Util.no_space value = true ->
   Util.get_key_value (catchall +:+ " " +:+ key +:+ "=" +:+ value) key = Some value) /\
  ((forall w, In w (Util.split catchall) -> Util.has_eq w = true ->
              fst (Util.split_eq w) <> key) ->
   Util.get_key_value catchall key = None).
Proof.
  split.
  - intros Hk He Hv.
    assert (Hw : Util.is_word (key +:+ "=" +:+ value) = true).
    { apply AuxWords.is_word_parts. split.
      - rewrite !AuxWords.no_space_append, Hk, Hv. reflexivity.
      - destruct key; discriminate. }
    change (Util.get_key_value (catchall +:+ " " +:+ key +:+ "=" +:+ value) key)
      with (Util.dict_get
              (Util.collect_pairs [] (Util.split (catchall +:+ " " +:+ key +:+ "=" +:+ value)))
              key).
    rewrite (AuxKeys.split_then_word catchall _ Hw), AuxKeys.collect_pairs_app.
    cbn [Util.collect_pairs fold_left].
    destruct (AuxKeys.split_eq_assignment key value He) as [Hs Hh].
    rewrite Hh, Hs, AuxKeys.dict_get_set, String.eqb_refl. reflexivity.
  - intros Hws.
    change (Util.get_key_value catchall key)
      with (Util.dict_get (Util.collect_pairs [] (Util.split catchall)) key).
    apply AuxKeys.collect_pairs_without_key; [reflexivity | exact Hws].
Qed.

(** Setting the pilot state and reading it back.  For a state with a
    null character the assignment to [os.environ] raises [ValueError]
    and nothing is written.  For any other state [set_pilot_state]
    returns and has written the variable [PILOT_JOB_STATE], so that a
    reading without a job gives the state just set.  A reading with the
    job gives it too unless the job had failed: then the job still says
    ['failed'] while the variable says the new state. *)
Theorem pilot_state_read_after_write
        (environ : Auxiliary.Environ) (job : option Job) (st : string) :
  (Auxiliary.has_nul st = true ->
   Auxiliary.set_pilot_state environ job st =
     Raise (ValueError "embedded null byte")) /\
  (Auxiliary.has_nul st = false ->
   exists environ' job',
     Auxiliary.set_pilot_state environ job st = Ret (environ', job') /\
     Auxiliary.get_pilot_state environ' None = st /\
     (forall j, job = Some j -> state j <> "failed"%string ->
        Auxiliary.get_pilot_state environ' job' = st) /\
     (forall j, job = Some j -> state j = "failed"%string ->
        Auxiliary.get_pilot_state environ' job' = "failed"%string /\
        Auxiliary.get_pilot_state environ' None = st)).
Proof.
  unfold Auxiliary.set_pilot_state, Auxiliary.get_pilot_state.
  split; intros ->; [reflexivity|].
  destruct job as [j|]; cbn.
  - destruct (String.eqb_spec (state j) "failed") as [He|Hne]; cbn.
    + eexists _, _. split; [reflexivity|]. split; [reflexivity|]. split.
      * intros j' [= <-] H. contradiction.
      * intros j' [= <-] _. split; [exact He | reflexivity].
    + eexists _, _. split; [reflexivity|]. split; [reflexivity|]. split.
      * intros j' [= <-] _. reflexivity.
      * intros j' [= <-] H. contradiction.
  - eexists _, _. split; [reflexivity|]. split; [reflexivity|].
    split; intros j' H; discriminate.
Qed.
